(** * LinDB core: field store, tag search and job manager

    A shallow embedding of
      - [tsdb/memdb/field_store.go]  (package memdb:  fieldStore),
      - [tag_search.go]              (package query:  tagSearch),
      - [job_manager.go]             (package parallel: jobManager),
    followed by the properties of these three components.

    Conventions.  Go's [int64] is a [Z] with the wrap-around of two's
    complement written out ([Int64.wrap]).  Slices are lists, indices are
    [nat].  Pointers to mutable objects (the segment stores held by a field
    store) are locations into an explicit heap.  Collaborators that live
    outside the embedded files (segment store, task manager, metadata index)
    are type classes or records of functions, the Go interfaces they are. *)

From Stdlib Require Import ZArith Lia.
From stdpp Require Import base tactics option list gmap strings pretty sorting.

Open Scope Z_scope.

(** Go's [error] values are represented by their message. *)
Definition error := string.

(** Results of calls that return [(value, error)]. *)
Inductive result (A : Type) : Type :=
| Ok (a : A)
| Err (e : error).
Arguments Ok {A} a.
Arguments Err {A} e.

(** ** 64-bit signed integers *)
Module Int64.

Definition min_int : Z := - 2 ^ 63.
Definition max_int : Z := 2 ^ 63 - 1.

(** The value of an integer expression after truncation to 64 bits. *)
Definition wrap (z : Z) : Z := (z + 2 ^ 63) mod 2 ^ 64 - 2 ^ 63.

Definition add (a b : Z) : Z := wrap (a + b).
Definition mul (a b : Z) : Z := wrap (a * b).

Definition in_range (z : Z) : Prop := min_int <= z <= max_int.

End Int64.

(** ** Package sort of the Go standard library *)
Module sort.

(** [sort.Search]: binary search for the least index in [0, n) at which
    [f] holds ([n] if there is none).  The loop
      [for i < j { h := int(uint(i+j) >> 1); if !f(h) { i = h + 1 } else { j = h } }]
    runs at most [j - i] times, which is the fuel given by [Search]. *)
Fixpoint search_loop (fuel : nat) (f : nat -> bool) (i j : nat) : nat :=
  match fuel with
  | O => i
  | S fuel' =>
      if (i <? j)%nat then
        let h := ((i + j) / 2)%nat in
        if negb (f h) then search_loop fuel' f (h + 1)%nat j
        else search_loop fuel' f i h
      else i
  end.

Definition Search (n : nat) (f : nat -> bool) : nat := search_loop n f 0%nat n.

(** [sort.Sort] over a [Less] function.  The library's algorithm is not
    part of the repository; it is embedded as an insertion sort.  A field
    store only ever sorts segments with pairwise distinct family times,
    for which every sorting algorithm returns the same slice. *)
Section Sort.
Context {A : Type} (less : A -> A -> bool).

Fixpoint insert (x : A) (l : list A) : list A :=
  match l with
  | [] => [x]
  | y :: l' => if less x y then x :: y :: l' else y :: insert x l'
  end.

Fixpoint Sort (l : list A) : list A :=
  match l with
  | [] => []
  | x :: l' => insert x (Sort l')
  end.
End Sort.

(** The [Less] of a slice ordered by an integer key. *)
Definition less_by {A : Type} (key : A -> Z) (x y : A) : bool :=
  bool_decide (key x < key y).

End sort.

(** ** Package memdb: the field store *)
Module memdb.

(** [field.Type], declared outside field_store.go, whose comment on the
    field lists "sum, gauge, min, max". *)
Inductive field_Type := field_Sum | field_Gauge | field_Min | field_Max.

(** The aggregation function selected by [field.GetAggFunc]. *)
Inductive field_AggFunc := AggFuncOf (t : field_Type).
Definition field_GetAggFunc (t : field_Type) : field_AggFunc := AggFuncOf t.

(** A [float64], carried as its IEEE-754 bit pattern: the field store
    only passes the value on to the segment. *)
Definition float64 := Z.

(** [pb.Field]: the one-of [f.Field] that [write] switches on.  Every
    case other than [*pb.Field_Sum] (another kind, or an unset field)
    takes the [default] branch. *)
Inductive isField_Field :=
| pb_Field_Sum (Sum : float64)
| pb_Field_Other (kind : string).

Record pb_Field := { Name : string; Field : isField_Field }.

(** Modelled from the spec: [writeContext{familyTime, ...}].  The struct
    is declared outside field_store.go, which reads [familyTime] only; the
    rest of the context is summarised by the slot the value is written
    to. *)
Record writeContext := { familyTime : Z; slotIndex : Z }.

(** Modelled from the spec: the segment store, "a single time-window
    write buffer for one field; exposes write, byte-serialization,
    slot-range, and family-time accessors".  [sStoreINTF] is this
    interface, through the methods the field store calls, with the
    constructor [newSimpleFieldStore]. *)
Class sStoreINTF (S : Type) := {
  getFamilyTime : S -> Z;
  writeFloat : float64 -> writeContext -> S -> S;
  (** [bytes() (data, startSlot, endSlot, err)] *)
  bytes : S -> result (list Z * Z * Z);
  (** [slotRange() (startSlot, endSlot, err)] *)
  slotRange : S -> result (Z * Z);
  newSimpleFieldStore : Z -> field_AggFunc -> S;
}.

(** Modelled from the spec: "Segment store factory: produces a fresh
    write buffer for a family time"; the family time is an accessor of
    the segment and writing a value does not move the segment to another
    family. *)
Class sStoreContract (S : Type) `{sStoreINTF S} : Prop := {
  getFamilyTime_new : forall t f, getFamilyTime (newSimpleFieldStore t f) = t;
  getFamilyTime_writeFloat :
    forall v c s, getFamilyTime (writeFloat v c s) = getFamilyTime s;
}.

(** Modelled from the spec: the table flusher, "FlushField(fieldID,
    fieldType, payloadBytes, startSlot, endSlot)".  [FlushField] returns
    nothing, so a [metrictbl.TableFlusher] is the record of the calls it
    has received. *)
Record FlushFieldCall := {
  ff_fieldID : Z;
  ff_fieldType : field_Type;
  ff_data : list Z;
  ff_startSlot : Z;
  ff_endSlot : Z;
}.
Definition TableFlusher := list FlushFieldCall.
Definition FlushField (tf : TableFlusher) (fieldID : Z) (fieldType : field_Type)
    (data : list Z) (startSlot endSlot : Z) : TableFlusher :=
  tf ++ [ {| ff_fieldID := fieldID; ff_fieldType := fieldType; ff_data := data;
             ff_startSlot := startSlot; ff_endSlot := endSlot |} ].

(** [timeutil.TimeRange] *)
Record TimeRange := { Start : Z; End : Z }.

(** Segment stores are reached through pointers: [loc] is an address,
    the heap maps the allocated addresses [0, length h) to the segments. *)
Abbreviation loc := nat.

Record fieldStore := {
  fieldName : string;
  fieldType : field_Type;
  fieldID : Z;
  sStoreNodes : list loc;
}.

Definition set_sStoreNodes (fs : fieldStore) (nodes : list loc) : fieldStore :=
  {| fieldName := fieldName fs; fieldType := fieldType fs; fieldID := fieldID fs;
     sStoreNodes := nodes |}.

Definition newFieldStore (name : string) (id : Z) (t : field_Type) : fieldStore :=
  {| fieldName := name; fieldType := t; fieldID := id; sStoreNodes := [] |}.

Definition getFieldName (fs : fieldStore) : string := fieldName fs.
Definition getFieldType (fs : fieldStore) : field_Type := fieldType fs.

Section FieldStore.
Context {S : Type} `{sStoreINTF S}.

Local Abbreviation heap := (list S).

(** [p.getFamilyTime()] through a pointer.  The field store only
    dereferences pointers it holds, all allocated; the value given to a
    dangling one is never used. *)
Definition familyTimeAt (h : heap) (p : loc) : Z :=
  match h !! p with
  | Some s => getFamilyTime s
  | None => 0
  end.

(** [sStoreNodes.Less] *)
Definition Less (h : heap) (p q : loc) : bool :=
  bool_decide (familyTimeAt h p < familyTimeAt h q).

(** The index computed by [sort.Search] in [getSStore] and
    [removeSStore]; [f] is only called inside the slice. *)
Definition searchSStore (h : heap) (fs : fieldStore) (familyTime : Z) : nat :=
  sort.Search (length (sStoreNodes fs)) (fun i =>
    match sStoreNodes fs !! i with
    | Some p => bool_decide (familyTimeAt h p >= familyTime)
    | None => false
    end).

Definition getSStore (h : heap) (fs : fieldStore) (familyTime : Z) : option loc :=
  let idx := searchSStore h fs familyTime in
  match sStoreNodes fs !! idx with
  | None => None                                   (* idx >= len *)
  | Some p =>
      if bool_decide (familyTimeAt h p <> familyTime) then None
      else Some p
  end.

Definition removeSStore (h : heap) (fs : fieldStore) (familyTime : Z) : fieldStore :=
  let idx := searchSStore h fs familyTime in
  match sStoreNodes fs !! idx with
  | None => fs                                     (* familyTime greater than existed *)
  | Some p =>
      if bool_decide (familyTimeAt h p <> familyTime) then fs   (* not match *)
      else set_sStoreNodes fs (delete idx (sStoreNodes fs))
  end.

Definition insertSStore (h : heap) (fs : fieldStore) (sStore : loc) : fieldStore :=
  set_sStoreNodes fs (sort.Sort (Less h) (sStoreNodes fs ++ [sStore])).

(** [write]: returns the heap, the field store and the lines logged. *)
Definition write (h : heap) (fs : fieldStore) (f : pb_Field) (writeCtx : writeContext)
    : heap * fieldStore * list string :=
  let got := getSStore h fs (familyTime writeCtx) in
  match Field f with
  | pb_Field_Sum sum =>
      let '(h1, fs1, sStore) :=
        match got with
        | Some sStore => (h, fs, sStore)
        | None =>
            let sStore := length h in                (* a freshly allocated segment *)
            let h1 := h ++ [newSimpleFieldStore (familyTime writeCtx)
                              (field_GetAggFunc field_Sum)] in
            (h1, insertSStore h1 fs sStore, sStore)
        end in
      (alter (writeFloat sum writeCtx) sStore h1, fs1, [])
  | pb_Field_Other _ =>
      (h, fs, ["convert field error, unknown field type"%string])
  end.

(** [flushFieldTo]: returns the field store, the flusher, [flushed] and
    the lines logged.  The heap is only read. *)
Definition flushFieldTo (h : heap) (fs : fieldStore) (tableFlusher : TableFlusher)
    (familyTime : Z) : fieldStore * TableFlusher * bool * list string :=
  match getSStore h fs familyTime with
  | None => (fs, tableFlusher, false, [])
  | Some sStore =>
      let fs1 := removeSStore h fs familyTime in
      match h !! sStore with
      | None => (fs1, tableFlusher, false, [])       (* unreachable: dangling pointer *)
      | Some s =>
          match bytes s with
          | Err err =>
              (fs1, tableFlusher, false, ("read segment data error:" +:+ err)%string :: [])
          | Ok (data, startSlot, endSlot) =>
              (fs1, FlushField tableFlusher (fieldID fs) (fieldType fs) data startSlot endSlot,
               true, [])
          end
      end
  end.

(** One iteration of the loop of [timeRange]. *)
Definition timeRange_step (interval : Z) (acc : TimeRange * bool) (s : S)
    : TimeRange * bool :=
  let '(timeRange, ok) := acc in
  match slotRange s with
  | Err _ => (timeRange, ok)                         (* continue *)
  | Ok (startSlot, endSlot) =>
      let startTime := Int64.add (getFamilyTime s) (Int64.mul startSlot interval) in
      let endTime := Int64.add (getFamilyTime s) (Int64.mul endSlot interval) in
      let start' :=
        if bool_decide (Start timeRange = 0 \/ startTime < Start timeRange)
        then startTime else Start timeRange in
      let end' :=
        if bool_decide (End timeRange = 0 \/ End timeRange < endTime)
        then endTime else End timeRange in
      ({| Start := start'; End := end' |}, true)
  end.

(** The segments the node list points to, in list order. *)
Definition segments (h : heap) (fs : fieldStore) : list S :=
  omap (fun p => h !! p) (sStoreNodes fs).

Definition timeRange (h : heap) (fs : fieldStore) (interval : Z) : TimeRange * bool :=
  foldl (timeRange_step interval) ({| Start := 0; End := 0 |}, false) (segments h fs).

End FieldStore.

End memdb.

(** ** Package query: the tag search *)
Module query.

(** [stmt.BinaryOP].  The resolver compares the operator with [stmt.AND]
    and [stmt.OR] and prints any other one with [stmt.BinaryOPString];
    such an operator is represented by the name that function prints.
    The resolver never prints AND and OR. *)
Inductive BinaryOP :=
| AND
| OR
| OtherOP (name : string).

Definition BinaryOPString (op : BinaryOP) : string :=
  match op with
  | AND => "and"
  | OR => "or"
  | OtherOP name => name
  end.

(** Modelled from the spec: a leaf tag filter is a "tag key + comparison
    semantics", recorded under its "canonical rewritten string".
    [stmt.TagFilter] is this interface, through the two methods the
    resolver calls on it. *)
Record TagFilter := { TagKey : string; Rewrite : string }.

(** [stmt.Expr] as the type switch of [findTagValueIDsByExpr] sees it. *)
Inductive Expr :=
| NilExpr                                              (* expr == nil *)
| TagFilterExpr (f : TagFilter)
| ParenExpr (e : Expr)
| NotExpr (e : Expr)
| BinaryExpr (Left : Expr) (Operator : BinaryOP) (Right : Expr)
| OtherExpr (text : string).                           (* no case of the switch *)

(** [*roaring.Bitmap]: a set of identifiers. *)
Definition Bitmap := gset N.
Definition IsEmpty (b : Bitmap) : bool := bool_decide (b = ∅).

Record tagFilterResult := { tagKey : N; tagValueIDs : Bitmap }.

(** Modelled from the spec: the tag metadata store,
    "GetTagKeyID(namespace, metricName, tagKeyName) -> id, error", and the
    tag index, "FindTagValueIDsByExpr(tagKeyID, leafExpr) -> bitmapSet,
    error".  [metadb.Metadata] gives the resolver these two lookups, as
    [MetadataDatabase().GetTagKeyID] and
    [TagMetadata().FindTagValueDsByExpr] (the bitmap may be nil). *)
Record Metadata := {
  GetTagKeyID : string -> string -> string -> result N;
  FindTagValueDsByExpr : N -> TagFilter -> result (option Bitmap);
}.

(** The calls made on the metadata, recorded in call order. *)
Inductive MetadataCall :=
| CallGetTagKeyID (namespace metricName tagKey : string)
| CallFindTagValueDsByExpr (tagKeyID : N) (f : TagFilter).

Record tagSearch := {
  namespace : string;
  metricName : string;
  condition : Expr;
  metadata : Metadata;
  result_ : gmap string tagFilterResult;               (* field [result] *)
  tags : gmap string N;                                (* for cache tag key *)
  err : option error;
  calls : list MetadataCall;                           (* instrumentation, not a field *)
}.

Definition newTagSearch (namespace metricName : string) (condition : Expr)
    (metadata : Metadata) : tagSearch :=
  {| namespace := namespace; metricName := metricName; condition := condition;
     metadata := metadata; result_ := ∅; tags := ∅; err := None; calls := [] |}.

Definition set_err (s : tagSearch) (e : error) : tagSearch :=
  {| namespace := namespace s; metricName := metricName s; condition := condition s;
     metadata := metadata s; result_ := result_ s; tags := tags s; err := Some e;
     calls := calls s |}.

Definition set_result (s : tagSearch) (r : gmap string tagFilterResult) : tagSearch :=
  {| namespace := namespace s; metricName := metricName s; condition := condition s;
     metadata := metadata s; result_ := r; tags := tags s; err := err s;
     calls := calls s |}.

Definition set_tags (s : tagSearch) (t : gmap string N) : tagSearch :=
  {| namespace := namespace s; metricName := metricName s; condition := condition s;
     metadata := metadata s; result_ := result_ s; tags := t; err := err s;
     calls := calls s |}.

Definition record_call (s : tagSearch) (c : MetadataCall) : tagSearch :=
  {| namespace := namespace s; metricName := metricName s; condition := condition s;
     metadata := metadata s; result_ := result_ s; tags := tags s; err := err s;
     calls := calls s ++ [c] |}.

(** [getTagKeyID]: the cached identifier, else the metadata lookup. *)
Definition getTagKeyID (s : tagSearch) (tagKey : string) : tagSearch * result N :=
  match tags s !! tagKey with
  | Some tagKeyID => (s, Ok tagKeyID)
  | None =>
      let s1 := record_call s (CallGetTagKeyID (namespace s) (metricName s) tagKey) in
      match GetTagKeyID (metadata s) (namespace s) (metricName s) tagKey with
      | Err e => (s1, Err e)
      | Ok tagKeyID => (set_tags s1 (<[tagKey := tagKeyID]> (tags s1)), Ok tagKeyID)
      end
  end.

(** The [stmt.TagFilter] case of the switch. *)
Definition findTagValueIDsByTagFilter (s : tagSearch) (expr : TagFilter) : tagSearch :=
  match getTagKeyID s (TagKey expr) with
  | (s1, Err e) => set_err s1 e
  | (s1, Ok tagKeyID) =>
      let s2 := record_call s1 (CallFindTagValueDsByExpr tagKeyID expr) in
      match FindTagValueDsByExpr (metadata s) tagKeyID expr with
      | Err e => set_err s2 e
      | Ok tagValueIDs =>
          match tagValueIDs with
          | Some ids =>
              if negb (IsEmpty ids) then
                (* save atomic tag filter result *)
                set_result s2 (<[Rewrite expr :=
                                   {| tagKey := tagKeyID; tagValueIDs := ids |}]> (result_ s2))
              else s2
          | None => s2
          end
      end
  end.

Fixpoint findTagValueIDsByExpr (s : tagSearch) (expr : Expr) : tagSearch :=
  match expr with
  | NilExpr => s
  | _ =>
      match err s with
      | Some _ => s
      | None =>
          match expr with
          | NilExpr => s
          | TagFilterExpr f => findTagValueIDsByTagFilter s f
          | ParenExpr e => findTagValueIDsByExpr s e
          | NotExpr e =>
              (* find tag value id by expr => (not tag filter) => tag filter *)
              findTagValueIDsByExpr s e
          | BinaryExpr l op r =>
              match op with
              | AND | OR =>
                  findTagValueIDsByExpr (findTagValueIDsByExpr s l) r
              | OtherOP _ =>
                  set_err s ("wrong binary operator in tag filter: " +:+ BinaryOPString op)
              end
          | OtherExpr _ => s
          end
      end
  end.

(** [Filter]: the resolver after the call, and the pair it returns. *)
Definition Filter (s : tagSearch)
    : tagSearch * (option (gmap string tagFilterResult) * option error) :=
  let s1 := findTagValueIDsByExpr s (condition s) in
  match err s1 with
  | Some e => (s1, (None, Some e))
  | None => (s1, (Some (result_ s1), None))
  end.

End query.

(** ** Package parallel: the job manager *)
Module parallel.

(** Modelled from the spec: [models.PhysicalPlan], declared outside
    job_manager.go, is "a tree with a root, zero or more intermediate-tier
    nodes, and zero or more leaf-tier nodes, each node carrying a routing
    indicator (node address) and an expected task count".  The job manager
    reads [Root.NumOfTask], [Intermediates], [Leafs] and the nodes'
    [Indicator]. *)
Record Root := { Root_Indicator : string; Root_NumOfTask : Z }.
Record Intermediate := { Intermediate_Indicator : string; Intermediate_NumOfTask : Z }.
Record Leaf := { Leaf_Indicator : string; Leaf_ShardIDs : list Z }.
Record PhysicalPlan := {
  Database : string;
  Root_ : Root;                                        (* field [Root] *)
  Intermediates : list Intermediate;
  Leafs : list Leaf;
}.

(** Modelled from the spec: "the originating query (interval, time
    range, field names)" is [stmt.Query], through the fields [SubmitJob]
    reads; the suggestion request of a metadata query is [stmt.Metadata]. *)
Record stmt_Query := {
  Interval : Z;
  TimeRange : Z * Z;
  FieldNames : list string;
}.
Record stmt_Metadata := { MetadataType : string; MetadataPrefix : string }.

(** [encoding.JSONMarshal]: a payload is represented by the value it
    encodes. *)
Inductive payload :=
| JSON_PhysicalPlan (plan : PhysicalPlan)
| JSON_Query (query : stmt_Query)
| JSON_Metadata (suggest : stmt_Metadata).

(** [pb.TaskRequest], with the fields the two struct literals of
    job_manager.go set; [RequestType_Data] is the zero value of the request
    type, which [SubmitJob] leaves unset. *)
Inductive RequestType := RequestType_Data | RequestType_Metadata.
Record TaskRequest := {
  JobID : Z;
  RequestType_ : RequestType;
  ParentTaskID : string;
  PhysicalPlan_ : payload;
  Payload : payload;
}.

(** [aggregation.AggregatorSpec] and the grouping aggregator. *)
Inductive AggregatorSpec := NewAggregatorSpec (fieldName : string).
Inductive GroupingAggregator :=
| NewGroupingAggregator (interval : Z) (timeRange : Z * Z) (aggSpecs : list AggregatorSpec).

(** [context.Context] values of the standard library: their method set
    is Deadline, Done, Err and Value. *)
Inductive context_Context :=
| context_Background
| context_WithCancel (parent : context_Context).

(** A channel is named by an identifier. *)
Definition chan := nat.

(** Modelled from the spec: "a job context exposing the execution plan,
    the originating query, a result channel, and a cancellation-bearing
    execution context".  [JobContext] is this interface, through the
    methods [Plan], [Query], [ResultSet] and [Context] that [SubmitJob]
    calls. *)
Record JobContext := {
  Plan : PhysicalPlan;
  Query : stmt_Query;
  ResultSet : chan;
  Context : context_Context;
}.

(** The result sinks built for the root task. *)
Inductive ResultMerger :=
| newResultMerger (ctx : context_Context) (groupAgg : GroupingAggregator) (resultSet : chan)
| newSuggestResultMerger (resultSet : chan).

Inductive TaskType := RootTask | IntermediateTask | LeafTask.

Record TaskContext := {
  taskID : string;
  taskType : TaskType;
  parentTaskID : string;
  parentNode : string;
  expectResults : Z;
  merger : ResultMerger;
}.

Definition newTaskContext (taskID : string) (taskType : TaskType)
    (parentTaskID parentNode : string) (expectResults : Z) (merger : ResultMerger)
    : TaskContext :=
  {| taskID := taskID; taskType := taskType; parentTaskID := parentTaskID;
     parentNode := parentNode; expectResults := expectResults; merger := merger |}.

(** Modelled from the spec: the task transport, "AllocTaskID() -> taskID;
    Submit(taskContext); SendRequest(nodeIndicator, taskRequest) -> error".
    [TaskManager] is this interface, over the state [TM] of an
    implementation. *)
Class TaskManager (TM : Type) := {
  AllocTaskID : TM -> string * TM;
  Submit : TaskContext -> TM -> TM;
  SendRequest : string -> TaskRequest -> TM -> option error * TM;
}.

(** The values kept in the [sync.Map]: an [interface{}] holding either a
    value that implements [JobContext] or a plain [context.Context]. *)
Inductive any :=
| any_JobContext (ctx : JobContext)
| any_Context (ctx : context_Context).

(** The type assertion [job.(JobContext)]. *)
Definition assert_JobContext (job : any) : option JobContext :=
  match job with
  | any_JobContext ctx => Some ctx
  | any_Context _ => None
  end.

(** One [SendRequest] call: the node addressed and the request sent. *)
Definition SendCall : Type := string * TaskRequest.

Section JobManager.
Context {TM : Type} `{TaskManager TM}.

Record jobManager := {
  taskManager : TM;
  seq : Z;
  jobs : gmap Z any;
}.

Definition NewJobManager (taskManger : TM) : jobManager :=
  {| taskManager := taskManger; seq := 0; jobs := ∅ |}.

(** [GetJob]: [None] is the nil job context. *)
Definition GetJob (j : jobManager) (jobID : Z) : option JobContext :=
  match jobs j !! jobID with
  | None => None
  | Some job =>
      match assert_JobContext job with
      | None => None
      | Some jobCtx => Some jobCtx
      end
  end.

(** [buildAggregatorSpecs] *)
Definition buildAggregatorSpecs (fieldNames : list string) : list AggregatorSpec :=
  map NewAggregatorSpec fieldNames.

(** The loop
      [for _, node := range nodes { if err = SendRequest(node.Indicator, req); err != nil { return err } }]
    over the indicators of a tier: the error, the task manager and the
    calls made. *)
Fixpoint sendRequests (tm : TM) (indicators : list string) (req : TaskRequest)
    : option error * TM * list SendCall :=
  match indicators with
  | [] => (None, tm, [])
  | indicator :: rest =>
      match SendRequest indicator req tm with
      | (Some err, tm1) => (Some err, tm1, [(indicator, req)])
      | (None, tm1) =>
          let '(err, tm2, sent) := sendRequests tm1 rest req in
          (err, tm2, (indicator, req) :: sent)
      end
  end.

(** [j.seq.Inc()] *)
Definition seq_Inc (j : jobManager) : Z := Int64.add (seq j) 1.

(** The deferred [if err == nil { j.jobs.Store(jobID, ctx) }]. *)
Definition deferred_Store (j : jobManager) (err : option error) (jobID : Z) (ctx : any)
    : gmap Z any :=
  match err with
  | None => <[jobID := ctx]> (jobs j)
  | Some _ => jobs j
  end.

(** [SubmitJob]: the job manager after the call, the error returned
    and the [SendRequest] calls made, in order. *)
Definition SubmitJob (j : jobManager) (ctx : JobContext)
    : jobManager * option error * list SendCall :=
  let plan := Plan ctx in
  let planPayload := JSON_PhysicalPlan plan in
  let jobID := seq_Inc j in
  let '(taskID, tm1) := AllocTaskID (taskManager j) in
  let req := {| JobID := jobID;
                RequestType_ := RequestType_Data;
                ParentTaskID := taskID;
                PhysicalPlan_ := planPayload;
                Payload := JSON_Query (Query ctx) |} in
  let query := Query ctx in
  let groupAgg := NewGroupingAggregator (Interval query) (TimeRange query)
                    (buildAggregatorSpecs (FieldNames query)) in
  let taskCtx := newTaskContext taskID RootTask EmptyString EmptyString
                   (Root_NumOfTask (Root_ plan))
                   (newResultMerger (Context ctx) groupAgg (ResultSet ctx)) in
  let tm2 := Submit taskCtx tm1 in
  let '(err, tm3, sent) :=
    if (0 <? length (Intermediates plan))%nat then
      sendRequests tm2 (map Intermediate_Indicator (Intermediates plan)) req
    else if (0 <? length (Leafs plan))%nat then
      sendRequests tm2 (map Leaf_Indicator (Leafs plan)) req
    else (None, tm2, []) in
  ({| taskManager := tm3; seq := jobID;
      jobs := deferred_Store j err jobID (any_JobContext ctx) |}, err, sent).

(** [SubmitMetadataJob]: the value stored by the deferred function is
    the [context.Context] argument. *)
Definition SubmitMetadataJob (j : jobManager) (ctx : context_Context)
    (plan : PhysicalPlan) (suggest : stmt_Metadata) (resultSet : chan)
    : jobManager * option error * list SendCall :=
  let planPayload := JSON_PhysicalPlan plan in
  let jobID := seq_Inc j in
  let '(taskID, tm1) := AllocTaskID (taskManager j) in
  let req := {| JobID := jobID;
                RequestType_ := RequestType_Metadata;
                ParentTaskID := taskID;
                PhysicalPlan_ := planPayload;
                Payload := JSON_Metadata suggest |} in
  let taskCtx := newTaskContext taskID RootTask EmptyString EmptyString
                   (Root_NumOfTask (Root_ plan)) (newSuggestResultMerger resultSet) in
  let tm2 := Submit taskCtx tm1 in
  let '(err, tm3, sent) :=
    if (0 <? length (Leafs plan))%nat then
      sendRequests tm2 (map Leaf_Indicator (Leafs plan)) req
    else (None, tm2, []) in
  ({| taskManager := tm3; seq := jobID;
      jobs := deferred_Store j err jobID (any_Context ctx) |}, err, sent).

(** Names for three values of a [SubmitJob] call: the request it
    builds, the task manager when the fan-out starts, and the tier the
    fan-out ranges over. *)
Definition SubmitJob_request (j : jobManager) (ctx : JobContext) : TaskRequest :=
  {| JobID := seq_Inc j;
     RequestType_ := RequestType_Data;
     ParentTaskID := fst (AllocTaskID (taskManager j));
     PhysicalPlan_ := JSON_PhysicalPlan (Plan ctx);
     Payload := JSON_Query (Query ctx) |}.

Definition SubmitJob_fanout (j : jobManager) (ctx : JobContext) : TM :=
  let taskID := fst (AllocTaskID (taskManager j)) in
  let tm1 := snd (AllocTaskID (taskManager j)) in
  Submit (newTaskContext taskID RootTask EmptyString EmptyString
            (Root_NumOfTask (Root_ (Plan ctx)))
            (newResultMerger (Context ctx)
               (NewGroupingAggregator (Interval (Query ctx)) (TimeRange (Query ctx))
                  (buildAggregatorSpecs (FieldNames (Query ctx))))
               (ResultSet ctx))) tm1.

Definition selected_tier (plan : PhysicalPlan) : list string :=
  match Intermediates plan with
  | _ :: _ => map Intermediate_Indicator (Intermediates plan)
  | [] => map Leaf_Indicator (Leafs plan)
  end.

Definition GetTaskManager (j : jobManager) : TM := taskManager j.

(** A submission call, and a sequence of them on one job manager: the
    job manager after the calls and, per call, the job identifier it
    allocated and the error it returned. *)
Inductive submission :=
| call_SubmitJob (ctx : JobContext)
| call_SubmitMetadataJob (ctx : context_Context) (plan : PhysicalPlan)
    (suggest : stmt_Metadata) (resultSet : chan).

Definition submit (j : jobManager) (c : submission)
    : jobManager * option error * list SendCall :=
  match c with
  | call_SubmitJob ctx => SubmitJob j ctx
  | call_SubmitMetadataJob ctx plan suggest resultSet =>
      SubmitMetadataJob j ctx plan suggest resultSet
  end.

Fixpoint submit_all (j : jobManager) (cs : list submission)
    : jobManager * list (Z * option error) :=
  match cs with
  | [] => (j, [])
  | c :: cs' =>
      let '(j1, err, _) := submit j c in
      let '(j2, log) := submit_all j1 cs' in
      (j2, (seq j1, err) :: log)
  end.

Definition allocated_ids (j : jobManager) (cs : list submission) : list Z :=
  map fst (snd (submit_all j cs)).

End JobManager.

End parallel.

(** ** Vocabulary of the statements *)

Module memdb_spec.
Import memdb.

Section FieldStore.
Context {S : Type} `{sStoreINTF S}.
Local Abbreviation heap := (list S).

(** The family times of the buffered segments, in list order. *)
Definition familyTimes (h : heap) (fs : fieldStore) : list Z :=
  map (familyTimeAt h) (sStoreNodes fs).

(** The invariant of a field store: it points to allocated segments,
    and their family times are strictly ascending (sorted, and no
    family time twice). *)
Definition sorted_unique (h : heap) (fs : fieldStore) : Prop :=
  Forall (fun p => (p < length h)%nat) (sStoreNodes fs) /\
  StronglySorted Z.lt (familyTimes h fs).

(** The segment buffered for a family time, found by a scan. *)
Definition segmentOf (h : heap) (fs : fieldStore) (familyTime : Z) : option (nat * S) :=
  list_find (fun s => getFamilyTime s = familyTime) (segments h fs).

(** The operations of a field store, and a run of them. *)
Inductive operation :=
| op_write (f : pb_Field) (writeCtx : writeContext)
| op_flushFieldTo (familyTime : Z).

Definition apply (st : heap * fieldStore * TableFlusher) (o : operation)
    : heap * fieldStore * TableFlusher :=
  let '(h, fs, tf) := st in
  match o with
  | op_write f writeCtx =>
      let '(h1, fs1, _) := write h fs f writeCtx in (h1, fs1, tf)
  | op_flushFieldTo familyTime =>
      let '(fs1, tf1, _, _) := flushFieldTo h fs tf familyTime in (h, fs1, tf1)
  end.

Definition run (st : heap * fieldStore * TableFlusher) (os : list operation)
    : heap * fieldStore * TableFlusher :=
  foldl apply st os.

(** What a segment contributes to [timeRange]: its start and end time,
    in 64-bit arithmetic, when its slot range is known. *)
Definition contribution (interval : Z) (s : S) : option (Z * Z) :=
  match slotRange s with
  | Err _ => None
  | Ok (startSlot, endSlot) =>
      Some (Int64.add (getFamilyTime s) (Int64.mul startSlot interval),
            Int64.add (getFamilyTime s) (Int64.mul endSlot interval))
  end.

(** The loop body of [timeRange] on a contribution. *)
Definition accumulate (acc : TimeRange * bool) (c : Z * Z) : TimeRange * bool :=
  ({| Start := if bool_decide (Start acc.1 = 0 \/ c.1 < Start acc.1) then c.1
               else Start acc.1;
      End := if bool_decide (End acc.1 = 0 \/ End acc.1 < c.2) then c.2
             else End acc.1 |}, true).

Definition contributions (interval : Z) (h : heap) (fs : fieldStore) : list (Z * Z) :=
  omap (contribution interval) (segments h fs).

End FieldStore.

(** A segment store that keeps the points written to it: the slot range
    spans the slots written, and an empty segment cannot be serialised. *)
Record pointsStore := {
  ps_familyTime : Z;
  ps_aggFunc : field_AggFunc;
  ps_points : list (Z * float64);
}.

Definition ps_slotRange (s : pointsStore) : result (Z * Z) :=
  match ps_points s with
  | [] => Err "no data"%string
  | (slot, _) :: rest =>
      Ok (foldr Z.min slot (map fst rest), foldr Z.max slot (map fst rest))
  end.

#[export] Instance pointsStore_sStoreINTF : sStoreINTF pointsStore := {|
  getFamilyTime := ps_familyTime;
  writeFloat v c s :=
    {| ps_familyTime := ps_familyTime s; ps_aggFunc := ps_aggFunc s;
       ps_points := ps_points s ++ [(slotIndex c, v)] |};
  bytes s :=
    match ps_slotRange s with
    | Err e => Err e
    | Ok (startSlot, endSlot) => Ok (map snd (ps_points s), startSlot, endSlot)
    end;
  slotRange := ps_slotRange;
  newSimpleFieldStore t f := {| ps_familyTime := t; ps_aggFunc := f; ps_points := [] |};
|}.

#[export] Instance pointsStore_contract : sStoreContract pointsStore.
Proof. split; reflexivity. Qed.

(** Sample inputs: writes of sums, a field store that has buffered two
    hours of points, one whose first hour starts at time 0, and one that
    holds a segment without points. *)
Definition sum (v : float64) : pb_Field := {| Name := "f1"; Field := pb_Field_Sum v |}.
Definition at_slot (t slot : Z) : writeContext := {| familyTime := t; slotIndex := slot |}.

Definition two_hours : list pointsStore * fieldStore * TableFlusher :=
  run ([], newFieldStore "f1" 7 field_Sum, [])
    [op_write (sum 1) (at_slot 7200000 2); op_write (sum 2) (at_slot 3600000 0);
     op_write (sum 3) (at_slot 3600000 5); op_write (sum 4) (at_slot 7200000 3)].

Definition from_epoch : list pointsStore * fieldStore * TableFlusher :=
  run ([], newFieldStore "f1" 7 field_Sum, [])
    [op_write (sum 1) (at_slot 3600000 0); op_write (sum 2) (at_slot 0 0);
     op_write (sum 3) (at_slot 0 5); op_write (sum 4) (at_slot 3600000 5)].

Definition with_empty_segment : list pointsStore * fieldStore :=
  ([ {| ps_familyTime := 10; ps_aggFunc := AggFuncOf field_Sum; ps_points := [(1, 5)] |};
     {| ps_familyTime := 20; ps_aggFunc := AggFuncOf field_Sum; ps_points := [] |} ],
   {| fieldName := "f1"; fieldType := field_Sum; fieldID := 7;
      sStoreNodes := [0%nat; 1%nat] |}).

End memdb_spec.

Module query_spec.
Import query.

(** The leaf filters of an expression, in the order of the depth-first
    traversal. *)
Fixpoint leaves (expr : Expr) : list TagFilter :=
  match expr with
  | TagFilterExpr f => [f]
  | ParenExpr e | NotExpr e => leaves e
  | BinaryExpr l _ r => leaves l ++ leaves r
  | NilExpr | OtherExpr _ => []
  end.

(** The expressions built from leaf filters with parentheses, NOT, AND
    and OR. *)
Fixpoint tag_filter_tree (expr : Expr) : Prop :=
  match expr with
  | TagFilterExpr _ => True
  | ParenExpr e | NotExpr e => tag_filter_tree e
  | BinaryExpr l (AND | OR) r => tag_filter_tree l /\ tag_filter_tree r
  | BinaryExpr _ (OtherOP _) _ | NilExpr | OtherExpr _ => False
  end.

(** The positive match of a leaf on its own: its tag key identifier and
    the identifiers the index returns for it, when there are some. *)
Definition leaf_match (md : Metadata) (namespace metricName : string) (f : TagFilter)
    : option tagFilterResult :=
  match GetTagKeyID md namespace metricName (TagKey f) with
  | Err _ => None
  | Ok tagKeyID =>
      match FindTagValueDsByExpr md tagKeyID f with
      | Ok (Some ids) =>
          if IsEmpty ids then None else Some {| tagKey := tagKeyID; tagValueIDs := ids |}
      | Ok None | Err _ => None
      end
  end.

(** Recording the match of one leaf under its rewritten form. *)
Definition harvest (md : Metadata) (namespace metricName : string)
    (m : gmap string tagFilterResult) (f : TagFilter) : gmap string tagFilterResult :=
  match leaf_match md namespace metricName f with
  | Some r => <[Rewrite f := r]> m
  | None => m
  end.

(** Both lookups of a leaf succeed (whatever the match is). *)
Definition leaf_resolves (md : Metadata) (namespace metricName : string) (f : TagFilter)
    : Prop :=
  exists tagKeyID ids,
    GetTagKeyID md namespace metricName (TagKey f) = Ok tagKeyID /\
    FindTagValueDsByExpr md tagKeyID f = Ok ids.

(** The resolver's namespace, metric name and metadata are those of [s]. *)
Definition same_target (s s' : tagSearch) : Prop :=
  namespace s' = namespace s /\ metricName s' = metricName s /\ metadata s' = metadata s.

(** The tag key cache holds identifiers the metadata gave. *)
Definition cache_sound (s : tagSearch) : Prop :=
  forall key id, tags s !! key = Some id ->
    GetTagKeyID (metadata s) (namespace s) (metricName s) key = Ok id.

(** The error the spec's policy names for a condition: "the first error
    encountered anywhere in the traversal (unknown tag key, index lookup
    failure, invalid operator)", the traversal being depth first: the
    operator of a binary node before its operands, the left operand before
    the right one, and the operand of a NOT or of parentheses in their
    place.  It is defined on the tree and the metadata alone. *)
Fixpoint first_error (md : Metadata) (namespace metricName : string) (expr : Expr)
    : option error :=
  match expr with
  | NilExpr | OtherExpr _ => None
  | TagFilterExpr f =>
      match GetTagKeyID md namespace metricName (TagKey f) with
      | Err e => Some e
      | Ok tagKeyID =>
          match FindTagValueDsByExpr md tagKeyID f with
          | Err e => Some e
          | Ok _ => None
          end
      end
  | ParenExpr e | NotExpr e => first_error md namespace metricName e
  | BinaryExpr l op r =>
      match op with
      | AND | OR =>
          match first_error md namespace metricName l with
          | Some e => Some e
          | None => first_error md namespace metricName r
          end
      | OtherOP _ =>
          Some ("wrong binary operator in tag filter: " +:+ BinaryOPString op)
      end
  end.

(** Conditions with an error under a NOT, in a right operand, and under
    parentheses in a right operand. *)
Definition not_xor_condition : Expr :=
  NotExpr (BinaryExpr (TagFilterExpr {| TagKey := "host"; Rewrite := "host=a" |})
             (OtherOP "xor")
             (TagFilterExpr {| TagKey := "host"; Rewrite := "host=b" |})).

Definition right_xor_condition : Expr :=
  BinaryExpr (TagFilterExpr {| TagKey := "host"; Rewrite := "host=a" |}) AND
    (BinaryExpr (TagFilterExpr {| TagKey := "host"; Rewrite := "host=a" |})
       (OtherOP "xor")
       (TagFilterExpr {| TagKey := "host"; Rewrite := "host=b" |})).

Definition right_rack_condition : Expr :=
  BinaryExpr (TagFilterExpr {| TagKey := "zone"; Rewrite := "zone=z" |}) OR
    (ParenExpr (NotExpr (TagFilterExpr {| TagKey := "rack"; Rewrite := "rack=r1" |}))).

(** A sample index: two tag keys, and the values of four filters. *)
Definition sample_metadata : Metadata := {|
  GetTagKeyID _ _ key :=
    if String.eqb key "host" then Ok 1%N
    else if String.eqb key "zone" then Ok 2%N
    else Err "tag key not found";
  FindTagValueDsByExpr _ f :=
    if String.eqb (Rewrite f) "host=a" then Ok (Some {[ 1%N; 2%N ]})
    else if String.eqb (Rewrite f) "host=b" then Ok (Some {[ 3%N ]})
    else if String.eqb (Rewrite f) "zone=z" then Ok (Some {[ 7%N ]})
    else if String.eqb (Rewrite f) "zone=none" then Ok (Some ∅)
    else Err "index lookup failed";
|}.

Definition host_a : Expr := TagFilterExpr {| TagKey := "host"; Rewrite := "host=a" |}.
Definition host_b : Expr := TagFilterExpr {| TagKey := "host"; Rewrite := "host=b" |}.
Definition zone_z : Expr := TagFilterExpr {| TagKey := "zone"; Rewrite := "zone=z" |}.
Definition zone_none : Expr := TagFilterExpr {| TagKey := "zone"; Rewrite := "zone=none" |}.

(** [host=a AND (host=b OR NOT zone=z)] *)
Definition sample_condition : Expr :=
  BinaryExpr host_a AND (ParenExpr (BinaryExpr host_b OR (NotExpr zone_z))).

(** [(host=a XOR host=b) AND zone=z] *)
Definition xor_condition : Expr :=
  BinaryExpr (ParenExpr (BinaryExpr host_a (OtherOP "xor") host_b)) AND zone_z.

End query_spec.

Module parallel_spec.
Import parallel.

(** A task manager for the sample runs: it numbers the tasks, keeps the
    task contexts submitted to it, and fails to reach the nodes listed in
    [unreachable]. *)
Record stubTaskManager := {
  allocated : nat;
  submitted : list TaskContext;
  unreachable : list string;
}.

#[export] Instance stubTaskManager_TaskManager : TaskManager stubTaskManager := {|
  AllocTaskID tm :=
    (pretty (allocated tm),
     {| allocated := S (allocated tm); submitted := submitted tm;
        unreachable := unreachable tm |});
  Submit taskCtx tm :=
    {| allocated := allocated tm; submitted := submitted tm ++ [taskCtx];
       unreachable := unreachable tm |};
  SendRequest indicator req tm :=
    (if bool_decide (indicator ∈ unreachable tm)
     then Some ("no route to " +:+ indicator)%string else None, tm);
|}.

Definition stub (unreachable : list string) : stubTaskManager :=
  {| allocated := 0; submitted := []; unreachable := unreachable |}.

(** Sample plans: three intermediate nodes over two leaves, leaves only,
    and no node at all. *)
Definition root : Root := {| Root_Indicator := "broker:9000"; Root_NumOfTask := 3 |}.

Definition tiered_plan : PhysicalPlan :=
  {| Database := "db"; Root_ := root;
     Intermediates :=
       [ {| Intermediate_Indicator := "mid-1"; Intermediate_NumOfTask := 1 |};
         {| Intermediate_Indicator := "mid-2"; Intermediate_NumOfTask := 1 |};
         {| Intermediate_Indicator := "mid-3"; Intermediate_NumOfTask := 1 |} ];
     Leafs := [ {| Leaf_Indicator := "leaf-1"; Leaf_ShardIDs := [1; 2] |};
                {| Leaf_Indicator := "leaf-2"; Leaf_ShardIDs := [3] |} ] |}.

Definition leaf_plan : PhysicalPlan :=
  {| Database := "db"; Root_ := root; Intermediates := [];
     Leafs := [ {| Leaf_Indicator := "leaf-1"; Leaf_ShardIDs := [1; 2] |};
                {| Leaf_Indicator := "leaf-2"; Leaf_ShardIDs := [3] |} ] |}.

Definition empty_plan : PhysicalPlan :=
  {| Database := "db"; Root_ := root; Intermediates := []; Leafs := [] |}.

Definition job_of (plan : PhysicalPlan) : JobContext :=
  {| Plan := plan;
     Query := {| Interval := 10000; TimeRange := (0, 3600000); FieldNames := ["f1"%string] |};
     ResultSet := 1%nat;
     Context := context_Background |}.

Definition suggest_hosts : stmt_Metadata :=
  {| MetadataType := "tagValue"; MetadataPrefix := "host" |}.

Section Registry.
Context {TM : Type}.

(** The registry holds jobs under identifiers the counter has passed,
    and the counter has room for another call. *)
Definition registry_below_counter (j : @jobManager TM) : Prop :=
  0 <= seq j < Int64.max_int /\
  forall id job, jobs j !! id = Some job -> 1 <= id <= seq j.

End Registry.

End parallel_spec.

Module memdb_runs.
Import memdb memdb_spec.

(** The number of sum writes among the operations of a run. *)
Fixpoint sum_writes (os : list operation) : nat :=
  match os with
  | [] => 0
  | op_write {| Field := pb_Field_Sum _ |} _ :: os' => Datatypes.S (sum_writes os')
  | _ :: os' => sum_writes os'
  end.

End memdb_runs.

Module query_trace.
Import query.

(** The tag keys asked of the metadata store, and the index lookups, in
    call order. *)
Definition looked_up (cs : list MetadataCall) : list string :=
  omap (fun c => match c with
                 | CallGetTagKeyID _ _ key => Some key
                 | CallFindTagValueDsByExpr _ _ => None
                 end) cs.

Definition index_lookups (cs : list MetadataCall) : list (N * TagFilter) :=
  omap (fun c => match c with
                 | CallGetTagKeyID _ _ _ => None
                 | CallFindTagValueDsByExpr id f => Some (id, f)
                 end) cs.

(** The index lookup made for a leaf: the identifier the metadata store
    gives for its tag key, and the leaf. *)
Definition index_lookup_of (md : Metadata) (namespace metricName : string) (f : TagFilter)
    : option (N * TagFilter) :=
  match GetTagKeyID md namespace metricName (TagKey f) with
  | Ok tagKeyID => Some (tagKeyID, f)
  | Err _ => None
  end.

(** Every tag key asked of the metadata store was asked once, and while
    no error is latched it is in the cache. *)
Definition asked_once (s : tagSearch) : Prop :=
  NoDup (looked_up (calls s)) /\
  (err s = None -> forall key, key ∈ looked_up (calls s) -> is_Some (tags s !! key)).

End query_trace.

Module parallel_loops.
Import parallel.

(** [buildAggregatorSpecs] as the loop writes it: a slice of
    [len(fieldNames)] nil specs, whose element [idx] is set for each index
    and name of the range. *)
Definition buildAggregatorSpecs_loop (fieldNames : list string)
    : list (option AggregatorSpec) :=
  foldl (fun aggSpecs '(idx, fieldName) =>
           <[idx := Some (NewAggregatorSpec fieldName)]> aggSpecs)
    (replicate (length fieldNames) None)
    (imap (fun idx fieldName => (idx, fieldName)) fieldNames).

End parallel_loops.

Module parallel_trace.
Import parallel.

Section JobManager.
Context {TM : Type} `{TaskManager TM}.

(** Names for two values of a [SubmitMetadataJob] call: the request it
    builds and the task manager when the fan-out starts. *)
Definition SubmitMetadataJob_request (j : @jobManager TM) (plan : PhysicalPlan)
    (suggest : stmt_Metadata) : TaskRequest :=
  {| JobID := seq_Inc j;
     RequestType_ := RequestType_Metadata;
     ParentTaskID := fst (AllocTaskID (taskManager j));
     PhysicalPlan_ := JSON_PhysicalPlan plan;
     Payload := JSON_Metadata suggest |}.

Definition SubmitMetadataJob_fanout (j : @jobManager TM) (plan : PhysicalPlan)
    (resultSet : chan) : TM :=
  let taskID := fst (AllocTaskID (taskManager j)) in
  let tm1 := snd (AllocTaskID (taskManager j)) in
  Submit (newTaskContext taskID RootTask EmptyString EmptyString
            (Root_NumOfTask (Root_ plan)) (newSuggestResultMerger resultSet)) tm1.

End JobManager.

(** The plan a submission works on, and the value its deferred function
    stores when it returns nil. *)
Definition plan_of (c : submission) : PhysicalPlan :=
  match c with
  | call_SubmitJob ctx => Plan ctx
  | call_SubmitMetadataJob _ plan _ _ => plan
  end.

Definition stored (c : submission) : any :=
  match c with
  | call_SubmitJob ctx => any_JobContext ctx
  | call_SubmitMetadataJob ctx _ _ _ => any_Context ctx
  end.

(** A task manager that keeps the calls made on it, in order.  The task
    identifier it allocates and the answer it gives to a request are
    functions of the calls made so far. *)
Inductive event :=
| ev_AllocTaskID (taskID : string)
| ev_Submit (taskCtx : TaskContext)
| ev_SendRequest (indicator : string) (req : TaskRequest) (err : option error).

Record recorder := {
  events : list event;
  next_taskID : list event -> string;
  reply : list event -> string -> TaskRequest -> option error;
}.

Definition record (ev : event) (tm : recorder) : recorder :=
  {| events := events tm ++ [ev]; next_taskID := next_taskID tm; reply := reply tm |}.

#[export] Instance recorder_TaskManager : TaskManager recorder := {|
  AllocTaskID tm :=
    (next_taskID tm (events tm), record (ev_AllocTaskID (next_taskID tm (events tm))) tm);
  Submit taskCtx tm := record (ev_Submit taskCtx) tm;
  SendRequest indicator req tm :=
    (reply tm (events tm) indicator req,
     record (ev_SendRequest indicator req (reply tm (events tm) indicator req)) tm);
|}.

(** The [SendRequest] events of a fan-out that made the calls [sent] and
    returned [err]: every call but the last was answered nil, the last one
    with [err]. *)
Fixpoint sends_of (sent : list SendCall) (err : option error) : list event :=
  match sent with
  | [] => []
  | [call] => [ev_SendRequest call.1 call.2 err]
  | call :: rest => ev_SendRequest call.1 call.2 None :: sends_of rest err
  end.

End parallel_trace.

(** * Properties *)

(** ** 64-bit arithmetic *)
Module Int64_facts.

Lemma wrap_small (z : Z) : Int64.min_int <= z <= Int64.max_int -> Int64.wrap z = z.
Proof.
  unfold Int64.wrap, Int64.min_int, Int64.max_int. intros Hz.
  rewrite Z.mod_small; lia.
Qed.

Lemma wrap_add_l (a b : Z) : Int64.wrap (Int64.wrap a + b) = Int64.wrap (a + b).
Proof.
  unfold Int64.wrap. f_equal.
  replace ((a + 2 ^ 63) mod 2 ^ 64 - 2 ^ 63 + b + 2 ^ 63)
    with ((a + 2 ^ 63) mod 2 ^ 64 + b) by lia.
  rewrite Zplus_mod_idemp_l. f_equal. lia.
Qed.

Lemma wrap_range (z : Z) : Int64.min_int <= Int64.wrap z <= Int64.max_int.
Proof.
  unfold Int64.wrap, Int64.min_int, Int64.max_int.
  pose proof (Z.mod_pos_bound (z + 2 ^ 63) (2 ^ 64) ltac:(lia)). lia.
Qed.

End Int64_facts.

(** ** sort.Search and sort.Sort *)
Module sort_facts.

Lemma search_loop_S (fuel : nat) (f : nat -> bool) (i j : nat) :
  sort.search_loop (S fuel) f i j =
    if (i <? j)%nat then
      if negb (f ((i + j) / 2)%nat)
      then sort.search_loop fuel f ((i + j) / 2 + 1)%nat j
      else sort.search_loop fuel f i ((i + j) / 2)%nat
    else i.
Proof. reflexivity. Qed.

Lemma search_loop_spec (f : nat -> bool) (n : nat) :
  (forall a b, (a <= b < n)%nat -> f a = true -> f b = true) ->
  forall fuel i j,
    (j - i <= fuel)%nat -> (i <= j <= n)%nat ->
    (forall k, (k < i)%nat -> f k = false) ->
    (forall k, (j <= k < n)%nat -> f k = true) ->
    (i <= sort.search_loop fuel f i j <= j)%nat /\
    (forall k, (k < sort.search_loop fuel f i j)%nat -> f k = false) /\
    (forall k, (sort.search_loop fuel f i j <= k < n)%nat -> f k = true).
Proof.
  intros Hmono fuel.
  induction fuel as [|fuel IH]; intros i j Hfuel Hij Hlo Hhi.
  - assert (i = j) by lia. subst. cbn. split; [lia|]. split; assumption.
  - rewrite search_loop_S.
    destruct (Nat.ltb_spec i j) as [Hlt|Hge].
    + pose proof (Nat.Div0.mul_div_le (i + j) 2) as Hd1.
      pose proof (Nat.mul_succ_div_gt (i + j) 2 ltac:(lia)) as Hd2.
      set (m := ((i + j) / 2)%nat) in *.
      destruct (f m) eqn:Hfm; cbn [negb].
      * destruct (IH i m) as (Hr & Hl & Hu); [lia | lia | assumption | .. ].
        { intros k Hk. destruct (decide (k = m)) as [->|]; [done|].
          apply (Hmono m k); [lia | done]. }
        split; [lia|]. split; assumption.
      * destruct (IH (m + 1)%nat j) as (Hr & Hl & Hu); [lia | lia | | assumption | ].
        { intros k Hk. destruct (f k) eqn:Hfk; [|done].
          rewrite (Hmono k m) in Hfm; [done | lia | done]. }
        split; [lia|]. split; assumption.
    + assert (i = j) by lia. subst. split; [lia|]. split; assumption.
Qed.

(** [sort.Search] returns the least index at which a monotone predicate
    holds, [n] when there is none. *)
Lemma Search_spec (f : nat -> bool) (n : nat) :
  (forall a b, (a <= b < n)%nat -> f a = true -> f b = true) ->
  (sort.Search n f <= n)%nat /\
  (forall k, (k < sort.Search n f)%nat -> f k = false) /\
  (forall k, (sort.Search n f <= k < n)%nat -> f k = true).
Proof.
  intros Hmono. unfold sort.Search.
  destruct (search_loop_spec f n Hmono n 0%nat n) as (Hr & Hl & Hu); try lia.
  repeat split; auto; lia.
Qed.

End sort_facts.

Module sort_Sort_facts.

Lemma StronglySorted_lookup {A : Type} (R : A -> A -> Prop) (l : list A) :
  StronglySorted R l ->
  forall i j a b, (i < j)%nat -> l !! i = Some a -> l !! j = Some b -> R a b.
Proof.
  induction 1 as [|x l Hl IH Hx]; intros i j a b Hij Hi Hj.
  - rewrite lookup_nil in Hi. discriminate.
  - destruct j as [|j]; [lia|]. cbn in Hj.
    destruct i as [|i]; cbn in Hi.
    + injection Hi as <-. rewrite Forall_forall in Hx.
      apply Hx, list_elem_of_lookup. eauto.
    + apply (IH i j); [lia | done | done].
Qed.

Lemma StronglySorted_lt_NoDup (l : list Z) : StronglySorted Z.lt l -> NoDup l.
Proof.
  induction 1 as [|x l Hl IH Hx]; constructor; [|done].
  intros Hin. rewrite Forall_forall in Hx.
  apply Hx in Hin. lia.
Qed.

Lemma StronglySorted_delete {A : Type} (R : A -> A -> Prop) (l : list A) (i : nat) :
  StronglySorted R l -> StronglySorted R (delete i l).
Proof.
  intros Hl. revert i.
  induction Hl as [|x l Hl IH Hx]; intros i.
  { destruct i; cbn; constructor. }
  destruct i as [|i]; cbn; [exact Hl|].
  constructor; [apply IH|].
  rewrite Forall_forall in Hx |- *. intros y Hy. apply Hx.
  eapply elem_of_sublist; [done | apply sublist_delete].
Qed.

Section Keyed.
Context {A : Type} (key : A -> Z).

Local Abbreviation less := (sort.less_by key).

Lemma insert_Permutation (x : A) (l : list A) : sort.insert less x l ≡ₚ x :: l.
Proof.
  induction l as [|y l IH]; cbn; [done|].
  destruct (less x y); [done|].
  rewrite IH. apply Permutation_swap.
Qed.

Lemma Sort_Permutation (l : list A) : sort.Sort less l ≡ₚ l.
Proof.
  induction l as [|x l IH]; cbn; [done|].
  rewrite insert_Permutation. by rewrite IH.
Qed.

Lemma insert_sorted (x : A) (l : list A) :
  StronglySorted Z.lt (map key l) ->
  key x ∉ map key l ->
  StronglySorted Z.lt (map key (sort.insert less x l)).
Proof.
  induction l as [|y l IH]; intros Hl Hx; cbn.
  - repeat constructor.
  - cbn in Hl. apply StronglySorted_inv in Hl as [Hl Hy].
    unfold less at 1. case_bool_decide as Hlt; cbn.
    + constructor; [by constructor|].
      constructor; [done|].
      eapply Forall_impl; [exact Hy|]. cbn. intros; lia.
    + assert (key y < key x).
      { cbn in Hx. apply not_elem_of_cons in Hx as [Hne _]. lia. }
      constructor.
      * apply IH; [done|]. cbn in Hx. by apply not_elem_of_cons in Hx as [_ ?].
      * rewrite Forall_forall. intros z Hz.
        rewrite (insert_Permutation x l) in Hz. cbn in Hz.
        apply elem_of_cons in Hz as [->|Hz]; [done|].
        rewrite Forall_forall in Hy. by apply Hy.
Qed.

(** Sorting a slice whose keys are pairwise distinct leaves them in
    strictly ascending order. *)
Lemma Sort_sorted (l : list A) :
  NoDup (map key l) -> StronglySorted Z.lt (map key (sort.Sort less l)).
Proof.
  induction l as [|x l IH]; cbn; intros Hnd; [constructor|].
  apply NoDup_cons in Hnd as [Hx Hnd].
  apply insert_sorted; [by apply IH|].
  by rewrite (Sort_Permutation l).
Qed.

(** Sorting a slice that is already in order changes nothing. *)
Lemma Sort_id (l : list A) :
  StronglySorted Z.lt (map key l) -> sort.Sort less l = l.
Proof.
  induction l as [|x l IH]; cbn; intros Hl; [done|].
  apply StronglySorted_inv in Hl as [Hl Hx].
  rewrite IH by done.
  destruct l as [|y l]; [done|]. cbn.
  apply Forall_inv in Hx. unfold less. by rewrite bool_decide_eq_true_2.
Qed.

End Keyed.

End sort_Sort_facts.

(** ** The field store *)
Module memdb_facts.
Import memdb memdb_spec.

Section FieldStore.
Context {S : Type} `{sStoreINTF S}.
Local Abbreviation heap := (list S).

Lemma familyTimes_lookup (h : heap) (fs : fieldStore) (k : nat) :
  familyTimes h fs !! k = familyTimeAt h <$> sStoreNodes fs !! k.
Proof. unfold familyTimes. apply list_lookup_fmap. Qed.

Lemma sorted_lookup (h : heap) (fs : fieldStore) (i j : nat) (p q : loc) :
  StronglySorted Z.lt (familyTimes h fs) ->
  (i < j)%nat -> sStoreNodes fs !! i = Some p -> sStoreNodes fs !! j = Some q ->
  familyTimeAt h p < familyTimeAt h q.
Proof.
  intros Hs Hij Hi Hj.
  apply (sort_Sort_facts.StronglySorted_lookup _ _ Hs i j); [done | |];
    rewrite familyTimes_lookup; [by rewrite Hi | by rewrite Hj].
Qed.

(** The binary search splits a sorted node list at the family time. *)
Lemma searchSStore_spec (h : heap) (fs : fieldStore) (familyTime : Z) :
  StronglySorted Z.lt (familyTimes h fs) ->
  (searchSStore h fs familyTime <= length (sStoreNodes fs))%nat /\
  (forall k p, (k < searchSStore h fs familyTime)%nat ->
               sStoreNodes fs !! k = Some p -> familyTimeAt h p < familyTime) /\
  (forall k p, (searchSStore h fs familyTime <= k)%nat ->
               sStoreNodes fs !! k = Some p -> familyTime <= familyTimeAt h p).
Proof.
  intros Hs. unfold searchSStore.
  set (f := fun i : nat => match sStoreNodes fs !! i with
                           | Some p => bool_decide (familyTimeAt h p >= familyTime)
                           | None => false
                           end).
  destruct (sort_facts.Search_spec f (length (sStoreNodes fs))) as (Hr & Hl & Hu).
  { intros a b Hab. unfold f.
    destruct (sStoreNodes fs !! a) as [pa|] eqn:Ha; [|done].
    destruct (lookup_lt_is_Some_2 (sStoreNodes fs) b) as [pb Hb]; [lia|].
    rewrite Hb. intros Hfa%bool_decide_eq_true. apply bool_decide_eq_true.
    destruct (decide (a = b)) as [->|Hne]; [congruence|].
    pose proof (sorted_lookup h fs a b pa pb Hs ltac:(lia) Ha Hb). lia. }
  split; [exact Hr|]. split.
  - intros k p Hk Hp. specialize (Hl k Hk). unfold f in Hl. rewrite Hp in Hl.
    apply bool_decide_eq_false in Hl. lia.
  - intros k p Hk Hp. pose proof (lookup_lt_Some _ _ _ Hp) as Hlen.
    specialize (Hu k ltac:(lia)). unfold f in Hu. rewrite Hp in Hu.
    apply bool_decide_eq_true in Hu. lia.
Qed.

Lemma searchSStore_found (h : heap) (fs : fieldStore) (i : nat) (p : loc) :
  StronglySorted Z.lt (familyTimes h fs) ->
  sStoreNodes fs !! i = Some p ->
  searchSStore h fs (familyTimeAt h p) = i.
Proof.
  intros Hs Hp.
  destruct (searchSStore_spec h fs (familyTimeAt h p) Hs) as (Hr & Hl & Hu).
  set (idx := searchSStore h fs (familyTimeAt h p)) in *.
  destruct (decide (i < idx)%nat) as [Hlt|Hge].
  { specialize (Hl i p Hlt Hp). lia. }
  destruct (decide (idx = i)) as [|Hne]; [done|].
  pose proof (lookup_lt_Some _ _ _ Hp) as Hlen.
  destruct (lookup_lt_is_Some_2 (sStoreNodes fs) idx) as [q Hq]; [lia|].
  specialize (Hu idx q ltac:(lia) Hq).
  pose proof (sorted_lookup h fs idx i q p Hs ltac:(lia) Hq Hp). lia.
Qed.

Lemma getSStore_found (h : heap) (fs : fieldStore) (i : nat) (p : loc) :
  StronglySorted Z.lt (familyTimes h fs) ->
  sStoreNodes fs !! i = Some p ->
  getSStore h fs (familyTimeAt h p) = Some p.
Proof.
  intros Hs Hp. unfold getSStore.
  rewrite (searchSStore_found h fs i p Hs Hp), Hp.
  by rewrite bool_decide_eq_false_2 by (intros Hne; by apply Hne).
Qed.

Lemma getSStore_Some (h : heap) (fs : fieldStore) (familyTime : Z) (p : loc) :
  getSStore h fs familyTime = Some p ->
  sStoreNodes fs !! searchSStore h fs familyTime = Some p /\
  familyTimeAt h p = familyTime.
Proof.
  unfold getSStore.
  destruct (sStoreNodes fs !! searchSStore h fs familyTime) as [q|]; [|done].
  case_bool_decide as Hq; [done|].
  intros [= ->]. split; [done|]. lia.
Qed.

Lemma getSStore_absent (h : heap) (fs : fieldStore) (familyTime : Z) :
  familyTime ∉ familyTimes h fs -> getSStore h fs familyTime = None.
Proof.
  intros Hnot. destruct (getSStore h fs familyTime) as [p|] eqn:Hg; [|done].
  apply getSStore_Some in Hg as [Hp <-]. exfalso. apply Hnot.
  apply list_elem_of_lookup. exists (searchSStore h fs (familyTimeAt h p)).
  by rewrite familyTimes_lookup, Hp.
Qed.

Lemma getSStore_None (h : heap) (fs : fieldStore) (familyTime : Z) :
  StronglySorted Z.lt (familyTimes h fs) ->
  getSStore h fs familyTime = None -> familyTime ∉ familyTimes h fs.
Proof.
  intros Hs Hg [k Hk]%list_elem_of_lookup.
  rewrite familyTimes_lookup in Hk.
  destruct (sStoreNodes fs !! k) as [p|] eqn:Hp; [|done].
  injection Hk as <-. by rewrite (getSStore_found h fs k p Hs Hp) in Hg.
Qed.

Lemma removeSStore_found (h : heap) (fs : fieldStore) (i : nat) (p : loc) :
  StronglySorted Z.lt (familyTimes h fs) ->
  sStoreNodes fs !! i = Some p ->
  removeSStore h fs (familyTimeAt h p) = set_sStoreNodes fs (delete i (sStoreNodes fs)).
Proof.
  intros Hs Hp. unfold removeSStore.
  rewrite (searchSStore_found h fs i p Hs Hp), Hp.
  by rewrite bool_decide_eq_false_2 by (intros Hne; by apply Hne).
Qed.

Lemma familyTimes_delete (h : heap) (fs : fieldStore) (i : nat) :
  familyTimes h (set_sStoreNodes fs (delete i (sStoreNodes fs))) =
  delete i (familyTimes h fs).
Proof.
  unfold familyTimes. cbn. generalize (sStoreNodes fs) as l. revert i.
  induction i as [|i IH]; intros [|x l]; cbn; try done. by rewrite IH.
Qed.

(** After the removal no segment of that family time is left. *)
Lemma familyTimes_delete_absent (h : heap) (fs : fieldStore) (i : nat) (p : loc) :
  StronglySorted Z.lt (familyTimes h fs) ->
  sStoreNodes fs !! i = Some p ->
  familyTimeAt h p ∉ delete i (familyTimes h fs).
Proof.
  intros Hs Hp [k Hk]%list_elem_of_lookup.
  rewrite list_lookup_delete in Hk.
  destruct (decide (k < i)%nat) as [Hlt|Hge].
  - rewrite familyTimes_lookup in Hk.
    destruct (sStoreNodes fs !! k) as [q|] eqn:Hq; [|done].
    injection Hk as Hk.
    pose proof (sorted_lookup h fs k i q p Hs Hlt Hq Hp). lia.
  - rewrite familyTimes_lookup in Hk.
    destruct (sStoreNodes fs !! Datatypes.S k) as [q|] eqn:Hq; [|done].
    injection Hk as Hk.
    pose proof (sorted_lookup h fs i (Datatypes.S k) p q Hs ltac:(lia) Hp Hq). lia.
Qed.

Lemma search_loop_ext (f g : nat -> bool) :
  (forall i, f i = g i) ->
  forall fuel i j, sort.search_loop fuel f i j = sort.search_loop fuel g i j.
Proof.
  intros Hfg fuel. induction fuel as [|fuel IH]; intros i j; [done|].
  rewrite !sort_facts.search_loop_S, Hfg, !IH. done.
Qed.

(** The searches read the heap through the family times only. *)
Lemma searchSStore_ext (h h' : heap) (fs : fieldStore) (familyTime : Z) :
  (forall p, p ∈ sStoreNodes fs -> familyTimeAt h' p = familyTimeAt h p) ->
  searchSStore h' fs familyTime = searchSStore h fs familyTime.
Proof.
  intros Hext. unfold searchSStore, sort.Search. apply search_loop_ext.
  intros i. destruct (sStoreNodes fs !! i) as [p|] eqn:Hp; [|done].
  rewrite Hext; [done|]. apply list_elem_of_lookup. eauto.
Qed.

Lemma getSStore_ext (h h' : heap) (fs : fieldStore) (familyTime : Z) :
  (forall p, p ∈ sStoreNodes fs -> familyTimeAt h' p = familyTimeAt h p) ->
  getSStore h' fs familyTime = getSStore h fs familyTime.
Proof.
  intros Hext. unfold getSStore. rewrite (searchSStore_ext h h') by done.
  destruct (sStoreNodes fs !! _) as [p|] eqn:Hp; [|done].
  rewrite Hext; [done|]. apply list_elem_of_lookup. eauto.
Qed.

Lemma familyTimes_ext (h h' : heap) (fs : fieldStore) :
  (forall p, p ∈ sStoreNodes fs -> familyTimeAt h' p = familyTimeAt h p) ->
  familyTimes h' fs = familyTimes h fs.
Proof.
  intros Hext. unfold familyTimes. apply list_eq. intros i.
  rewrite !list_lookup_fmap.
  destruct (sStoreNodes fs !! i) as [p|] eqn:Hp; [|done]. cbn.
  rewrite Hext; [done|]. apply list_elem_of_lookup. eauto.
Qed.

Lemma familyTimeAt_app_l (h : heap) (s : S) (q : loc) :
  (q < length h)%nat -> familyTimeAt (h ++ [s]) q = familyTimeAt h q.
Proof. intros Hq. unfold familyTimeAt. by rewrite lookup_app_l. Qed.

Lemma familyTimeAt_app_new (h : heap) (s : S) :
  familyTimeAt (h ++ [s]) (length h) = getFamilyTime s.
Proof. unfold familyTimeAt. by rewrite list_lookup_middle. Qed.

Lemma write_Other (h : heap) (fs : fieldStore) (name kind : string) (c : writeContext) :
  write h fs {| Name := name; Field := pb_Field_Other kind |} c =
  (h, fs, ["convert field error, unknown field type"%string]).
Proof. reflexivity. Qed.

Lemma write_Sum_existing (h : heap) (fs : fieldStore) (name : string) (v : float64)
    (c : writeContext) (p : loc) :
  getSStore h fs (familyTime c) = Some p ->
  write h fs {| Name := name; Field := pb_Field_Sum v |} c =
  (alter (writeFloat v c) p h, fs, []).
Proof. intros Hg. unfold write. cbn. by rewrite Hg. Qed.

Lemma write_Sum_new (h : heap) (fs : fieldStore) (name : string) (v : float64)
    (c : writeContext) :
  getSStore h fs (familyTime c) = None ->
  write h fs {| Name := name; Field := pb_Field_Sum v |} c =
  (alter (writeFloat v c) (length h)
     (h ++ [newSimpleFieldStore (familyTime c) (field_GetAggFunc field_Sum)]),
   insertSStore (h ++ [newSimpleFieldStore (familyTime c) (field_GetAggFunc field_Sum)])
     fs (length h), []).
Proof. intros Hg. unfold write. cbn. by rewrite Hg. Qed.

Lemma timeRange_step_contribution (interval : Z) (acc : TimeRange * bool) (s : S) :
  timeRange_step interval acc s =
  match contribution interval s with
  | Some c => accumulate acc c
  | None => acc
  end.
Proof.
  unfold timeRange_step, contribution, accumulate. destruct acc as [tr ok].
  by destruct (slotRange s) as [[a b]|e].
Qed.

Lemma foldl_timeRange_step (interval : Z) (segs : list S) (acc : TimeRange * bool) :
  foldl (timeRange_step interval) acc segs =
  foldl accumulate acc (omap (contribution interval) segs).
Proof.
  revert acc. induction segs as [|s segs IH]; intros acc; [done|].
  cbn. rewrite IH, timeRange_step_contribution.
  by destruct (contribution interval s).
Qed.

Lemma foldl_accumulate_ok (cs : list (Z * Z)) (acc : TimeRange * bool) :
  (foldl accumulate acc cs).2 = if cs is [] then acc.2 else true.
Proof.
  revert acc. induction cs as [|c cs IH]; intros acc; [done|].
  cbn. rewrite IH. by destruct cs.
Qed.

Lemma foldl_accumulate_Start (cs : list (Z * Z)) (acc : TimeRange * bool) :
  Start acc.1 <> 0 -> Forall (fun c => c.1 <> 0) cs ->
  Start (foldl accumulate acc cs).1 <> 0 /\
  Start (foldl accumulate acc cs).1 <= Start acc.1 /\
  Forall (fun c => Start (foldl accumulate acc cs).1 <= c.1) cs /\
  (Start (foldl accumulate acc cs).1 = Start acc.1 \/
   Start (foldl accumulate acc cs).1 ∈ map fst cs).
Proof.
  revert acc. induction cs as [|c cs IH]; intros acc Hacc Hcs.
  { cbn. repeat split; [done | lia | constructor | by left]. }
  apply Forall_cons in Hcs as [Hc Hcs]. cbn [foldl].
  destruct (IH (accumulate acc c)) as (Hnz & Hle & Hall & Hin); [|done|].
  { cbn. case_bool_decide; done. }
  assert (Hstep : Start (accumulate acc c).1 <= Start acc.1 /\
                  Start (accumulate acc c).1 <= c.1 /\
                  (Start (accumulate acc c).1 = Start acc.1 \/
                   Start (accumulate acc c).1 = c.1)).
  { cbn. case_bool_decide; lia. }
  split; [done|]. split; [lia|]. split.
  - constructor; [lia|done].
  - destruct Hin as [Hin|Hin].
    + destruct Hstep as (_ & _ & [Heq|Heq]); [left; lia|].
      right. cbn. rewrite Hin, Heq. by left.
    + right. cbn. by right.
Qed.

Lemma foldl_accumulate_End (cs : list (Z * Z)) (acc : TimeRange * bool) :
  End acc.1 <> 0 -> Forall (fun c => c.2 <> 0) cs ->
  End (foldl accumulate acc cs).1 <> 0 /\
  End acc.1 <= End (foldl accumulate acc cs).1 /\
  Forall (fun c => c.2 <= End (foldl accumulate acc cs).1) cs /\
  (End (foldl accumulate acc cs).1 = End acc.1 \/
   End (foldl accumulate acc cs).1 ∈ map snd cs).
Proof.
  revert acc. induction cs as [|c cs IH]; intros acc Hacc Hcs.
  { cbn. repeat split; [done | lia | constructor | by left]. }
  apply Forall_cons in Hcs as [Hc Hcs]. cbn [foldl].
  destruct (IH (accumulate acc c)) as (Hnz & Hle & Hall & Hin); [|done|].
  { cbn. case_bool_decide; done. }
  assert (Hstep : End acc.1 <= End (accumulate acc c).1 /\
                  c.2 <= End (accumulate acc c).1 /\
                  (End (accumulate acc c).1 = End acc.1 \/
                   End (accumulate acc c).1 = c.2)).
  { cbn. case_bool_decide; lia. }
  split; [done|]. split; [lia|]. split.
  - constructor; [lia|done].
  - destruct Hin as [Hin|Hin].
    + destruct Hstep as (_ & _ & [Heq|Heq]); [left; lia|].
      right. cbn. rewrite Hin, Heq. by left.
    + right. cbn. by right.
Qed.

(** Where [timeRange] is right: it folds the loop body over the segments
    whose slot range is known, the others being skipped; [ok] is true
    exactly when there is such a segment, and without one the range is the
    zero range.  With at least one, and when no such segment starts at
    time 0, [Start] is the least of their start times (family time plus
    start slot times interval, in 64-bit arithmetic, which is the exact
    value whenever that fits in 64 bits); when none ends at time 0, [End]
    is the greatest of their end times. *)
Theorem timeRange_min_max (h : heap) (fs : fieldStore) (interval : Z) :
  (forall s startSlot endSlot,
     slotRange s = Ok (startSlot, endSlot) ->
     Int64.in_range (startSlot * interval) -> Int64.in_range (endSlot * interval) ->
     Int64.in_range (getFamilyTime s + startSlot * interval) ->
     Int64.in_range (getFamilyTime s + endSlot * interval) ->
     contribution interval s =
       Some (getFamilyTime s + startSlot * interval, getFamilyTime s + endSlot * interval)) /\
  timeRange h fs interval =
    foldl accumulate ({| Start := 0; End := 0 |}, false) (contributions interval h fs) /\
  ((timeRange h fs interval).2 = true <-> contributions interval h fs <> []) /\
  (contributions interval h fs = [] ->
   timeRange h fs interval = ({| Start := 0; End := 0 |}, false)) /\
  (contributions interval h fs <> [] ->
   Forall (fun c => c.1 <> 0) (contributions interval h fs) ->
   Start (timeRange h fs interval).1 ∈ map fst (contributions interval h fs) /\
   Forall (fun c => Start (timeRange h fs interval).1 <= c.1)
     (contributions interval h fs)) /\
  (contributions interval h fs <> [] ->
   Forall (fun c => c.2 <> 0) (contributions interval h fs) ->
   End (timeRange h fs interval).1 ∈ map snd (contributions interval h fs) /\
   Forall (fun c => c.2 <= End (timeRange h fs interval).1)
     (contributions interval h fs)).
Proof.
  assert (Heq : timeRange h fs interval =
    foldl accumulate ({| Start := 0; End := 0 |}, false) (contributions interval h fs))
    by apply foldl_timeRange_step.
  split.
  { intros s a b Hsr Ha Hb Hsa Hsb. unfold contribution, Int64.add, Int64.mul.
    rewrite Hsr.
    rewrite (Int64_facts.wrap_small (a * interval)) by exact Ha.
    rewrite (Int64_facts.wrap_small (b * interval)) by exact Hb.
    rewrite (Int64_facts.wrap_small (getFamilyTime s + a * interval)) by exact Hsa.
    rewrite (Int64_facts.wrap_small (getFamilyTime s + b * interval)) by exact Hsb.
    reflexivity. }
  rewrite Heq. generalize (contributions interval h fs) as cs. intros cs.
  split; [done|]. split; [|split; [|split]].
  - rewrite foldl_accumulate_ok. destruct cs; cbn; split; done.
  - by intros ->.
  - destruct cs as [|c cs]; [done|]. intros _ [Hc Hcs]%Forall_cons. cbn [foldl].
    destruct (foldl_accumulate_Start cs (accumulate ({| Start := 0; End := 0 |}, false) c))
      as (_ & Hle & Hall & Hin); [cbn; by rewrite bool_decide_eq_true_2 by (by left) | done |].
    assert (Hfirst : Start (accumulate ({| Start := 0; End := 0 |}, false) c).1 = c.1)
      by (cbn; by rewrite bool_decide_eq_true_2 by (by left)).
    rewrite Hfirst in Hle, Hin. split.
    + cbn. destruct Hin as [->|Hin]; [by left | by right].
    + by constructor.
  - destruct cs as [|c cs]; [done|]. intros _ [Hc Hcs]%Forall_cons. cbn [foldl].
    destruct (foldl_accumulate_End cs (accumulate ({| Start := 0; End := 0 |}, false) c))
      as (_ & Hle & Hall & Hin); [cbn; by rewrite bool_decide_eq_true_2 by (by left) | done |].
    assert (Hfirst : End (accumulate ({| Start := 0; End := 0 |}, false) c).1 = c.2)
      by (cbn; by rewrite bool_decide_eq_true_2 by (by left)).
    rewrite Hfirst in Hle, Hin. split.
    + cbn. destruct Hin as [->|Hin]; [by left | by right].
    + by constructor.
Qed.

Context `{!sStoreContract S}.

Lemma familyTimeAt_alter (v : float64) (c : writeContext) (p : loc) (h : heap) (q : loc) :
  familyTimeAt (alter (writeFloat v c) p h) q = familyTimeAt h q.
Proof.
  unfold familyTimeAt. destruct (decide (p = q)) as [->|Hne].
  - rewrite list_lookup_alter_eq. destruct (h !! q); cbn; [|done].
    apply getFamilyTime_writeFloat.
  - by rewrite list_lookup_alter_ne.
Qed.

(** What a write of a sum does: the segment [p] of the family time
    takes the value; it is the one found by the search, or a new
    segment that joins the node list. *)
Lemma write_Sum_effect (h : heap) (fs : fieldStore) (name : string) (v : float64)
    (c : writeContext) :
  sorted_unique h fs ->
  exists h1 fs1 p s0,
    write h fs {| Name := name; Field := pb_Field_Sum v |} c = (h1, fs1, []) /\
    sorted_unique h1 fs1 /\
    (length h <= length h1)%nat /\
    (forall q, (q < length h)%nat -> familyTimeAt h1 q = familyTimeAt h q) /\
    (forall q, q ∈ sStoreNodes fs -> q ∈ sStoreNodes fs1) /\
    p ∈ sStoreNodes fs1 /\
    familyTimeAt h1 p = familyTime c /\
    h1 !! p = Some (writeFloat v c s0) /\
    ((getSStore h fs (familyTime c) = Some p /\ h !! p = Some s0 /\ fs1 = fs) \/
     ((familyTime c ∉ familyTimes h fs) /\ p = length h /\
      s0 = newSimpleFieldStore (familyTime c) (field_GetAggFunc field_Sum) /\
      sStoreNodes fs1 ≡ₚ sStoreNodes fs ++ [p])).
Proof.
  intros [Hvalid Hs].
  destruct (getSStore h fs (familyTime c)) as [p|] eqn:Hg.
  - pose proof (getSStore_Some _ _ _ _ Hg) as [Hp Hft].
    assert (Hin : p ∈ sStoreNodes fs) by (apply list_elem_of_lookup; eauto).
    rewrite Forall_forall in Hvalid. pose proof (Hvalid p Hin) as Hlt.
    destruct (lookup_lt_is_Some_2 h p Hlt) as [s0 Hs0].
    exists (alter (writeFloat v c) p h), fs, p, s0.
    split; [by apply write_Sum_existing|].
    split.
    { split.
      - rewrite Forall_forall. intros q Hq. rewrite length_alter. by apply Hvalid.
      - rewrite (familyTimes_ext h); [done|]. intros q _. apply familyTimeAt_alter. }
    split; [by rewrite length_alter|].
    split; [intros q _; apply familyTimeAt_alter|].
    split; [done|]. split; [done|].
    split; [by rewrite familyTimeAt_alter|].
    split; [by rewrite list_lookup_alter_eq, Hs0|].
    left. done.
  - pose proof (getSStore_None _ _ _ Hs Hg) as Habsent.
    set (s0 := newSimpleFieldStore (familyTime c) (field_GetAggFunc field_Sum)).
    set (h1 := h ++ [s0]).
    assert (Hkeys : forall q, q ∈ sStoreNodes fs -> familyTimeAt h1 q = familyTimeAt h q).
    { intros q Hq. apply familyTimeAt_app_l. rewrite Forall_forall in Hvalid. by apply Hvalid. }
    assert (Hnew : familyTimeAt h1 (length h) = familyTime c).
    { unfold h1. rewrite familyTimeAt_app_new. apply getFamilyTime_new. }
    assert (Hperm : sStoreNodes (insertSStore h1 fs (length h)) ≡ₚ (sStoreNodes fs ++ [length h])).
    { cbn. apply (sort_Sort_facts.Sort_Permutation (familyTimeAt h1)). }
    exists (alter (writeFloat v c) (length h) h1), (insertSStore h1 fs (length h)),
      (length h), s0.
    split; [by apply write_Sum_new|].
    split.
    { split.
      - rewrite Forall_forall. intros q Hq. rewrite length_alter.
        unfold h1. rewrite length_app. cbn.
        rewrite Hperm in Hq. apply elem_of_app in Hq as [Hq|Hq].
        + rewrite Forall_forall in Hvalid. specialize (Hvalid q Hq). lia.
        + apply list_elem_of_singleton in Hq. lia.
      - rewrite (familyTimes_ext h1); [|intros q _; apply familyTimeAt_alter].
        unfold familyTimes. cbn.
        apply (sort_Sort_facts.Sort_sorted (familyTimeAt h1)).
        rewrite map_app. cbn. rewrite Hnew.
        fold (familyTimes h1 fs). rewrite (familyTimes_ext h h1) by done.
        apply NoDup_app. split; [by apply sort_Sort_facts.StronglySorted_lt_NoDup|].
        split; [|apply NoDup_singleton].
        intros x Hx ->%list_elem_of_singleton. done. }
    split; [rewrite length_alter; unfold h1; rewrite length_app; lia|].
    split.
    { intros q Hq. rewrite familyTimeAt_alter. by apply familyTimeAt_app_l. }
    split; [intros q Hq; rewrite Hperm; apply elem_of_app; by left|].
    split; [rewrite Hperm; apply elem_of_app; right; by apply list_elem_of_singleton|].
    split; [by rewrite familyTimeAt_alter|].
    split.
    { rewrite list_lookup_alter_eq. unfold h1. by rewrite list_lookup_middle. }
    right. done.
Qed.

Lemma flushFieldTo_absent (h : heap) (fs : fieldStore) (tf : TableFlusher) (familyTime : Z) :
  familyTime ∉ familyTimes h fs ->
  flushFieldTo h fs tf familyTime = (fs, tf, false, []).
Proof. intros Hnot. unfold flushFieldTo. by rewrite getSStore_absent. Qed.

Lemma flushFieldTo_found (h : heap) (fs : fieldStore) (tf : TableFlusher)
    (i : nat) (p : loc) (s : S) :
  StronglySorted Z.lt (familyTimes h fs) ->
  sStoreNodes fs !! i = Some p -> h !! p = Some s ->
  flushFieldTo h fs tf (getFamilyTime s) =
  match bytes s with
  | Err e =>
      (set_sStoreNodes fs (delete i (sStoreNodes fs)), tf, false,
       [("read segment data error:" +:+ e)%string])
  | Ok (data, startSlot, endSlot) =>
      (set_sStoreNodes fs (delete i (sStoreNodes fs)),
       FlushField tf (fieldID fs) (fieldType fs) data startSlot endSlot, true, [])
  end.
Proof.
  intros Hs Hp Hh.
  assert (Hft : familyTimeAt h p = getFamilyTime s) by (unfold familyTimeAt; by rewrite Hh).
  unfold flushFieldTo. rewrite <- Hft.
  rewrite (getSStore_found h fs i p Hs Hp), (removeSStore_found h fs i p Hs Hp), Hh.
  destruct (bytes s) as [[[data a] b]|e]; done.
Qed.

Lemma sorted_unique_delete (h : heap) (fs : fieldStore) (i : nat) :
  sorted_unique h fs -> sorted_unique h (set_sStoreNodes fs (delete i (sStoreNodes fs))).
Proof.
  intros [Hvalid Hs]. split.
  - cbn. rewrite Forall_forall in Hvalid |- *. intros q Hq. apply Hvalid.
    eapply elem_of_sublist; [done | apply sublist_delete].
  - rewrite familyTimes_delete. by apply sort_Sort_facts.StronglySorted_delete.
Qed.

Lemma segments_lookup (h : heap) (fs : fieldStore) (i : nat) :
  Forall (fun p => (p < length h)%nat) (sStoreNodes fs) ->
  segments h fs !! i = sStoreNodes fs !! i ≫= (fun p => h !! p).
Proof.
  unfold segments. generalize (sStoreNodes fs) as l. intros l Hvalid. revert i.
  induction Hvalid as [|p l Hp Hl IH]; intros i; [done|].
  cbn. destruct (lookup_lt_is_Some_2 h p Hp) as [s Hs]. rewrite Hs. cbn.
  destruct i as [|i]; cbn; [done|]. apply IH.
Qed.

Lemma segmentOf_None (h : heap) (fs : fieldStore) (familyTime : Z) :
  Forall (fun p => (p < length h)%nat) (sStoreNodes fs) ->
  segmentOf h fs familyTime = None <-> familyTime ∉ familyTimes h fs.
Proof.
  intros Hvalid. unfold segmentOf. rewrite list_find_None, Forall_forall. split.
  - intros Hall [k Hk]%list_elem_of_lookup. rewrite familyTimes_lookup in Hk.
    destruct (sStoreNodes fs !! k) as [p|] eqn:Hp; [|done]. injection Hk as Hk.
    pose proof (segments_lookup h fs k Hvalid) as Hseg. rewrite Hp in Hseg. cbn in Hseg.
    unfold familyTimeAt in Hk. destruct (h !! p) as [s|] eqn:Hs.
    + apply (Hall s); [|done]. apply list_elem_of_lookup. eauto.
    + rewrite Forall_forall in Hvalid.
      apply lookup_ge_None in Hs. apply list_elem_of_lookup_2, Hvalid in Hp. lia.
  - intros Hnot s [k Hk]%list_elem_of_lookup Hft. apply Hnot.
    rewrite segments_lookup in Hk by done.
    destruct (sStoreNodes fs !! k) as [p|] eqn:Hp; [|done]. cbn in Hk.
    apply list_elem_of_lookup. exists k. rewrite familyTimes_lookup, Hp. cbn.
    unfold familyTimeAt. by rewrite Hk, Hft.
Qed.

Lemma segmentOf_Some (h : heap) (fs : fieldStore) (familyTime : Z) (i : nat) (s : S) :
  Forall (fun p => (p < length h)%nat) (sStoreNodes fs) ->
  segmentOf h fs familyTime = Some (i, s) ->
  exists p, sStoreNodes fs !! i = Some p /\ h !! p = Some s /\ getFamilyTime s = familyTime.
Proof.
  intros Hvalid (Hi & Hft & _)%list_find_Some.
  rewrite segments_lookup in Hi by done.
  destruct (sStoreNodes fs !! i) as [p|] eqn:Hp; [|done]. cbn in Hi. eauto.
Qed.

(** C10: a write whose field record is of any kind other than Sum
    returns nothing to the caller but a logged warning, and leaves the heap
    of segments and the field store, hence the segment list, as they
    were; as a step of a run it is the identity. *)
Theorem write_unknown_kind_dropped (h : heap) (fs : fieldStore) (tf : TableFlusher)
    (name kind : string) (c : writeContext) :
  write h fs {| Name := name; Field := pb_Field_Other kind |} c =
    (h, fs, ["convert field error, unknown field type"%string]) /\
  apply (h, fs, tf) (op_write {| Name := name; Field := pb_Field_Other kind |} c) = (h, fs, tf).
Proof. split; [apply write_Other | reflexivity]. Qed.

(** C4: on a field store in its invariant, [flushFieldTo] for a family
    time with no buffered segment returns false, leaves the store alone and
    does not call the table flusher; for a family time with a buffered
    segment it removes that segment, and then, when the segment serialises,
    calls the flusher exactly once with the field identifier, the field
    type, the payload and the slot range and returns true, after which a
    second call for the same family time returns false and calls nothing;
    when serialisation fails it returns false and calls nothing, the
    segment being removed all the same. *)
Theorem flushFieldTo_once (h : heap) (fs : fieldStore) (tf : TableFlusher) (familyTime : Z) :
  sorted_unique h fs ->
  match segmentOf h fs familyTime with
  | None => flushFieldTo h fs tf familyTime = (fs, tf, false, [])
  | Some (i, s) =>
      let fs1 := set_sStoreNodes fs (delete i (sStoreNodes fs)) in
      segmentOf h fs1 familyTime = None /\
      match bytes s with
      | Ok (data, startSlot, endSlot) =>
          let tf1 := tf ++ [ {| ff_fieldID := fieldID fs; ff_fieldType := fieldType fs;
                                ff_data := data; ff_startSlot := startSlot;
                                ff_endSlot := endSlot |} ] in
          flushFieldTo h fs tf familyTime = (fs1, tf1, true, []) /\
          flushFieldTo h fs1 tf1 familyTime = (fs1, tf1, false, [])
      | Err e =>
          flushFieldTo h fs tf familyTime =
            (fs1, tf, false, [("read segment data error:" +:+ e)%string])
      end
  end.
Proof.
  intros Hinv. pose proof Hinv as [Hvalid Hs].
  destruct (segmentOf h fs familyTime) as [[i s]|] eqn:Hseg.
  - apply segmentOf_Some in Hseg as (p & Hp & Hh & <-); [|done].
    assert (Hft : familyTimeAt h p = getFamilyTime s) by (unfold familyTimeAt; by rewrite Hh).
    assert (Hgone : getFamilyTime s ∉
              familyTimes h (set_sStoreNodes fs (delete i (sStoreNodes fs)))).
    { rewrite familyTimes_delete, <- Hft. by apply familyTimes_delete_absent. }
    cbn zeta. split.
    { apply segmentOf_None; [|done]. by apply (sorted_unique_delete h fs i). }
    rewrite (flushFieldTo_found h fs tf i p s Hs Hp Hh).
    destruct (bytes s) as [[[data a] b]|e]; [|done].
    split; [done|]. by apply flushFieldTo_absent.
  - apply flushFieldTo_absent. by apply segmentOf_None.
Qed.

Lemma flushFieldTo_sorted_unique (h : heap) (fs : fieldStore) (tf : TableFlusher)
    (familyTime : Z) :
  sorted_unique h fs -> sorted_unique h (flushFieldTo h fs tf familyTime).1.1.1.
Proof.
  intros Hinv. pose proof Hinv as [Hvalid Hs]. unfold flushFieldTo.
  destruct (getSStore h fs familyTime) as [p|] eqn:Hg; [|done].
  apply getSStore_Some in Hg as [Hp <-].
  rewrite (removeSStore_found h fs _ p Hs Hp).
  assert (sorted_unique h (set_sStoreNodes fs
            (delete (searchSStore h fs (familyTimeAt h p)) (sStoreNodes fs))))
    by (by apply sorted_unique_delete).
  destruct (h !! p) as [s|]; [|done].
  destruct (bytes s) as [[[data a] b]|e]; done.
Qed.

Lemma write_sorted_unique (h : heap) (fs : fieldStore) (f : pb_Field) (c : writeContext) :
  sorted_unique h fs -> sorted_unique (write h fs f c).1.1 (write h fs f c).1.2.
Proof.
  intros Hinv. destruct f as [name [v|kind]].
  - destruct (write_Sum_effect h fs name v c Hinv) as (h1 & fs1 & p & s0 & -> & Hinv1 & _).
    done.
  - by rewrite write_Other.
Qed.

Lemma apply_sorted_unique (st : heap * fieldStore * TableFlusher) (o : operation) :
  sorted_unique st.1.1 st.1.2 -> sorted_unique (apply st o).1.1 (apply st o).1.2.
Proof.
  destruct st as [[h fs] tf]. cbn [fst snd]. intros Hinv. destruct o as [f c|ft]; cbn.
  - pose proof (write_sorted_unique h fs f c Hinv) as Hw.
    destruct (write h fs f c) as [[h1 fs1] lg]. done.
  - pose proof (flushFieldTo_sorted_unique h fs tf ft Hinv) as Hf.
    destruct (flushFieldTo h fs tf ft) as [[[fs1 tf1] b] lg]. done.
Qed.

Lemma run_sorted_unique (os : list operation) (st : heap * fieldStore * TableFlusher) :
  sorted_unique st.1.1 st.1.2 -> sorted_unique (run st os).1.1 (run st os).1.2.
Proof.
  revert st. induction os as [|o os IH]; intros st Hinv; [done|].
  cbn. apply IH. by apply apply_sorted_unique.
Qed.

Lemma newFieldStore_sorted_unique (name : string) (id : Z) (t : field_Type) :
  sorted_unique ([] : heap) (newFieldStore name id t).
Proof. split; [constructor|]. unfold familyTimes. cbn. constructor. Qed.

Lemma two_writes_same_family (h : heap) (fs : fieldStore) (n1 n2 : string)
    (v1 v2 : float64) (c1 c2 : writeContext) :
  sorted_unique h fs -> familyTime c1 = familyTime c2 ->
  exists h1 fs1 h2 p s0,
    write h fs {| Name := n1; Field := pb_Field_Sum v1 |} c1 = (h1, fs1, []) /\
    write h1 fs1 {| Name := n2; Field := pb_Field_Sum v2 |} c2 = (h2, fs1, []) /\
    getSStore h2 fs1 (familyTime c1) = Some p /\
    h2 !! p = Some (writeFloat v2 c2 (writeFloat v1 c1 s0)).
Proof.
  intros Hinv Heq.
  destruct (write_Sum_effect h fs n1 v1 c1 Hinv)
    as (h1 & fs1 & p & s0 & Hw1 & [Hvalid1 Hs1] & _ & _ & _ & Hin & Hft & Hh1 & _).
  apply list_elem_of_lookup in Hin as [i Hi].
  pose proof (getSStore_found h1 fs1 i p Hs1 Hi) as Hg. rewrite Hft in Hg.
  exists h1, fs1, (alter (writeFloat v2 c2) p h1), p, s0.
  split; [done|]. split.
  { apply write_Sum_existing. by rewrite <- Heq. }
  split.
  - rewrite (getSStore_ext h1); [done|]. intros q _. apply familyTimeAt_alter.
  - by rewrite list_lookup_alter_eq, Hh1.
Qed.

Lemma two_writes_distinct_families (h : heap) (fs : fieldStore) (n1 n2 : string)
    (v1 v2 : float64) (c1 c2 : writeContext) :
  sorted_unique h fs -> familyTime c1 <> familyTime c2 ->
  exists h1 fs1 h2 fs2 p1 p2,
    write h fs {| Name := n1; Field := pb_Field_Sum v1 |} c1 = (h1, fs1, []) /\
    write h1 fs1 {| Name := n2; Field := pb_Field_Sum v2 |} c2 = (h2, fs2, []) /\
    p1 <> p2 /\
    getSStore h2 fs2 (familyTime c1) = Some p1 /\
    getSStore h2 fs2 (familyTime c2) = Some p2 /\
    sorted_unique h2 fs2.
Proof.
  intros Hinv Hne.
  destruct (write_Sum_effect h fs n1 v1 c1 Hinv)
    as (h1 & fs1 & p1 & s1 & Hw1 & Hinv1 & _ & _ & _ & Hin1 & Hft1 & _ & _).
  destruct (write_Sum_effect h1 fs1 n2 v2 c2 Hinv1)
    as (h2 & fs2 & p2 & s2 & Hw2 & Hinv2 & _ & Hkeys & Hsub & Hin2 & Hft2 & _ & _).
  exists h1, fs1, h2, fs2, p1, p2.
  pose proof Hinv1 as [Hvalid1 _]. pose proof Hinv2 as [_ Hs2].
  rewrite Forall_forall in Hvalid1.
  assert (Hft1' : familyTimeAt h2 p1 = familyTime c1).
  { rewrite Hkeys; [done|]. by apply Hvalid1. }
  split; [done|]. split; [done|]. split; [congruence|].
  split; [|split; [|done]].
  - apply Hsub, list_elem_of_lookup in Hin1 as [i Hi].
    rewrite <- Hft1'. by apply (getSStore_found h2 fs2 i).
  - apply list_elem_of_lookup in Hin2 as [i Hi].
    rewrite <- Hft2. by apply (getSStore_found h2 fs2 i).
Qed.

Lemma apply_write (h : heap) (fs : fieldStore) (tf : TableFlusher) (f : pb_Field)
    (c : writeContext) :
  apply (h, fs, tf) (op_write f c) = ((write h fs f c).1.1, (write h fs f c).1.2, tf).
Proof. unfold apply. by destruct (write h fs f c) as [[h1 fs1] lg]. Qed.

Lemma familyTimes_Permutation (h : heap) (fs : fieldStore) (l : list loc) :
  sStoreNodes fs ≡ₚ l -> familyTimes h fs ≡ₚ map (familyTimeAt h) l.
Proof. intros Hp. unfold familyTimes. by rewrite Hp. Qed.

Lemma first_two_families (name : string) (id : Z) (t : field_Type) (n1 n2 : string)
    (v1 v2 : float64) (c1 c2 : writeContext) :
  familyTime c1 <> familyTime c2 ->
  familyTimes
    (run ([], newFieldStore name id t, [])
       [op_write {| Name := n1; Field := pb_Field_Sum v1 |} c1;
        op_write {| Name := n2; Field := pb_Field_Sum v2 |} c2]).1.1
    (run ([], newFieldStore name id t, [])
       [op_write {| Name := n1; Field := pb_Field_Sum v1 |} c1;
        op_write {| Name := n2; Field := pb_Field_Sum v2 |} c2]).1.2
  = [Z.min (familyTime c1) (familyTime c2); Z.max (familyTime c1) (familyTime c2)].
Proof.
  intros Hne.
  destruct (write_Sum_effect [] (newFieldStore name id t) n1 v1 c1
              (newFieldStore_sorted_unique name id t))
    as (h1 & fs1 & p1 & s1 & Hw1 & Hinv1 & _ & _ & _ & Hin1 & Hft1 & _ & Hcase1).
  destruct (write_Sum_effect h1 fs1 n2 v2 c2 Hinv1)
    as (h2 & fs2 & p2 & s2 & Hw2 & Hinv2 & _ & Hkeys & _ & _ & Hft2 & _ & Hcase2).
  unfold run. cbn [foldl]. rewrite !apply_write, Hw1. cbn [fst snd].
  rewrite Hw2. cbn [fst snd].
  assert (Hnodes1 : sStoreNodes fs1 = [p1]).
  { destruct Hcase1 as [(Hg & _)|(_ & _ & _ & Hperm)].
    - apply getSStore_Some in Hg as [Hg _]. cbn in Hg. discriminate.
    - cbn in Hperm. by apply Permutation_singleton_r in Hperm. }
  pose proof Hinv1 as [Hvalid1 _]. pose proof Hinv2 as [_ Hs2].
  rewrite Forall_forall in Hvalid1.
  assert (Hperm : sStoreNodes fs2 ≡ₚ [p1; p2]).
  { destruct Hcase2 as [(Hg & _ & _)|(_ & _ & _ & Hperm)].
    - apply getSStore_Some in Hg as [Hg Hk]. rewrite Hnodes1 in Hg.
      apply list_elem_of_lookup_2, list_elem_of_singleton in Hg. congruence.
    - by rewrite Hperm, Hnodes1. }
  apply (familyTimes_Permutation h2) in Hperm. cbn in Hperm.
  rewrite Hft2, Hkeys, Hft1 in Hperm by (apply Hvalid1; rewrite Hnodes1; by left).
  assert (AntiSymm (=) Z.lt) by (intros x y ? ?; lia).
  apply (StronglySorted_unique Z.lt); [done | | ].
  - repeat constructor. lia.
  - rewrite Hperm. destruct (Z.min_spec (familyTime c1) (familyTime c2)) as [[? ->]|[? ->]],
      (Z.max_spec (familyTime c1) (familyTime c2)) as [[? ->]|[? ->]];
      try lia; [done | apply Permutation_swap].
Qed.

(** C9: whatever writes and flushes a field store has gone through since
    [newFieldStore], its segment list points to allocated segments whose
    family times are strictly ascending: the list is sorted by family time
    and no family time occurs twice.  Two writes of sums with the same
    family time go to one segment, which takes both values and is the one
    found for that family time, the second write adding no segment; two
    writes with different family times go to two different segments, both
    found afterwards by their family times in a list still sorted; on a new
    field store the list then holds exactly the two family times, the
    smaller first. *)
Theorem segments_sorted_one_per_family :
  (forall (name : string) (id : Z) (t : field_Type) (os : list operation),
     sorted_unique (run ([], newFieldStore name id t, []) os).1.1
                   (run ([], newFieldStore name id t, []) os).1.2) /\
  (forall (h : heap) (fs : fieldStore) n1 n2 v1 v2 c1 c2,
     sorted_unique h fs -> familyTime c1 = familyTime c2 ->
     exists h1 fs1 h2 p s0,
       write h fs {| Name := n1; Field := pb_Field_Sum v1 |} c1 = (h1, fs1, []) /\
       write h1 fs1 {| Name := n2; Field := pb_Field_Sum v2 |} c2 = (h2, fs1, []) /\
       getSStore h2 fs1 (familyTime c1) = Some p /\
       h2 !! p = Some (writeFloat v2 c2 (writeFloat v1 c1 s0))) /\
  (forall (h : heap) (fs : fieldStore) n1 n2 v1 v2 c1 c2,
     sorted_unique h fs -> familyTime c1 <> familyTime c2 ->
     exists h1 fs1 h2 fs2 p1 p2,
       write h fs {| Name := n1; Field := pb_Field_Sum v1 |} c1 = (h1, fs1, []) /\
       write h1 fs1 {| Name := n2; Field := pb_Field_Sum v2 |} c2 = (h2, fs2, []) /\
       p1 <> p2 /\
       getSStore h2 fs2 (familyTime c1) = Some p1 /\
       getSStore h2 fs2 (familyTime c2) = Some p2 /\
       sorted_unique h2 fs2) /\
  (forall (name : string) (id : Z) (t : field_Type) n1 n2 v1 v2 c1 c2,
     familyTime c1 <> familyTime c2 ->
     familyTimes
       (run (([] : heap), newFieldStore name id t, [])
          [op_write {| Name := n1; Field := pb_Field_Sum v1 |} c1;
           op_write {| Name := n2; Field := pb_Field_Sum v2 |} c2]).1.1
       (run ([], newFieldStore name id t, [])
          [op_write {| Name := n1; Field := pb_Field_Sum v1 |} c1;
           op_write {| Name := n2; Field := pb_Field_Sum v2 |} c2]).1.2
     = [Z.min (familyTime c1) (familyTime c2); Z.max (familyTime c1) (familyTime c2)]).
Proof.
  split; [|split; [|split]].
  - intros name id t os.
    apply (run_sorted_unique os ([], newFieldStore name id t, [])).
    apply newFieldStore_sorted_unique.
  - intros. by apply two_writes_same_family.
  - intros. by apply two_writes_distinct_families.
  - intros. by apply first_two_families.
Qed.

End FieldStore.

End memdb_facts.

(** ** The field store on sample inputs *)
Module memdb_examples.
Import memdb memdb_spec memdb_facts.

Lemma two_hours_value :
  two_hours =
  ([ {| ps_familyTime := 7200000; ps_aggFunc := AggFuncOf field_Sum;
        ps_points := [(2, 1); (3, 4)] |};
     {| ps_familyTime := 3600000; ps_aggFunc := AggFuncOf field_Sum;
        ps_points := [(0, 2); (5, 3)] |} ],
   {| fieldName := "f1"; fieldType := field_Sum; fieldID := 7;
      sStoreNodes := [1%nat; 0%nat] |}, []).
Proof. vm_compute. reflexivity. Qed.

Lemma with_empty_segment_sorted_unique :
  sorted_unique with_empty_segment.1 with_empty_segment.2.
Proof.
  split.
  - repeat constructor.
  - unfold familyTimes. cbn. repeat constructor; lia.
Qed.

Lemma flushFieldTo_once_witness :
  (segmentOf with_empty_segment.1
     (set_sStoreNodes with_empty_segment.2 [1%nat]) 10 = None /\
   flushFieldTo with_empty_segment.1 with_empty_segment.2 [] 10 =
     (set_sStoreNodes with_empty_segment.2 [1%nat],
      [ {| ff_fieldID := 7; ff_fieldType := field_Sum; ff_data := [5];
           ff_startSlot := 1; ff_endSlot := 1 |} ], true, []) /\
   flushFieldTo with_empty_segment.1 (set_sStoreNodes with_empty_segment.2 [1%nat])
     [ {| ff_fieldID := 7; ff_fieldType := field_Sum; ff_data := [5];
          ff_startSlot := 1; ff_endSlot := 1 |} ] 10 =
     (set_sStoreNodes with_empty_segment.2 [1%nat],
      [ {| ff_fieldID := 7; ff_fieldType := field_Sum; ff_data := [5];
           ff_startSlot := 1; ff_endSlot := 1 |} ], false, [])) /\
  (segmentOf with_empty_segment.1
     (set_sStoreNodes with_empty_segment.2 [0%nat]) 20 = None /\
   flushFieldTo with_empty_segment.1 with_empty_segment.2 [] 20 =
     (set_sStoreNodes with_empty_segment.2 [0%nat], [], false,
      ["read segment data error:no data"%string])) /\
  flushFieldTo with_empty_segment.1 with_empty_segment.2 [] 30 =
    (with_empty_segment.2, [], false, []).
Proof.
  split; [|split].
  - exact (flushFieldTo_once with_empty_segment.1 with_empty_segment.2 [] 10
             with_empty_segment_sorted_unique).
  - exact (flushFieldTo_once with_empty_segment.1 with_empty_segment.2 [] 20
             with_empty_segment_sorted_unique).
  - exact (flushFieldTo_once with_empty_segment.1 with_empty_segment.2 [] 30
             with_empty_segment_sorted_unique).
Defined.

Lemma two_hours_contributions :
  contributions 10 two_hours.1.1 two_hours.1.2 =
  [(3600000, 3600050); (7200020, 7200030)].
Proof. vm_compute. reflexivity. Qed.

Lemma timeRange_min_max_witness :
  (timeRange two_hours.1.1 two_hours.1.2 10).2 = true /\
  (Start (timeRange two_hours.1.1 two_hours.1.2 10).1
     ∈ map fst (contributions 10 two_hours.1.1 two_hours.1.2) /\
   Forall (fun c => Start (timeRange two_hours.1.1 two_hours.1.2 10).1 <= c.1)
     (contributions 10 two_hours.1.1 two_hours.1.2)) /\
  (End (timeRange two_hours.1.1 two_hours.1.2 10).1
     ∈ map snd (contributions 10 two_hours.1.1 two_hours.1.2) /\
   Forall (fun c => c.2 <= End (timeRange two_hours.1.1 two_hours.1.2 10).1)
     (contributions 10 two_hours.1.1 two_hours.1.2)).
Proof.
  destruct (timeRange_min_max two_hours.1.1 two_hours.1.2 10)
    as (_ & _ & Hok & _ & Hstart & Hend).
  assert (Hne : contributions 10 two_hours.1.1 two_hours.1.2 <> [])
    by (rewrite two_hours_contributions; discriminate).
  split; [by apply Hok|]. split.
  - apply Hstart; [done|]. rewrite two_hours_contributions. by repeat constructor.
  - apply Hend; [done|]. rewrite two_hours_contributions. by repeat constructor.
Defined.

(** C7 at a failing input: the store that buffered the hours starting at
    0 and at 3600000, slots 0 to 5 each, reached by four writes from
    [newFieldStore] and sorted by family time.  With interval 10 both
    segments contribute, with the times 0 to 50 and 3600000 to 3600050.
    The loop takes [timeRange.Start == 0] for "no start time yet", so the
    second segment overwrites the start 0 of the first: [timeRange] returns
    [ok] with [Start] 3600000, which is not the minimum of the start times
    and lies after data of the store; [End] is the maximum, 3600050. *)
Theorem timeRange_misses_time_zero :
  sorted_unique from_epoch.1.1 from_epoch.1.2 /\
  contributions 10 from_epoch.1.1 from_epoch.1.2 = [(0, 50); (3600000, 3600050)] /\
  timeRange from_epoch.1.1 from_epoch.1.2 10 =
    ({| Start := 3600000; End := 3600050 |}, true) /\
  ~ Forall (fun c => Start (timeRange from_epoch.1.1 from_epoch.1.2 10).1 <= c.1)
      (contributions 10 from_epoch.1.1 from_epoch.1.2).
Proof.
  assert (Hc : contributions 10 from_epoch.1.1 from_epoch.1.2 =
               [(0, 50); (3600000, 3600050)]) by (vm_compute; reflexivity).
  assert (Ht : timeRange from_epoch.1.1 from_epoch.1.2 10 =
               ({| Start := 3600000; End := 3600050 |}, true)) by (vm_compute; reflexivity).
  split; [|split; [done|split; [done|]]].
  - apply (run_sorted_unique _ ([], newFieldStore "f1" 7 field_Sum, [])).
    apply newFieldStore_sorted_unique.
  - rewrite Hc, Ht. intros Hall. apply Forall_cons in Hall as [Hle _]. cbn in Hle. lia.
Qed.

Lemma segments_sorted_one_per_family_witness :
  sorted_unique two_hours.1.1 two_hours.1.2 /\
  (exists (h1 : list pointsStore) fs1 h2 p s0,
     write [] (newFieldStore "f1" 7 field_Sum) (sum 1) (at_slot 3600000 0) = (h1, fs1, []) /\
     write h1 fs1 (sum 2) (at_slot 3600000 5) = (h2, fs1, []) /\
     getSStore h2 fs1 3600000 = Some p /\
     h2 !! p = Some (writeFloat 2 (at_slot 3600000 5) (writeFloat 1 (at_slot 3600000 0) s0))) /\
  (exists (h1 : list pointsStore) fs1 h2 fs2 p1 p2,
     write [] (newFieldStore "f1" 7 field_Sum) (sum 1) (at_slot 7200000 0) = (h1, fs1, []) /\
     write h1 fs1 (sum 2) (at_slot 3600000 5) = (h2, fs2, []) /\
     p1 <> p2 /\
     getSStore h2 fs2 7200000 = Some p1 /\
     getSStore h2 fs2 3600000 = Some p2 /\
     sorted_unique h2 fs2) /\
  familyTimes
    (run (([] : list pointsStore), newFieldStore "f1" 7 field_Sum, [])
       [op_write (sum 1) (at_slot 7200000 0); op_write (sum 2) (at_slot 3600000 5)]).1.1
    (run (([] : list pointsStore), newFieldStore "f1" 7 field_Sum, [])
       [op_write (sum 1) (at_slot 7200000 0); op_write (sum 2) (at_slot 3600000 5)]).1.2
  = [3600000; 7200000].
Proof.
  destruct (segments_sorted_one_per_family (S := pointsStore))
    as (Hrun & Hsame & Hdistinct & Hfirst).
  split; [|split; [|split]].
  - apply Hrun.
  - apply (Hsame [] (newFieldStore "f1" 7 field_Sum) "f1"%string "f1"%string 1 2
             (at_slot 3600000 0) (at_slot 3600000 5)).
    + apply newFieldStore_sorted_unique.
    + reflexivity.
  - apply (Hdistinct [] (newFieldStore "f1" 7 field_Sum) "f1"%string "f1"%string 1 2
             (at_slot 7200000 0) (at_slot 3600000 5)).
    + apply newFieldStore_sorted_unique.
    + cbn. lia.
  - apply (Hfirst "f1"%string 7 field_Sum "f1"%string "f1"%string 1 2
             (at_slot 7200000 0) (at_slot 3600000 5)).
    cbn. lia.
Defined.

End memdb_examples.

(** ** The tag search *)
Module query_facts.
Import query query_spec.

(** Once an error is latched, evaluation does nothing. *)
Lemma findTagValueIDsByExpr_latched (s : tagSearch) (expr : Expr) (e : error) :
  err s = Some e -> findTagValueIDsByExpr s expr = s.
Proof. intros He. destruct expr; cbn; by rewrite ?He. Qed.

Lemma findTagValueIDsByExpr_binary (s : tagSearch) (l r : Expr) (op : BinaryOP) :
  err s = None -> op = AND \/ op = OR ->
  findTagValueIDsByExpr s (BinaryExpr l op r) =
  findTagValueIDsByExpr (findTagValueIDsByExpr s l) r.
Proof. intros He [-> | ->]; cbn; by rewrite He. Qed.

Lemma findTagValueIDsByExpr_wrong_operator (s : tagSearch) (l r : Expr) (name : string) :
  err s = None ->
  findTagValueIDsByExpr s (BinaryExpr l (OtherOP name) r) =
  set_err s ("wrong binary operator in tag filter: " +:+ name).
Proof. intros He. cbn. by rewrite He. Qed.

Lemma findTagValueIDsByExpr_leaf (s : tagSearch) (f : TagFilter) :
  err s = None ->
  findTagValueIDsByExpr s (TagFilterExpr f) = findTagValueIDsByTagFilter s f.
Proof. intros He. cbn. by rewrite He. Qed.

Lemma getTagKeyID_same_target (s : tagSearch) (key : string) :
  same_target s (getTagKeyID s key).1.
Proof.
  unfold getTagKeyID. destruct (tags s !! key); [done|].
  by destruct (GetTagKeyID (metadata s) (namespace s) (metricName s) key).
Qed.

Lemma findTagValueIDsByTagFilter_same_target (s : tagSearch) (f : TagFilter) :
  same_target s (findTagValueIDsByTagFilter s f).
Proof.
  unfold findTagValueIDsByTagFilter.
  pose proof (getTagKeyID_same_target s (TagKey f)) as Ht.
  destruct (getTagKeyID s (TagKey f)) as [s1 [id|e]]; cbn in Ht; [|done].
  destruct (FindTagValueDsByExpr (metadata s) id f) as [[ids|]|e]; [|done|done].
  by destruct (negb (IsEmpty ids)).
Qed.

Lemma findTagValueIDsByExpr_same_target (expr : Expr) (s : tagSearch) :
  same_target s (findTagValueIDsByExpr s expr).
Proof.
  revert s. induction expr as [|f|e IH|e IH|l IHl op r IHr|text]; intros s;
    cbn; try done; destruct (err s); try done.
  - apply findTagValueIDsByTagFilter_same_target.
  - destruct op; [| |done].
    + destruct (IHl s) as (? & ? & ?), (IHr (findTagValueIDsByExpr s l)) as (? & ? & ?).
      repeat split; congruence.
    + destruct (IHl s) as (? & ? & ?), (IHr (findTagValueIDsByExpr s l)) as (? & ? & ?).
      repeat split; congruence.
Qed.

(** A leaf that is evaluated without error records its own match, and
    nothing else changes in the result. *)
Lemma findTagValueIDsByTagFilter_harvest (s : tagSearch) (f : TagFilter) :
  cache_sound s ->
  err (findTagValueIDsByTagFilter s f) = None ->
  result_ (findTagValueIDsByTagFilter s f) =
    harvest (metadata s) (namespace s) (metricName s) (result_ s) f /\
  cache_sound (findTagValueIDsByTagFilter s f).
Proof.
  intros Hc. unfold findTagValueIDsByTagFilter, getTagKeyID, harvest, leaf_match, cache_sound.
  destruct (tags s !! TagKey f) as [id|] eqn:Hk.
  - rewrite (Hc _ _ Hk).
    destruct (FindTagValueDsByExpr (metadata s) id f) as [[ids|]|e]; cbn; [| |done].
    + destruct (IsEmpty ids); cbn; intros _; split; done.
    + intros _; split; done.
  - destruct (GetTagKeyID (metadata s) (namespace s) (metricName s) (TagKey f))
      as [id|e] eqn:Hg; cbn; [|done].
    assert (Hc' : forall key id', <[TagKey f := id]> (tags s) !! key = Some id' ->
                  GetTagKeyID (metadata s) (namespace s) (metricName s) key = Ok id').
    { intros key id'. destruct (decide (TagKey f = key)) as [<-|Hne].
      - rewrite lookup_insert_eq. by intros [= <-].
      - rewrite lookup_insert_ne by done. apply Hc. }
    destruct (FindTagValueDsByExpr (metadata s) id f) as [[ids|]|e]; cbn; [| |done].
    + destruct (IsEmpty ids); cbn; intros _; split; done.
    + intros _; split; done.
Qed.

(** A traversal that ends without error has recorded the matches of the
    leaves it reached, in traversal order. *)
Lemma findTagValueIDsByExpr_harvest (expr : Expr) (s : tagSearch) :
  cache_sound s -> err s = None ->
  err (findTagValueIDsByExpr s expr) = None ->
  result_ (findTagValueIDsByExpr s expr) =
    foldl (harvest (metadata s) (namespace s) (metricName s)) (result_ s) (leaves expr) /\
  cache_sound (findTagValueIDsByExpr s expr).
Proof.
  revert s. induction expr as [|f|e IH|e IH|l IHl op r IHr|text]; intros s Hc He.
  - done.
  - rewrite findTagValueIDsByExpr_leaf by done. intros Hok. cbn [leaves foldl].
    by apply findTagValueIDsByTagFilter_harvest.
  - cbn. rewrite He. by apply IH.
  - cbn. rewrite He. by apply IH.
  - destruct op as [| |name].
    + rewrite findTagValueIDsByExpr_binary by auto. intros Hok.
      destruct (err (findTagValueIDsByExpr s l)) as [x|] eqn:Hl.
      { rewrite (findTagValueIDsByExpr_latched _ r x) in Hok by done. congruence. }
      destruct (IHl s Hc He Hl) as [Hrl Hcl].
      destruct (IHr _ Hcl Hl Hok) as [Hrr Hcr].
      destruct (findTagValueIDsByExpr_same_target l s) as (Hn & Hm & Hmd).
      split; [|done]. cbn [leaves]. rewrite foldl_app, Hrr, Hrl, Hn, Hm, Hmd. done.
    + rewrite findTagValueIDsByExpr_binary by auto. intros Hok.
      destruct (err (findTagValueIDsByExpr s l)) as [x|] eqn:Hl.
      { rewrite (findTagValueIDsByExpr_latched _ r x) in Hok by done. congruence. }
      destruct (IHl s Hc He Hl) as [Hrl Hcl].
      destruct (IHr _ Hcl Hl Hok) as [Hrr Hcr].
      destruct (findTagValueIDsByExpr_same_target l s) as (Hn & Hm & Hmd).
      split; [|done]. cbn [leaves]. rewrite foldl_app, Hrr, Hrl, Hn, Hm, Hmd. done.
    + rewrite findTagValueIDsByExpr_wrong_operator by done. done.
  - cbn. rewrite He. done.
Qed.

Section Harvest.
Context (md : Metadata) (ns mt : string).

Lemma foldl_harvest_lookup_inv (fs : list TagFilter) (m : gmap string tagFilterResult)
    (k : string) (r : tagFilterResult) :
  foldl (harvest md ns mt) m fs !! k = Some r ->
  m !! k = Some r \/
  exists f, f ∈ fs /\ Rewrite f = k /\ leaf_match md ns mt f = Some r.
Proof.
  revert m. induction fs as [|f fs IH]; intros m Hk; [by left|].
  cbn in Hk. apply IH in Hk as [Hk|(g & Hg & Hgk & Hgm)].
  - unfold harvest in Hk. destruct (leaf_match md ns mt f) as [r0|] eqn:Hf; [|by left].
    destruct (decide (Rewrite f = k)) as [Heq|Hne].
    + rewrite <- Heq, lookup_insert_eq in Hk. injection Hk as ->.
      right. exists f. split; [by left|done].
    + rewrite lookup_insert_ne in Hk by done. by left.
  - right. exists g. split; [by right|done].
Qed.

Lemma foldl_harvest_keeps (fs : list TagFilter) (m : gmap string tagFilterResult)
    (k : string) :
  is_Some (m !! k) -> is_Some (foldl (harvest md ns mt) m fs !! k).
Proof.
  revert m. induction fs as [|f fs IH]; intros m Hk; [done|].
  cbn. apply IH. unfold harvest. destruct (leaf_match md ns mt f); [|done].
  destruct (decide (Rewrite f = k)) as [<-|Hne].
  - rewrite lookup_insert_eq. eauto.
  - by rewrite lookup_insert_ne.
Qed.

Lemma foldl_harvest_present (fs : list TagFilter) (m : gmap string tagFilterResult)
    (f : TagFilter) :
  f ∈ fs -> is_Some (leaf_match md ns mt f) ->
  is_Some (foldl (harvest md ns mt) m fs !! Rewrite f).
Proof.
  revert m. induction fs as [|g fs IH]; intros m Hin [r Hr]; [by apply elem_of_nil in Hin|].
  apply elem_of_cons in Hin as [->|Hin]; cbn.
  - apply foldl_harvest_keeps. unfold harvest. rewrite Hr, lookup_insert_eq. eauto.
  - apply IH; [done|eauto].
Qed.

Lemma foldl_harvest_other (fs : list TagFilter) (m : gmap string tagFilterResult)
    (k : string) :
  k ∉ map Rewrite fs -> foldl (harvest md ns mt) m fs !! k = m !! k.
Proof.
  revert m. induction fs as [|f fs IH]; intros m Hk; [done|].
  cbn in Hk. apply not_elem_of_cons in Hk as [Hne Hk].
  cbn. rewrite IH by done. unfold harvest.
  destruct (leaf_match md ns mt f); [|done]. by rewrite lookup_insert_ne.
Qed.

(** With pairwise distinct rewritten forms, each leaf has its own entry. *)
Lemma foldl_harvest_NoDup (fs : list TagFilter) (m : gmap string tagFilterResult) :
  NoDup (map Rewrite fs) ->
  (forall f, f ∈ fs -> m !! Rewrite f = None) ->
  (forall f, f ∈ fs -> foldl (harvest md ns mt) m fs !! Rewrite f = leaf_match md ns mt f) /\
  size (foldl (harvest md ns mt) m fs) =
    (size m + length (filter (fun f => is_Some (leaf_match md ns mt f)) fs))%nat.
Proof.
  revert m. induction fs as [|f fs IH]; intros m Hnd Hm.
  { split; [intros f Hf; by apply elem_of_nil in Hf | cbn; lia]. }
  cbn in Hnd. apply NoDup_cons in Hnd as [Hf Hnd].
  assert (Hm' : forall g, g ∈ fs -> harvest md ns mt m f !! Rewrite g = None).
  { intros g Hg. unfold harvest.
    assert (Rewrite f <> Rewrite g).
    { intros Heq. apply Hf. rewrite Heq. by apply list_elem_of_fmap_2. }
    destruct (leaf_match md ns mt f).
    - rewrite lookup_insert_ne by done. apply Hm. by right.
    - apply Hm. by right. }
  destruct (IH (harvest md ns mt m f) Hnd Hm') as [Hlook Hsize].
  split.
  - intros g [->|Hg]%elem_of_cons; cbn; [|by apply Hlook].
    rewrite foldl_harvest_other by done. unfold harvest.
    destruct (leaf_match md ns mt f) as [r|] eqn:Hr.
    + by rewrite lookup_insert_eq.
    + apply Hm. by left.
  - cbn [foldl]. rewrite Hsize. rewrite filter_cons. unfold harvest.
    destruct (leaf_match md ns mt f) as [r|] eqn:Hr.
    + rewrite map_size_insert_None by (apply Hm; by left).
      rewrite decide_True by eauto. cbn. lia.
    + rewrite decide_False by (by intros [? ?]). lia.
Qed.

End Harvest.

(** On a tree of leaf filters whose lookups all succeed, the traversal
    ends without error. *)
Lemma findTagValueIDsByTagFilter_resolves (s : tagSearch) (f : TagFilter) :
  cache_sound s -> err s = None ->
  leaf_resolves (metadata s) (namespace s) (metricName s) f ->
  err (findTagValueIDsByTagFilter s f) = None.
Proof.
  intros Hc He (id & ids & Hid & Hids).
  unfold findTagValueIDsByTagFilter, getTagKeyID.
  destruct (tags s !! TagKey f) as [id'|] eqn:Hk.
  - pose proof (Hc _ _ Hk) as Hid'. rewrite Hid in Hid'. injection Hid' as <-.
    rewrite Hids. destruct ids as [ids|]; [|done]. by destruct (negb (IsEmpty ids)).
  - rewrite Hid, Hids. destruct ids as [ids|]; [|done]. by destruct (negb (IsEmpty ids)).
Qed.

Lemma findTagValueIDsByExpr_resolves (expr : Expr) (s : tagSearch) :
  cache_sound s -> err s = None -> tag_filter_tree expr ->
  Forall (leaf_resolves (metadata s) (namespace s) (metricName s)) (leaves expr) ->
  err (findTagValueIDsByExpr s expr) = None.
Proof.
  revert s. induction expr as [|f|e IH|e IH|l IHl op r IHr|text]; intros s Hc He Ht Hl;
    try done.
  - rewrite findTagValueIDsByExpr_leaf by done.
    apply findTagValueIDsByTagFilter_resolves; [done|done|]. by apply Forall_inv in Hl.
  - cbn. rewrite He. by apply IH.
  - cbn. rewrite He. by apply IH.
  - cbn [leaves] in Hl. apply Forall_app in Hl as [Hll Hlr].
    assert (Hop : op = AND \/ op = OR) by (destruct op; [by left|by right|done]).
    assert (Ht' : tag_filter_tree l /\ tag_filter_tree r) by (by destruct op).
    destruct Ht' as [Htl Htr].
    rewrite findTagValueIDsByExpr_binary by done.
    pose proof (IHl s Hc He Htl Hll) as Hokl.
    destruct (findTagValueIDsByExpr_harvest l s Hc He Hokl) as [_ Hcl].
    destruct (findTagValueIDsByExpr_same_target l s) as (Hn & Hm & Hmd).
    apply IHr; [done|done|done|]. by rewrite Hn, Hm, Hmd.
Qed.

(** On a resolver without error whose cache is sound, the error after
    evaluating a leaf, and after evaluating a tree, is the first error of
    the depth-first traversal. *)
Lemma findTagValueIDsByTagFilter_first_error (s : tagSearch) (f : TagFilter) :
  cache_sound s -> err s = None ->
  err (findTagValueIDsByTagFilter s f) =
    first_error (metadata s) (namespace s) (metricName s) (TagFilterExpr f).
Proof.
  intros Hc He. unfold findTagValueIDsByTagFilter, getTagKeyID. cbn [first_error].
  destruct (tags s !! TagKey f) as [id|] eqn:Hk.
  - rewrite (Hc _ _ Hk).
    destruct (FindTagValueDsByExpr (metadata s) id f) as [[ids|]|e]; [| |done].
    + by destruct (negb (IsEmpty ids)).
    + done.
  - destruct (GetTagKeyID (metadata s) (namespace s) (metricName s) (TagKey f))
      as [id|e]; [|done].
    destruct (FindTagValueDsByExpr (metadata s) id f) as [[ids|]|e]; [| |done].
    + by destruct (negb (IsEmpty ids)).
    + done.
Qed.

Lemma findTagValueIDsByExpr_first_error (expr : Expr) (s : tagSearch) :
  cache_sound s -> err s = None ->
  err (findTagValueIDsByExpr s expr) =
    first_error (metadata s) (namespace s) (metricName s) expr.
Proof.
  revert s. induction expr as [|f|e IH|e IH|l IHl op r IHr|text]; intros s Hc He.
  - done.
  - rewrite findTagValueIDsByExpr_leaf by done.
    by apply findTagValueIDsByTagFilter_first_error.
  - cbn. rewrite He. by apply IH.
  - cbn. rewrite He. by apply IH.
  - assert (Hbin : op = AND \/ op = OR ->
      err (findTagValueIDsByExpr s (BinaryExpr l op r)) =
      match first_error (metadata s) (namespace s) (metricName s) l with
      | Some e => Some e
      | None => first_error (metadata s) (namespace s) (metricName s) r
      end).
    { intros Hop. rewrite findTagValueIDsByExpr_binary by done.
      pose proof (IHl s Hc He) as Hl.
      destruct (first_error (metadata s) (namespace s) (metricName s) l) as [e|].
      - by rewrite (findTagValueIDsByExpr_latched _ r e).
      - destruct (findTagValueIDsByExpr_harvest l s Hc He Hl) as [_ Hcl].
        destruct (findTagValueIDsByExpr_same_target l s) as (Hn & Hm & Hmd).
        rewrite (IHr _ Hcl Hl). by rewrite Hn, Hm, Hmd. }
    destruct op as [| |name].
    + cbn [first_error]. apply Hbin. by left.
    + cbn [first_error]. apply Hbin. by right.
    + rewrite findTagValueIDsByExpr_wrong_operator by done. done.
  - cbn. by rewrite He.
Qed.

(** C5: the first error of the depth-first traversal is latched and is
    what [Filter] returns.  Once [err] is set every further evaluation
    returns the resolver as it is (no lookup is made, nothing is
    recorded): an error in the left side of an AND or OR makes the right
    side a no-op, whatever it is.  The errors are those of the traversal:
    a binary operator other than AND and OR gives the error "wrong binary
    operator in tag filter: " followed by the operator, without evaluating
    either side; an unknown tag key and a failed index lookup give the
    error of the metadata call, and record no result.  For every tree,
    wherever the error is (under a NOT, under parentheses, in a right
    operand after a left one without error), the error latched by the
    traversal is the first error of the tree in depth-first order, and
    [Filter] on a new resolver returns exactly that error with a nil
    result map, and a result map without error only when the tree has no
    error; a left operand with an error ends the evaluation of an AND or
    OR with that error, the right operand being left alone. *)
Theorem first_error_latched :
  (forall (s : tagSearch) (expr : Expr) (e : error),
     err s = Some e -> findTagValueIDsByExpr s expr = s) /\
  (forall (s : tagSearch) (l r : Expr) (op : BinaryOP) (e : error),
     op = AND \/ op = OR ->
     err (findTagValueIDsByExpr s l) = Some e ->
     findTagValueIDsByExpr s (BinaryExpr l op r) = findTagValueIDsByExpr s l) /\
  (forall (s : tagSearch) (l r : Expr) (name : string),
     err s = None ->
     findTagValueIDsByExpr s (BinaryExpr l (OtherOP name) r) =
       set_err s ("wrong binary operator in tag filter: " +:+ name) /\
     String.prefix "wrong binary operator in tag filter"
       ("wrong binary operator in tag filter: " +:+ name) = true) /\
  (forall (s : tagSearch) (f : TagFilter) (e : error),
     err s = None -> tags s !! TagKey f = None ->
     GetTagKeyID (metadata s) (namespace s) (metricName s) (TagKey f) = Err e ->
     err (findTagValueIDsByExpr s (TagFilterExpr f)) = Some e /\
     result_ (findTagValueIDsByExpr s (TagFilterExpr f)) = result_ s) /\
  (forall (s : tagSearch) (f : TagFilter) (tagKeyID : N) (e : error),
     err s = None -> (getTagKeyID s (TagKey f)).2 = Ok tagKeyID ->
     FindTagValueDsByExpr (metadata s) tagKeyID f = Err e ->
     err (findTagValueIDsByExpr s (TagFilterExpr f)) = Some e /\
     result_ (findTagValueIDsByExpr s (TagFilterExpr f)) = result_ s) /\
  (forall (s : tagSearch) (e : error),
     err (findTagValueIDsByExpr s (condition s)) = Some e ->
     (Filter s).2 = (None, Some e)) /\
  (forall (s : tagSearch) (expr : Expr),
     cache_sound s -> err s = None ->
     err (findTagValueIDsByExpr s expr) =
       first_error (metadata s) (namespace s) (metricName s) expr) /\
  (forall (ns mt : string) (cond : Expr) (md : Metadata),
     (Filter (newTagSearch ns mt cond md)).2 =
       match first_error md ns mt cond with
       | Some e => (None, Some e)
       | None => (Some (result_ (Filter (newTagSearch ns mt cond md)).1), None)
       end) /\
  (forall (s : tagSearch) (l r : Expr) (op : BinaryOP) (e : error),
     cache_sound s -> err s = None -> op = AND \/ op = OR ->
     first_error (metadata s) (namespace s) (metricName s) l = Some e ->
     findTagValueIDsByExpr s (BinaryExpr l op r) = findTagValueIDsByExpr s l /\
     err (findTagValueIDsByExpr s (BinaryExpr l op r)) = Some e).
Proof.
  split; [|split; [|split; [|split; [|split; [|split; [|split; [|split]]]]]]].
  - intros s expr e He. by apply (findTagValueIDsByExpr_latched s expr e).
  - intros s l r op e Hop Hl. destruct (err s) as [x|] eqn:He.
    + by rewrite !(findTagValueIDsByExpr_latched s _ x).
    + rewrite findTagValueIDsByExpr_binary by done.
      by apply (findTagValueIDsByExpr_latched _ r e).
  - intros s l r name He. split; [by apply findTagValueIDsByExpr_wrong_operator|].
    reflexivity.
  - intros s f e He Hk Hg. rewrite findTagValueIDsByExpr_leaf by done.
    unfold findTagValueIDsByTagFilter, getTagKeyID. by rewrite Hk, Hg.
  - intros s f id e He Hid Hfind. rewrite findTagValueIDsByExpr_leaf by done.
    unfold findTagValueIDsByTagFilter.
    destruct (getTagKeyID s (TagKey f)) as [s1 res] eqn:Hget. cbn in Hid. subst res.
    rewrite Hfind. cbn. split; [done|].
    unfold getTagKeyID in Hget. destruct (tags s !! TagKey f).
    + by injection Hget as <-.
    + destruct (GetTagKeyID _ _ _ _); by injection Hget as <-.
  - intros s e He. unfold Filter. by rewrite He.
  - intros s expr Hc He. by apply findTagValueIDsByExpr_first_error.
  - intros ns mt cond md.
    assert (Hc : cache_sound (newTagSearch ns mt cond md)) by (intros k id Hk; done).
    pose proof (findTagValueIDsByExpr_first_error cond _ Hc eq_refl) as Herr.
    cbn [metadata namespace metricName newTagSearch] in Herr.
    unfold Filter. cbn [condition newTagSearch]. rewrite Herr.
    by destruct (first_error md ns mt cond).
  - intros s l r op e Hc He Hop Hl.
    pose proof (findTagValueIDsByExpr_first_error l s Hc He) as Herr. rewrite Hl in Herr.
    rewrite findTagValueIDsByExpr_binary by done.
    by rewrite (findTagValueIDsByExpr_latched _ r e).
Qed.

(** C6: when [Filter] succeeds on a condition, the result is what
    recording each leaf's own match under the leaf's rewritten form gives,
    leaf after leaf in traversal order: every leaf with a non-empty match
    has an entry under its rewritten form; every entry is the match of a
    leaf with that rewritten form, as the index returned it for the leaf
    alone (nothing is combined for AND or OR, nothing inverted for NOT),
    so a leaf without a match adds no entry; and when the leaves have
    pairwise different rewritten forms, each entry is its leaf's match and
    there are as many entries as leaves with a non-empty match.  On a tree
    of leaf filters under parentheses, NOT, AND and OR whose lookups all
    succeed, [Filter] does succeed. *)
Theorem Filter_harvests_leaves (ns mt : string) (cond : Expr) (md : Metadata) :
  (forall res : gmap string tagFilterResult,
     (Filter (newTagSearch ns mt cond md)).2 = (Some res, None) ->
     res = foldl (harvest md ns mt) ∅ (leaves cond) /\
     (forall f, f ∈ leaves cond -> is_Some (leaf_match md ns mt f) ->
                is_Some (res !! Rewrite f)) /\
     (forall k r, res !! k = Some r ->
                  exists f, f ∈ leaves cond /\ Rewrite f = k /\
                            leaf_match md ns mt f = Some r) /\
     (NoDup (map Rewrite (leaves cond)) ->
      (forall f, f ∈ leaves cond -> res !! Rewrite f = leaf_match md ns mt f) /\
      size res = length (filter (fun f => is_Some (leaf_match md ns mt f)) (leaves cond)))) /\
  (tag_filter_tree cond ->
   Forall (leaf_resolves md ns mt) (leaves cond) ->
   exists res, (Filter (newTagSearch ns mt cond md)).2 = (Some res, None)).
Proof.
  assert (Hc : cache_sound (newTagSearch ns mt cond md)) by (intros k id Hk; done).
  split.
  - intros res. unfold Filter. cbn [condition newTagSearch].
    destruct (err (findTagValueIDsByExpr (newTagSearch ns mt cond md) cond)) as [e|] eqn:He;
      [done|].
    cbn. intros [= <-].
    destruct (findTagValueIDsByExpr_harvest cond _ Hc eq_refl He) as [Hres _].
    cbn in Hres. rewrite Hres.
    split; [done|]. split; [|split].
    + intros f Hf Hm. by apply foldl_harvest_present.
    + intros k r Hk. apply foldl_harvest_lookup_inv in Hk as [Hk|Hk]; [done|done].
    + intros Hnd. destruct (foldl_harvest_NoDup md ns mt (leaves cond) ∅ Hnd) as [Hl Hs];
        [done|]. split; [done|]. rewrite Hs. by rewrite map_size_empty.
  - intros Ht Hl. unfold Filter. cbn [condition newTagSearch].
    rewrite (findTagValueIDsByExpr_resolves cond _ Hc eq_refl Ht Hl). eauto.
Qed.

End query_facts.

(** ** The tag search on sample conditions *)
Module query_examples.
Import query query_spec query_facts.

Lemma first_error_latched_witness :
  findTagValueIDsByExpr
    (set_err (newTagSearch "ns" "cpu" xor_condition sample_metadata) "unknown tag key")
    host_a
  = set_err (newTagSearch "ns" "cpu" xor_condition sample_metadata) "unknown tag key" /\
  (Filter (newTagSearch "ns" "cpu" xor_condition sample_metadata)).2 =
    (None, Some "wrong binary operator in tag filter: xor"%string) /\
  calls (Filter (newTagSearch "ns" "cpu" xor_condition sample_metadata)).1 = [] /\
  err (findTagValueIDsByExpr (newTagSearch "ns" "cpu" NilExpr sample_metadata)
         (TagFilterExpr {| TagKey := "rack"; Rewrite := "rack=r1" |}))
  = Some "tag key not found"%string /\
  err (findTagValueIDsByExpr (newTagSearch "ns" "cpu" NilExpr sample_metadata)
         (TagFilterExpr {| TagKey := "host"; Rewrite := "host=c" |}))
  = Some "index lookup failed"%string /\
  (Filter (newTagSearch "ns" "cpu" not_xor_condition sample_metadata)).2 =
    (None, Some "wrong binary operator in tag filter: xor"%string) /\
  (Filter (newTagSearch "ns" "cpu" right_xor_condition sample_metadata)).2 =
    (None, Some "wrong binary operator in tag filter: xor"%string) /\
  (Filter (newTagSearch "ns" "cpu" right_rack_condition sample_metadata)).2 =
    (None, Some "tag key not found"%string) /\
  err (findTagValueIDsByExpr (newTagSearch "ns" "cpu" NilExpr sample_metadata)
         (BinaryExpr (NotExpr (TagFilterExpr {| TagKey := "rack"; Rewrite := "rack=r1" |}))
            OR zone_z))
  = Some "tag key not found"%string.
Proof.
  destruct first_error_latched
    as (Hlatch & Hleft & Hop & Hkey & Hindex & Hfilter & Hfirst & Htree & Hsibling).
  split; [|split; [|split; [|split; [|split; [|split; [|split; [|split]]]]]]].
  - apply (Hlatch _ host_a "unknown tag key"%string). reflexivity.
  - apply Hfilter. cbn [condition newTagSearch]. unfold xor_condition.
    rewrite (Hleft _ _ zone_z AND "wrong binary operator in tag filter: xor"%string);
      [reflexivity | by left | reflexivity].
  - unfold Filter. cbn [condition newTagSearch]. unfold xor_condition.
    rewrite (Hleft _ _ zone_z AND "wrong binary operator in tag filter: xor"%string);
      [reflexivity | by left | reflexivity].
  - apply Hkey; reflexivity.
  - apply (Hindex _ _ 1%N); reflexivity.
  - exact (Htree "ns"%string "cpu"%string not_xor_condition sample_metadata).
  - exact (Htree "ns"%string "cpu"%string right_xor_condition sample_metadata).
  - exact (Htree "ns"%string "cpu"%string right_rack_condition sample_metadata).
  - apply (Hsibling _ _ zone_z OR "tag key not found"%string).
    + intros k id Hk. done.
    + reflexivity.
    + by right.
    + reflexivity.
Defined.

Lemma Filter_harvests_leaves_witness :
  exists res : gmap string tagFilterResult,
    (Filter (newTagSearch "ns" "cpu" sample_condition sample_metadata)).2 = (Some res, None) /\
    size res = 3%nat /\
    res !! "host=a"%string = Some {| tagKey := 1; tagValueIDs := {[ 1%N; 2%N ]} |} /\
    res !! "host=b"%string = Some {| tagKey := 1; tagValueIDs := {[ 3%N ]} |} /\
    res !! "zone=z"%string = Some {| tagKey := 2; tagValueIDs := {[ 7%N ]} |}.
Proof.
  destruct (Filter_harvests_leaves "ns" "cpu" sample_condition sample_metadata)
    as [Hharvest Hsucceeds].
  destruct Hsucceeds as [res Hres].
  { cbn. tauto. }
  { repeat constructor.
    - exists 1%N, (Some {[ 1%N; 2%N ]}). split; reflexivity.
    - exists 1%N, (Some {[ 3%N ]}). split; reflexivity.
    - exists 2%N, (Some {[ 7%N ]}). split; reflexivity. }
  exists res. split; [exact Hres|].
  destruct (Hharvest res Hres) as (_ & _ & _ & Hdistinct).
  destruct Hdistinct as [Hlook Hsize].
  { cbn. apply (bool_decide_unpack _). vm_compute. exact I. }
  split; [rewrite Hsize; reflexivity|].
  split; [|split].
  - apply (Hlook {| TagKey := "host"; Rewrite := "host=a" |}). cbn. repeat constructor.
  - apply (Hlook {| TagKey := "host"; Rewrite := "host=b" |}). cbn. repeat constructor.
  - apply (Hlook {| TagKey := "zone"; Rewrite := "zone=z" |}). cbn. repeat constructor.
Defined.

(** A leaf without a match leaves no entry. *)
Lemma Filter_omits_empty_match :
  (Filter (newTagSearch "ns" "cpu" (BinaryExpr host_a OR zone_none) sample_metadata)).2 =
  (Some {[ "host=a"%string := {| tagKey := 1; tagValueIDs := {[ 1%N; 2%N ]} |} ]}, None).
Proof. vm_compute. reflexivity. Qed.

End query_examples.


(** ** The job manager *)
Module parallel_facts.
Import parallel.

Section JobManager.
Context {TM : Type} `{TaskManager TM}.

(** The requests sent are the same request to a prefix of the tier, the
    whole tier unless a send fails. *)
Lemma sendRequests_sent (indicators : list string) (req : TaskRequest) (tm : TM) :
  exists n,
    (sendRequests tm indicators req).2 = map (fun i => (i, req)) (take n indicators) /\
    (n <= length indicators)%nat /\
    ((sendRequests tm indicators req).1.1 = None -> n = length indicators).
Proof.
  revert tm. induction indicators as [|i rest IH]; intros tm.
  { exists 0%nat. cbn. done. }
  cbn. destruct (SendRequest i req tm) as [[e|] tm1].
  - exists 1%nat. cbn. rewrite take_0. split; [done|]. split; [lia|done].
  - destruct (IH tm1) as (n & Hsent & Hn & Hall).
    destruct (sendRequests tm1 rest req) as [[e tm2] sent]. cbn in *.
    exists (S n). cbn. rewrite Hsent. split; [done|]. split; [lia|].
    intros He. by rewrite Hall.
Qed.

Lemma sendRequests_app (l1 l2 : list string) (req : TaskRequest) (tm tm1 : TM)
    (sent1 : list SendCall) :
  sendRequests tm l1 req = (None, tm1, sent1) ->
  sendRequests tm (l1 ++ l2) req =
    ((sendRequests tm1 l2 req).1.1, (sendRequests tm1 l2 req).1.2,
     sent1 ++ (sendRequests tm1 l2 req).2).
Proof.
  revert tm sent1. induction l1 as [|i l1 IH]; intros tm sent1 Hl1.
  { cbn in Hl1. injection Hl1 as <- <-. cbn. by destruct (sendRequests tm l2 req) as [[? ?] ?]. }
  cbn in Hl1 |- *. destruct (SendRequest i req tm) as [[e|] tm']; [done|].
  destruct (sendRequests tm' l1 req) as [[e1 tm1'] s1] eqn:Hrec.
  injection Hl1 as -> -> <-.
  rewrite (IH tm' s1 Hrec). done.
Qed.

Lemma sendRequests_ok (indicators : list string) (req : TaskRequest) (tm tm1 : TM)
    (sent : list SendCall) :
  sendRequests tm indicators req = (None, tm1, sent) ->
  sent = map (fun i => (i, req)) indicators.
Proof.
  intros Hs. destruct (sendRequests_sent indicators req tm) as (n & Hsent & _ & Hall).
  rewrite Hs in Hsent, Hall. cbn in Hsent, Hall.
  rewrite Hsent, Hall by done. by rewrite firstn_all.
Qed.

(** [SubmitJob] through the names of its intermediate values. *)
Lemma SubmitJob_unfold (j : jobManager) (ctx : JobContext) :
  SubmitJob j ctx =
  let r := sendRequests (SubmitJob_fanout j ctx) (selected_tier (Plan ctx))
             (SubmitJob_request j ctx) in
  ({| taskManager := r.1.2; seq := seq_Inc j;
      jobs := deferred_Store j r.1.1 (seq_Inc j) (any_JobContext ctx) |}, r.1.1, r.2).
Proof.
  unfold SubmitJob, SubmitJob_fanout, SubmitJob_request, selected_tier.
  destruct (AllocTaskID (taskManager j)) as [taskID tm1]. cbn [fst snd].
  destruct (Intermediates (Plan ctx)) as [|i0 rest]; cbn [length Nat.ltb Nat.leb].
  - destruct (Leafs (Plan ctx)) as [|l ls]; cbn [length Nat.ltb Nat.leb].
    + reflexivity.
    + by destruct (sendRequests _ _ _) as [[e tm3] sent].
  - by destruct (sendRequests _ _ _) as [[e tm3] sent].
Qed.

Lemma seq_submit (j : jobManager) (c : submission) : seq (submit j c).1.1 = seq_Inc j.
Proof.
  destruct c as [ctx|ctx plan suggest rs]; cbn.
  - rewrite SubmitJob_unfold. done.
  - unfold SubmitMetadataJob. destruct (AllocTaskID (taskManager j)) as [taskID tm1].
    destruct (0 <? length (Leafs plan))%nat; [|done].
    by destruct (sendRequests _ _ _) as [[e tm3] sent].
Qed.

Lemma allocated_ids_cons (j : jobManager) (c : submission) (cs : list submission) :
  allocated_ids j (c :: cs) = seq_Inc j :: allocated_ids (submit j c).1.1 cs.
Proof.
  unfold allocated_ids. cbn. pose proof (seq_submit j c) as Hseq.
  destruct (submit j c) as [[j1 e] sent]. cbn in Hseq |- *.
  destruct (submit_all j1 cs) as [j2 log]. cbn. by rewrite Hseq.
Qed.

Lemma allocated_ids_length (cs : list submission) (j : jobManager) :
  length (allocated_ids j cs) = length cs.
Proof.
  revert j. induction cs as [|c cs IH]; intros j; [done|].
  rewrite allocated_ids_cons. cbn. by rewrite IH.
Qed.

(** The identifier allocated by call number [i] (from 0) is the counter
    at the start plus [i + 1], truncated to 64 bits. *)
Lemma allocated_ids_lookup (cs : list submission) (j : jobManager) (i : nat) :
  (i < length cs)%nat ->
  allocated_ids j cs !! i = Some (Int64.wrap (seq j + Z.of_nat i + 1)).
Proof.
  revert j i. induction cs as [|c cs IH]; intros j i Hi; [cbn in Hi; lia|].
  rewrite allocated_ids_cons. destruct i as [|i].
  - cbn. unfold seq_Inc, Int64.add. do 2 f_equal. lia.
  - cbn [lookup list_lookup]. cbn in Hi. rewrite IH by lia.
    rewrite seq_submit. unfold seq_Inc, Int64.add.
    f_equal. rewrite <- Z.add_assoc, Int64_facts.wrap_add_l. f_equal. lia.
Qed.

Lemma allocated_ids_increasing (cs : list submission) (j : jobManager) :
  Int64.min_int <= seq j ->
  seq j + Z.of_nat (length cs) <= Int64.max_int ->
  StronglySorted Z.lt (allocated_ids j cs) /\
  Forall (fun id => seq j < id <= seq j + Z.of_nat (length cs)) (allocated_ids j cs).
Proof.
  revert j. induction cs as [|c cs IH]; intros j Hlo Hhi.
  { split; constructor. }
  rewrite allocated_ids_cons. cbn [length] in Hhi |- *.
  assert (Hinc : seq_Inc j = seq j + 1).
  { unfold seq_Inc, Int64.add. apply Int64_facts.wrap_small.
    unfold Int64.min_int, Int64.max_int in *. lia. }
  destruct (IH (submit j c).1.1) as [Hs Hall].
  { rewrite seq_submit, Hinc. lia. }
  { rewrite seq_submit, Hinc. lia. }
  rewrite seq_submit, Hinc in Hall.
  split; constructor.
  - done.
  - rewrite Hinc. eapply Forall_impl; [exact Hall|]. cbn. intros; lia.
  - rewrite Hinc. lia.
  - eapply Forall_impl; [exact Hall|]. cbn. intros; lia.
Qed.

Lemma jobs_submit (j : @jobManager TM) (c : submission) :
  jobs (submit j c).1.1 = jobs j \/
  exists job, jobs (submit j c).1.1 = <[seq_Inc j := job]> (jobs j).
Proof.
  destruct c as [ctx|ctx plan suggest rs]; cbn.
  - rewrite SubmitJob_unfold. cbn.
    destruct (sendRequests _ _ _).1.1; cbn; [by left | right; eauto].
  - unfold SubmitMetadataJob. destruct (AllocTaskID (taskManager j)) as [taskID tm1].
    destruct (0 <? length (Leafs plan))%nat; [|right; cbn; eauto].
    destruct (sendRequests _ _ _) as [[[e|] tm3] sent]; cbn; [by left | right; eauto].
Qed.

(** The identifier the next call allocates is not registered yet, on a
    new job manager and after every call that leaves room in the counter. *)
Lemma seq_Inc_fresh (j : @jobManager TM) :
  parallel_spec.registry_below_counter j ->
  seq_Inc j = seq j + 1 /\ jobs j !! seq_Inc j = None.
Proof.
  intros [Hseq Hjobs].
  assert (Hinc : seq_Inc j = seq j + 1).
  { unfold seq_Inc, Int64.add. apply Int64_facts.wrap_small.
    unfold Int64.min_int, Int64.max_int in *. lia. }
  split; [done|]. rewrite Hinc.
  destruct (jobs j !! (seq j + 1)) as [job|] eqn:Hjob; [|done].
  apply Hjobs in Hjob. lia.
Qed.

Lemma NewJobManager_registry (tm : TM) :
  parallel_spec.registry_below_counter (NewJobManager tm).
Proof.
  split; [cbn; unfold Int64.max_int; lia|]. intros id job Hjob. cbn in Hjob.
  by rewrite lookup_empty in Hjob.
Qed.

Lemma submit_registry (j : @jobManager TM) (c : submission) :
  parallel_spec.registry_below_counter j ->
  seq j + 1 < Int64.max_int ->
  parallel_spec.registry_below_counter (submit j c).1.1.
Proof.
  intros Hinv Hroom. destruct (seq_Inc_fresh j Hinv) as [Hinc _].
  destruct Hinv as [Hseq Hjobs]. split.
  - rewrite seq_submit, Hinc. lia.
  - intros id job. rewrite seq_submit, Hinc.
    destruct (jobs_submit j c) as [->|[job' ->]].
    + intros Hjob%Hjobs. lia.
    + rewrite Hinc. destruct (decide (seq j + 1 = id)) as [<-|Hne].
      * intros _. lia.
      * rewrite lookup_insert_ne by done. intros Hjob%Hjobs. lia.
Qed.


(** C2: when the first [k] sends of the selected tier succeed and the
    send to its node number [k] fails with [e], [SubmitJob] has called
    [SendRequest] for the nodes 0 to [k] and for no later node, returns
    [e], and leaves the job registry as it was; the job identifier it
    allocated, when not registered before, resolves to no job. *)
Theorem SubmitJob_dispatch_failure (j : jobManager) (ctx : JobContext) (k : nat)
    (indicator : string) (e : error) (tmk tmf : TM) (sentk : list SendCall) :
  selected_tier (Plan ctx) !! k = Some indicator ->
  sendRequests (SubmitJob_fanout j ctx) (take k (selected_tier (Plan ctx)))
    (SubmitJob_request j ctx) = (None, tmk, sentk) ->
  SendRequest indicator (SubmitJob_request j ctx) tmk = (Some e, tmf) ->
  SubmitJob j ctx =
    ({| taskManager := tmf; seq := seq_Inc j; jobs := jobs j |}, Some e,
     map (fun i => (i, SubmitJob_request j ctx)) (take (S k) (selected_tier (Plan ctx)))) /\
  (jobs j !! seq_Inc j = None -> GetJob (SubmitJob j ctx).1.1 (seq_Inc j) = None).
Proof.
  intros Hk Hfirst Hfail.
  assert (Hsubmit : SubmitJob j ctx =
    ({| taskManager := tmf; seq := seq_Inc j; jobs := jobs j |}, Some e,
     map (fun i => (i, SubmitJob_request j ctx)) (take (S k) (selected_tier (Plan ctx))))).
  { assert (Hsend : sendRequests (SubmitJob_fanout j ctx) (selected_tier (Plan ctx))
                      (SubmitJob_request j ctx) =
                    (Some e, tmf, map (fun i => (i, SubmitJob_request j ctx))
                                    (take (S k) (selected_tier (Plan ctx))))).
    { rewrite <- (take_drop_middle (selected_tier (Plan ctx)) k indicator Hk) at 1.
      rewrite (sendRequests_app _ _ _ _ _ _ Hfirst).
      cbn [sendRequests]. rewrite Hfail. cbn.
      rewrite (sendRequests_ok _ _ _ _ _ Hfirst).
      rewrite (take_S_r _ _ _ Hk), map_app. done. }
    rewrite SubmitJob_unfold, Hsend. done. }
  split; [exact Hsubmit|].
  intros Hfresh. rewrite Hsubmit. unfold GetJob. cbn. by rewrite Hfresh.
Qed.

(** C8: on a job manager whose counter is at [seq j] (0 after
    [NewJobManager]), a run of calls that keeps the counter within 64
    bits, which from a new job manager is every run of fewer than 2^63
    calls, allocates the identifiers [seq j + 1], [seq j + 2], ... in call
    order, whatever the calls return: each is greater than the counter at
    the start and than every identifier allocated before it, and none is
    allocated twice. *)
Theorem job_ids_increase (j : jobManager) (cs : list submission) :
  Int64.min_int <= seq j ->
  seq j + Z.of_nat (length cs) <= Int64.max_int ->
  (forall i, (i < length cs)%nat ->
             allocated_ids j cs !! i = Some (seq j + Z.of_nat i + 1)) /\
  StronglySorted Z.lt (allocated_ids j cs) /\
  Forall (fun id => seq j < id) (allocated_ids j cs) /\
  NoDup (allocated_ids j cs).
Proof.
  intros Hlo Hhi.
  destruct (allocated_ids_increasing cs j Hlo Hhi) as [Hs Hall].
  split; [|split; [done|split]].
  - intros i Hi. rewrite allocated_ids_lookup by done. f_equal.
    apply Int64_facts.wrap_small. unfold Int64.min_int, Int64.max_int in *. lia.
  - eapply Forall_impl; [exact Hall|]. cbn. intros; lia.
  - by apply sort_Sort_facts.StronglySorted_lt_NoDup.
Qed.

(** A successful [SubmitMetadataJob] stores its [context.Context], which
    [GetJob] does not return. *)
Lemma SubmitMetadataJob_stores_context (j : jobManager) (ctx : context_Context)
    (plan : PhysicalPlan) (suggest : stmt_Metadata) (resultSet : chan) :
  (SubmitMetadataJob j ctx plan suggest resultSet).1.2 = None ->
  jobs (SubmitMetadataJob j ctx plan suggest resultSet).1.1 !! seq_Inc j
    = Some (any_Context ctx) /\
  GetJob (SubmitMetadataJob j ctx plan suggest resultSet).1.1 (seq_Inc j) = None.
Proof.
  unfold SubmitMetadataJob, GetJob.
  destruct (AllocTaskID (taskManager j)) as [taskID tm1].
  destruct (0 <? length (Leafs plan))%nat.
  - destruct (sendRequests _ _ _) as [[e tm3] sent]. cbn. intros ->. cbn.
    by rewrite lookup_insert_eq.
  - cbn. intros _. by rewrite lookup_insert_eq.
Qed.

(** A successful [SubmitJob] registers the job context. *)
Lemma SubmitJob_registers (j : jobManager) (ctx : JobContext) :
  (SubmitJob j ctx).1.2 = None ->
  GetJob (SubmitJob j ctx).1.1 (seq_Inc j) = Some ctx.
Proof.
  rewrite SubmitJob_unfold. cbn. intros ->. unfold GetJob. cbn.
  by rewrite lookup_insert_eq.
Qed.

End JobManager.

End parallel_facts.

(** ** The job manager on sample plans *)
Module parallel_examples.
Import parallel parallel_spec parallel_facts.

(** C1 at a failing input: [SubmitMetadataJob] with [context.Background()]
    on a plan of two reachable leaves returns nil after sending to both,
    the counter is 1 and the registry holds the context under 1, yet
    [GetJob 1] is the nil job context; the same plan submitted by
    [SubmitJob] is found under its identifier. *)
Theorem SubmitMetadataJob_job_not_found :
  (SubmitMetadataJob (NewJobManager (stub [])) context_Background leaf_plan
     suggest_hosts 2%nat).1.2 = None /\
  map fst (SubmitMetadataJob (NewJobManager (stub [])) context_Background leaf_plan
             suggest_hosts 2%nat).2 = ["leaf-1"; "leaf-2"]%string /\
  seq (SubmitMetadataJob (NewJobManager (stub [])) context_Background leaf_plan
         suggest_hosts 2%nat).1.1 = 1 /\
  jobs (SubmitMetadataJob (NewJobManager (stub [])) context_Background leaf_plan
          suggest_hosts 2%nat).1.1 !! 1 = Some (any_Context context_Background) /\
  GetJob (SubmitMetadataJob (NewJobManager (stub [])) context_Background leaf_plan
            suggest_hosts 2%nat).1.1 1 = None /\
  GetJob (SubmitJob (NewJobManager (stub [])) (job_of leaf_plan)).1.1 1
    = Some (job_of leaf_plan).
Proof. vm_compute. repeat split; reflexivity. Qed.


Lemma SubmitJob_dispatch_failure_witness :
  SubmitJob (NewJobManager (stub ["mid-2"%string])) (job_of tiered_plan) =
    ({| taskManager := SubmitJob_fanout (NewJobManager (stub ["mid-2"%string]))
                         (job_of tiered_plan);
        seq := 1; jobs := ∅ |},
     Some "no route to mid-2"%string,
     [ ("mid-1"%string,
        SubmitJob_request (NewJobManager (stub ["mid-2"%string])) (job_of tiered_plan));
       ("mid-2"%string,
        SubmitJob_request (NewJobManager (stub ["mid-2"%string])) (job_of tiered_plan)) ]) /\
  GetJob (SubmitJob (NewJobManager (stub ["mid-2"%string])) (job_of tiered_plan)).1.1 1 = None.
Proof.
  destruct (SubmitJob_dispatch_failure (NewJobManager (stub ["mid-2"%string]))
              (job_of tiered_plan) 1 "mid-2"%string "no route to mid-2"%string
              (SubmitJob_fanout (NewJobManager (stub ["mid-2"%string])) (job_of tiered_plan))
              (SubmitJob_fanout (NewJobManager (stub ["mid-2"%string])) (job_of tiered_plan))
              [ ("mid-1"%string,
                 SubmitJob_request (NewJobManager (stub ["mid-2"%string]))
                   (job_of tiered_plan)) ])
    as [Hsubmit Hget].
  - reflexivity.
  - reflexivity.
  - reflexivity.
  - split; [exact Hsubmit|]. apply Hget. reflexivity.
Defined.

Lemma job_ids_increase_witness :
  allocated_ids (NewJobManager (stub ["mid-2"%string]))
    [ call_SubmitJob (job_of leaf_plan);
      call_SubmitJob (job_of tiered_plan);
      call_SubmitMetadataJob context_Background leaf_plan suggest_hosts 2%nat ] !! 2%nat
  = Some 3 /\
  StronglySorted Z.lt
    (allocated_ids (NewJobManager (stub ["mid-2"%string]))
       [ call_SubmitJob (job_of leaf_plan);
         call_SubmitJob (job_of tiered_plan);
         call_SubmitMetadataJob context_Background leaf_plan suggest_hosts 2%nat ]).
Proof.
  destruct (job_ids_increase (NewJobManager (stub ["mid-2"%string]))
              [ call_SubmitJob (job_of leaf_plan);
                call_SubmitJob (job_of tiered_plan);
                call_SubmitMetadataJob context_Background leaf_plan suggest_hosts 2%nat ])
    as (Hlookup & Hsorted & _ & _).
  - cbn. unfold Int64.min_int. lia.
  - cbn. unfold Int64.max_int. lia.
  - split; [|exact Hsorted]. apply (Hlookup 2%nat). cbn. lia.
Defined.

(** The bound on the run is the range of the 64-bit counter, which no
    coordinator comes near: call number 2^63 on a new job manager would be
    the first to wrap around. *)
Lemma job_ids_wrap_after_2_63_calls :
  allocated_ids (NewJobManager (stub []))
    (replicate (Z.to_nat (2 ^ 63)) (call_SubmitJob (job_of empty_plan)))
    !! Z.to_nat (2 ^ 63 - 2) = Some (2 ^ 63 - 1) /\
  allocated_ids (NewJobManager (stub []))
    (replicate (Z.to_nat (2 ^ 63)) (call_SubmitJob (job_of empty_plan)))
    !! Z.to_nat (2 ^ 63 - 1) = Some (- 2 ^ 63) /\
  - 2 ^ 63 < 2 ^ 63 - 1.
Proof.
  split; [|split; [|lia]].
  - rewrite allocated_ids_lookup by (rewrite length_replicate; lia).
    rewrite Z2Nat.id by lia. reflexivity.
  - rewrite allocated_ids_lookup by (rewrite length_replicate; lia).
    rewrite Z2Nat.id by lia. reflexivity.
Qed.

End parallel_examples.

(** * Further properties *)

(** ** The field store: lookup, removal and insertion *)
Module memdb_laws.
Import memdb memdb_spec memdb_runs memdb_facts.

Lemma filter_ne_absent (l : list Z) (t : Z) :
  t ∉ l -> filter (fun x => x <> t) l = l.
Proof.
  induction l as [|x l IH]; intros Ht; [done|].
  apply not_elem_of_cons in Ht as [Hne Ht].
  rewrite filter_cons, decide_True by done. by rewrite IH.
Qed.

Lemma filter_ne_delete (l : list Z) (i : nat) (t : Z) :
  NoDup l -> l !! i = Some t -> filter (fun x => x <> t) l = delete i l.
Proof.
  revert i. induction l as [|x l IH]; intros i Hnd Hi; [done|].
  apply NoDup_cons in Hnd as [Hx Hnd]. destruct i as [|i]; cbn in Hi.
  - injection Hi as ->. rewrite filter_cons, decide_False by (intros Hne; by apply Hne).
    cbn. by apply filter_ne_absent.
  - assert (x <> t) by (intros ->; apply Hx, list_elem_of_lookup; eauto).
    rewrite filter_cons, decide_True by done. cbn. by rewrite (IH i).
Qed.

Section FieldStore.
Context {S : Type} `{sStoreINTF S}.
Local Abbreviation heap := (list S).

(** [removeSStore] repeats the search of [getSStore]. *)
Lemma removeSStore_getSStore (h : heap) (fs : fieldStore) (familyTime : Z) :
  removeSStore h fs familyTime =
  match getSStore h fs familyTime with
  | None => fs
  | Some _ =>
      set_sStoreNodes fs (delete (searchSStore h fs familyTime) (sStoreNodes fs))
  end.
Proof.
  unfold removeSStore, getSStore.
  destruct (sStoreNodes fs !! searchSStore h fs familyTime) as [p|]; [|done].
  by case_bool_decide.
Qed.

(** [getSStore] never returns a segment of another family time, nor one
    the store does not hold; on a store sorted by family time it returns
    the segment of the family time whenever the store holds one, so it
    returns nothing only when there is none. *)
Theorem getSStore_finds (h : heap) (fs : fieldStore) (familyTime : Z) (p : loc) :
  (getSStore h fs familyTime = Some p ->
   p ∈ sStoreNodes fs /\ familyTimeAt h p = familyTime) /\
  (StronglySorted Z.lt (familyTimes h fs) ->
   p ∈ sStoreNodes fs -> familyTimeAt h p = familyTime ->
   getSStore h fs familyTime = Some p) /\
  (StronglySorted Z.lt (familyTimes h fs) ->
   getSStore h fs familyTime = None -> familyTime ∉ familyTimes h fs).
Proof.
  split; [|split].
  - intros [Hp Hft]%getSStore_Some. split; [|done].
    apply list_elem_of_lookup. eauto.
  - intros Hs [i Hi]%list_elem_of_lookup <-. by apply (getSStore_found h fs i).
  - apply getSStore_None.
Qed.

(** [removeSStore] takes at most one segment out of the store, one of
    the family time asked for, and keeps the others in their order; on a
    store sorted by family time the family times left are those of before
    without the one removed. *)
Theorem removeSStore_removes (h : heap) (fs : fieldStore) (familyTime : Z) :
  (removeSStore h fs familyTime = fs \/
   exists i p, sStoreNodes fs !! i = Some p /\ familyTimeAt h p = familyTime /\
               removeSStore h fs familyTime =
                 set_sStoreNodes fs (delete i (sStoreNodes fs))) /\
  (StronglySorted Z.lt (familyTimes h fs) ->
   familyTimes h (removeSStore h fs familyTime) =
     filter (fun t => t <> familyTime) (familyTimes h fs)).
Proof.
  rewrite removeSStore_getSStore. split.
  - destruct (getSStore h fs familyTime) as [p|] eqn:Hg; [|by left].
    apply getSStore_Some in Hg as [Hp Hft]. right. eauto.
  - intros Hs. destruct (getSStore h fs familyTime) as [p|] eqn:Hg.
    + apply getSStore_Some in Hg as [Hp Hft].
      rewrite familyTimes_delete. symmetry. apply filter_ne_delete.
      * by apply sort_Sort_facts.StronglySorted_lt_NoDup.
      * by rewrite familyTimes_lookup, Hp, <- Hft.
    + symmetry. apply filter_ne_absent. by apply getSStore_None.
Qed.

(** [flushFieldTo] called for one family time leaves what the store
    finds for every other family time as it was. *)
Theorem flushFieldTo_other_families (h : heap) (fs : fieldStore) (tf : TableFlusher)
    (familyTime other : Z) :
  sorted_unique h fs -> other <> familyTime ->
  getSStore h (flushFieldTo h fs tf familyTime).1.1.1 other = getSStore h fs other.
Proof.
  intros Hinv Hne. pose proof Hinv as [Hvalid Hs].
  assert (Hfs : (flushFieldTo h fs tf familyTime).1.1.1 = removeSStore h fs familyTime).
  { unfold flushFieldTo. rewrite removeSStore_getSStore.
    destruct (getSStore h fs familyTime) as [p|]; [|done].
    destruct (h !! p) as [s|]; [|done]. by destruct (bytes s) as [[[d a] b]|e]. }
  rewrite Hfs, removeSStore_getSStore.
  destruct (getSStore h fs familyTime) as [p|] eqn:Hg; [|done].
  apply getSStore_Some in Hg as [Hp Hft].
  set (i := searchSStore h fs familyTime) in *.
  pose proof (sorted_unique_delete h fs i Hinv) as [_ Hs'].
  destruct (getSStore h fs other) as [q|] eqn:Hq.
  - apply getSStore_Some in Hq as [Hq Hqt].
    assert (Hin : q ∈ delete i (sStoreNodes fs)).
    { pose proof (delete_Permutation _ _ _ Hp) as Hperm.
      assert (q ∈ sStoreNodes fs) as Hqin by (apply list_elem_of_lookup; eauto).
      rewrite Hperm in Hqin. apply elem_of_cons in Hqin as [->|Hqin]; [congruence|done]. }
    apply list_elem_of_lookup in Hin as [k Hk].
    rewrite <- Hqt. by apply (getSStore_found h _ k).
  - apply getSStore_absent. rewrite familyTimes_delete.
    intros Hin%list_elem_of_delete_inv. by apply (getSStore_None h fs other Hs Hq).
Qed.

(** Whatever the store, [flushFieldTo] answers true exactly when it has
    passed one new call to the table flusher, made of the store's field
    identifier and type and of the bytes and slot range of a segment the
    store held for that family time; otherwise the flusher is left as it
    was.  Calls already received are never changed, and the store loses at
    most one segment, keeping its name, type and identifier. *)
Theorem flushFieldTo_calls (h : heap) (fs : fieldStore) (tf : TableFlusher) (familyTime : Z) :
  ((flushFieldTo h fs tf familyTime).1.2 = true ->
   exists p s data startSlot endSlot,
     p ∈ sStoreNodes fs /\ h !! p = Some s /\ getFamilyTime s = familyTime /\
     bytes s = Ok (data, startSlot, endSlot) /\
     (flushFieldTo h fs tf familyTime).1.1.2 =
       tf ++ [ {| ff_fieldID := fieldID fs; ff_fieldType := fieldType fs; ff_data := data;
                  ff_startSlot := startSlot; ff_endSlot := endSlot |} ]) /\
  ((flushFieldTo h fs tf familyTime).1.2 = false ->
   (flushFieldTo h fs tf familyTime).1.1.2 = tf) /\
  (length (sStoreNodes fs) <= length (sStoreNodes (flushFieldTo h fs tf familyTime).1.1.1) + 1)%nat /\
  sStoreNodes (flushFieldTo h fs tf familyTime).1.1.1 `sublist_of` sStoreNodes fs /\
  fieldName (flushFieldTo h fs tf familyTime).1.1.1 = fieldName fs /\
  fieldType (flushFieldTo h fs tf familyTime).1.1.1 = fieldType fs /\
  fieldID (flushFieldTo h fs tf familyTime).1.1.1 = fieldID fs.
Proof.
  unfold flushFieldTo. rewrite removeSStore_getSStore.
  destruct (getSStore h fs familyTime) as [p|] eqn:Hg.
  - apply getSStore_Some in Hg as [Hp Hft].
    pose proof (lookup_lt_Some _ _ _ Hp) as Hlen.
    assert (Hdel : (length (sStoreNodes fs) <=
              length (delete (searchSStore h fs familyTime) (sStoreNodes fs)) + 1)%nat).
    { rewrite length_delete by eauto. lia. }
    assert (Hsub : delete (searchSStore h fs familyTime) (sStoreNodes fs)
                     `sublist_of` sStoreNodes fs) by apply sublist_delete.
    destruct (h !! p) as [s|] eqn:Hs; [|cbn; repeat split; done].
    assert (getFamilyTime s = familyTime) by (unfold familyTimeAt in Hft; by rewrite Hs in Hft).
    destruct (bytes s) as [[[d a] b]|e] eqn:Hb; cbn; repeat split; try done.
    intros _. exists p, s, d, a, b. repeat split; try done.
    apply list_elem_of_lookup. eauto.
  - cbn. repeat split; try done. lia.
Qed.

(** Two lists of segments, each in strictly ascending order of family
    time, that hold the same segments are the same list. *)
Lemma sorted_nodes_unique (h : heap) (l1 l2 : list loc) :
  StronglySorted Z.lt (map (familyTimeAt h) l1) ->
  StronglySorted Z.lt (map (familyTimeAt h) l2) ->
  l1 ≡ₚ l2 -> l1 = l2.
Proof.
  assert (Hconv : forall l, StronglySorted Z.lt (map (familyTimeAt h) l) ->
            StronglySorted (fun p q => familyTimeAt h p < familyTimeAt h q) l).
  { induction l as [|x l IH]; intros Hl; [constructor|].
    change (StronglySorted Z.lt (familyTimeAt h x :: map (familyTimeAt h) l)) in Hl.
    apply StronglySorted_inv in Hl as [Hl Hx]. constructor; [by apply IH|].
    apply Forall_forall. intros q Hq.
    apply (proj1 (Forall_forall _ _) Hx). by apply list_elem_of_fmap_2. }
  intros H1%Hconv H2%Hconv Hperm.
  assert (AntiSymm (=) (fun p q : loc => familyTimeAt h p < familyTimeAt h q))
    by (intros x y ? ?; lia).
  by apply (StronglySorted_unique (fun p q => familyTimeAt h p < familyTimeAt h q)).
Qed.

(** Inserting a segment of a family time the sorted store does not hold
    keeps every segment, leaves the store sorted, and makes the segment the
    one found for its family time; removing that family time again gives
    back the store as it was. *)
Theorem insertSStore_then_removeSStore (h : heap) (fs : fieldStore) (p : loc) :
  StronglySorted Z.lt (familyTimes h fs) ->
  familyTimeAt h p ∉ familyTimes h fs ->
  sStoreNodes (insertSStore h fs p) ≡ₚ sStoreNodes fs ++ [p] /\
  StronglySorted Z.lt (familyTimes h (insertSStore h fs p)) /\
  getSStore h (insertSStore h fs p) (familyTimeAt h p) = Some p /\
  removeSStore h (insertSStore h fs p) (familyTimeAt h p) = fs.
Proof.
  intros Hs Hnew.
  assert (Hperm : sStoreNodes (insertSStore h fs p) ≡ₚ sStoreNodes fs ++ [p])
    by apply (sort_Sort_facts.Sort_Permutation (familyTimeAt h)).
  assert (Hs' : StronglySorted Z.lt (familyTimes h (insertSStore h fs p))).
  { unfold familyTimes. cbn. apply (sort_Sort_facts.Sort_sorted (familyTimeAt h)).
    rewrite map_app. cbn. apply NoDup_app.
    split; [by apply sort_Sort_facts.StronglySorted_lt_NoDup|].
    split; [|apply NoDup_singleton]. intros x Hx ->%list_elem_of_singleton. done. }
  assert (Hin : p ∈ sStoreNodes (insertSStore h fs p)).
  { rewrite Hperm. apply elem_of_app. right. by apply list_elem_of_singleton. }
  apply list_elem_of_lookup in Hin as [i Hi].
  pose proof (getSStore_found h _ i p Hs' Hi) as Hget.
  split; [done|]. split; [done|]. split; [done|].
  rewrite (removeSStore_found h _ i p Hs' Hi).
  assert (Hnodes : delete i (sStoreNodes (insertSStore h fs p)) = sStoreNodes fs).
  { apply (sorted_nodes_unique h).
    - pose proof (sort_Sort_facts.StronglySorted_delete _ _ i Hs') as Hd.
      by rewrite <- familyTimes_delete in Hd.
    - done.
    - apply (Permutation_cons_inv (a := p)).
      rewrite <- (delete_Permutation _ _ _ Hi), Hperm. by rewrite Permutation_app_comm. }
  rewrite Hnodes. by destruct fs.
Qed.

(** The length of the node list after a write and after a flush. *)
Lemma write_length (h : heap) (fs : fieldStore) (f : pb_Field) (c : writeContext) :
  (length (sStoreNodes (write h fs f c).1.2) <=
   length (sStoreNodes fs) + sum_writes [op_write f c])%nat.
Proof.
  destruct f as [name [v|kind]]; cbn [sum_writes Field].
  - destruct (getSStore h fs (familyTime c)) as [p|] eqn:Hg.
    + rewrite (write_Sum_existing h fs name v c p Hg). cbn. lia.
    + rewrite (write_Sum_new h fs name v c Hg). cbn [fst snd].
      set (h1 := h ++ [newSimpleFieldStore (familyTime c) (field_GetAggFunc field_Sum)]).
      assert (Hlen : length (sStoreNodes (insertSStore h1 fs (length h))) =
                     length (sStoreNodes fs ++ [length h])).
      { apply Permutation_length, (sort_Sort_facts.Sort_Permutation (familyTimeAt h1)). }
      rewrite Hlen, length_app. cbn. lia.
  - rewrite write_Other. cbn. lia.
Qed.

Lemma flushFieldTo_length (h : heap) (fs : fieldStore) (tf : TableFlusher) (familyTime : Z) :
  (length (flushFieldTo h fs tf familyTime).1.1.2 +
   length (sStoreNodes (flushFieldTo h fs tf familyTime).1.1.1) <=
   length tf + length (sStoreNodes fs))%nat.
Proof.
  unfold flushFieldTo. rewrite removeSStore_getSStore.
  destruct (getSStore h fs familyTime) as [p|] eqn:Hg; [|cbn; lia].
  apply getSStore_Some in Hg as [Hp _]. pose proof (lookup_lt_Some _ _ _ Hp) as Hlen.
  assert (Hdel : (length (delete (searchSStore h fs familyTime) (sStoreNodes fs)) + 1 =
                 length (sStoreNodes fs))%nat).
  { rewrite length_delete by eauto. lia. }
  destruct (h !! p) as [s|]; [|cbn; lia].
  destruct (bytes s) as [[[d a] b]|e]; cbn; [|lia].
  unfold FlushField. rewrite length_app. cbn. lia.
Qed.

(** In a run of writes and flushes, the calls the table flusher receives
    and the segments still buffered are together at most those at the start
    plus one per sum written: from a new store, no more segments are ever
    flushed than sums were written. *)
Theorem run_flushes_what_was_written (os : list operation)
    (h : heap) (fs : fieldStore) (tf : TableFlusher) :
  (length (run (h, fs, tf) os).2 + length (sStoreNodes (run (h, fs, tf) os).1.2) <=
   length tf + length (sStoreNodes fs) + sum_writes os)%nat.
Proof.
  revert h fs tf. induction os as [|o os IH]; intros h fs tf; [cbn; lia|].
  unfold run in *. cbn [foldl]. destruct o as [f c|ft].
  - rewrite apply_write. specialize (IH (write h fs f c).1.1 (write h fs f c).1.2 tf).
    pose proof (write_length h fs f c) as Hw.
    assert (sum_writes (op_write f c :: os) =
            sum_writes [op_write f c] + sum_writes os)%nat as ->
      by (cbn; by destruct f as [? [?|?]]).
    lia.
  - cbn [apply]. pose proof (flushFieldTo_length h fs tf ft) as Hf.
    destruct (flushFieldTo h fs tf ft) as [[[fs1 tf1] b] lg]. cbn in Hf.
    specialize (IH h fs1 tf1). cbn [sum_writes]. lia.
Qed.

(** [timeRange] never invents a time: with a contributing segment,
    [Start] is the start time of one of them and [End] the end time of one
    of them, also when times are 0 or negative; and the range always
    reaches the last contributing segment, [Start] being at most its start
    time and [End] at least its end time. *)
Theorem timeRange_endpoints (h : heap) (fs : fieldStore) (interval : Z)
    (cs : list (Z * Z)) (c : Z * Z) :
  contributions interval h fs = cs ++ [c] ->
  Start (timeRange h fs interval).1 ∈ map fst (cs ++ [c]) /\
  End (timeRange h fs interval).1 ∈ map snd (cs ++ [c]) /\
  Start (timeRange h fs interval).1 <= c.1 /\
  c.2 <= End (timeRange h fs interval).1.
Proof.
  intros Hc. unfold timeRange. rewrite foldl_timeRange_step.
  fold (contributions interval h fs). rewrite Hc. clear Hc.
  assert (Hin : forall l acc,
    (Start (foldl accumulate acc l).1 = Start acc.1 \/
     Start (foldl accumulate acc l).1 ∈ map fst l) /\
    (End (foldl accumulate acc l).1 = End acc.1 \/
     End (foldl accumulate acc l).1 ∈ map snd l)).
  { induction l as [|x l IH]; intros acc; [split; by left|].
    cbn [foldl]. destruct (IH (accumulate acc x)) as [HS HE]. split.
    - destruct HS as [HS|HS]; [|right; cbn; by right].
      rewrite HS. cbn. case_bool_decide; [right; by left | by left].
    - destruct HE as [HE|HE]; [|right; cbn; by right].
      rewrite HE. cbn. case_bool_decide; [right; by left | by left]. }
  rewrite foldl_app. cbn [foldl].
  set (acc := foldl accumulate ({| Start := 0; End := 0 |}, false) cs).
  destruct (Hin cs ({| Start := 0; End := 0 |}, false)) as [HS HE]. fold acc in HS, HE.
  cbn [accumulate fst snd Start End]. rewrite !map_app. cbn [map].
  repeat split.
  - case_bool_decide as Hd; [apply elem_of_app; right; by left|].
    destruct HS as [HS|HS]; [cbn in HS; exfalso; apply Hd; by left|].
    apply elem_of_app. by left.
  - case_bool_decide as Hd; [apply elem_of_app; right; by left|].
    destruct HE as [HE|HE]; [cbn in HE; exfalso; apply Hd; by left|].
    apply elem_of_app. by left.
  - case_bool_decide as Hd; lia.
  - case_bool_decide as Hd; lia.
Qed.

Context `{!sStoreContract S}.

(** A write of whatever field at one family time leaves what the store
    finds for every other family time as it was, segment and content, and
    never changes the store's name, type and identifier. *)
Theorem write_other_families (h : heap) (fs : fieldStore) (f : pb_Field)
    (c : writeContext) (other : Z) :
  sorted_unique h fs -> other <> familyTime c ->
  getSStore (write h fs f c).1.1 (write h fs f c).1.2 other = getSStore h fs other /\
  (forall q, getSStore h fs other = Some q -> (write h fs f c).1.1 !! q = h !! q) /\
  fieldName (write h fs f c).1.2 = fieldName fs /\
  fieldType (write h fs f c).1.2 = fieldType fs /\
  fieldID (write h fs f c).1.2 = fieldID fs.
Proof.
  intros Hinv Hne. destruct f as [name [v|kind]]; [|by rewrite write_Other].
  pose proof Hinv as [Hvalid Hs]. rewrite Forall_forall in Hvalid.
  destruct (write_Sum_effect h fs name v c Hinv)
    as (h1 & fs1 & p & s0 & Hw & Hinv1 & _ & Hkeys & Hsub & _ & Hft & _ & Hcase).
  pose proof Hinv1 as [_ Hs1].
  assert (Hheap : forall q, q ∈ sStoreNodes fs -> familyTimeAt h q = other ->
                            (write h fs
                               {| Name := name; Field := pb_Field_Sum v |} c).1.1 !! q = h !! q).
  { intros q Hq Hqt. destruct (getSStore h fs (familyTime c)) as [p'|] eqn:Hg.
    - rewrite (write_Sum_existing h fs name v c p' Hg). cbn.
      apply getSStore_Some in Hg as [_ Hp']. apply list_lookup_alter_ne. congruence.
    - rewrite (write_Sum_new h fs name v c Hg). cbn.
      pose proof (Hvalid q Hq). rewrite list_lookup_alter_ne by lia.
      by apply lookup_app_l. }
  assert (Hid : fieldName fs1 = fieldName fs /\ fieldType fs1 = fieldType fs /\
                fieldID fs1 = fieldID fs).
  { destruct (getSStore h fs (familyTime c)) as [p'|] eqn:Hg.
    - rewrite (write_Sum_existing h fs name v c p' Hg) in Hw. by injection Hw as _ <-.
    - rewrite (write_Sum_new h fs name v c Hg) in Hw. by injection Hw as _ <-. }
  split; [|split; [|rewrite Hw; exact Hid]].
  - rewrite Hw. cbn [fst snd].
    destruct (getSStore h fs other) as [q|] eqn:Hq.
    + apply getSStore_Some in Hq as [Hq Hqt].
      assert (Hqin : q ∈ sStoreNodes fs) by (apply list_elem_of_lookup; eauto).
      pose proof (Hsub q Hqin) as [k Hk]%list_elem_of_lookup.
      rewrite <- Hqt, <- (Hkeys q (Hvalid q Hqin)). by apply (getSStore_found h1 fs1 k).
    + apply getSStore_absent. intros [k Hk]%list_elem_of_lookup.
      rewrite familyTimes_lookup in Hk.
      destruct (sStoreNodes fs1 !! k) as [q|] eqn:Hqk; [|done]. injection Hk as Hk.
      assert (Hq1 : q ∈ sStoreNodes fs1) by (apply list_elem_of_lookup; eauto).
      assert (Hold : q ∈ sStoreNodes fs -> False).
      { intros Hqin. apply (getSStore_None h fs other Hs Hq).
        apply list_elem_of_lookup_1 in Hqin as [k' Hk'].
        apply list_elem_of_lookup. exists k'.
        rewrite familyTimes_lookup, Hk'. cbn.
        rewrite <- Hk. f_equal. symmetry. apply Hkeys, Hvalid.
        apply list_elem_of_lookup. eauto. }
      destruct Hcase as [(_ & _ & ->)|(_ & -> & _ & Hperm)]; [done|].
      rewrite Hperm in Hq1. apply elem_of_app in Hq1 as [Hq1|Hq1]; [done|].
      apply list_elem_of_singleton in Hq1. subst q. congruence.
  - intros q Hq. apply getSStore_Some in Hq as [Hq Hqt].
    apply Hheap; [|done]. apply list_elem_of_lookup. eauto.
Qed.

(** Writing a sum and then flushing its family time hands the table
    flusher the bytes of the segment that took the value: the segment the
    store had for that family time, or the new one made for it.  When the
    segment serialises the flusher gets that one call and the answer is
    true; when it does not, the answer is false; either way the store is
    left with the family times it had before the write, but the one
    flushed. *)
Theorem write_then_flushFieldTo (h : heap) (fs : fieldStore) (tf : TableFlusher)
    (name : string) (v : float64) (c : writeContext) :
  sorted_unique h fs ->
  exists h1 fs1 s0 fs2,
    write h fs {| Name := name; Field := pb_Field_Sum v |} c = (h1, fs1, []) /\
    ((getSStore h fs (familyTime c) = None /\
      s0 = newSimpleFieldStore (familyTime c) (field_GetAggFunc field_Sum)) \/
     (exists p, getSStore h fs (familyTime c) = Some p /\ h !! p = Some s0)) /\
    flushFieldTo h1 fs1 tf (familyTime c) =
      match bytes (writeFloat v c s0) with
      | Ok (data, startSlot, endSlot) =>
          (fs2, tf ++ [ {| ff_fieldID := fieldID fs; ff_fieldType := fieldType fs;
                           ff_data := data; ff_startSlot := startSlot;
                           ff_endSlot := endSlot |} ], true, [])
      | Err e => (fs2, tf, false, [("read segment data error:" +:+ e)%string])
      end /\
    familyTimes h1 fs2 = filter (fun t => t <> familyTime c) (familyTimes h fs).
Proof.
  intros Hinv. pose proof Hinv as [Hvalid Hs]. rewrite Forall_forall in Hvalid.
  destruct (write_Sum_effect h fs name v c Hinv)
    as (h1 & fs1 & p & s0 & Hw & Hinv1 & _ & Hkeys & _ & Hin & Hft & Hh1 & Hcase).
  pose proof Hinv1 as [_ Hs1].
  apply list_elem_of_lookup in Hin as [i Hi].
  exists h1, fs1, s0, (set_sStoreNodes fs1 (delete i (sStoreNodes fs1))).
  assert (Hext : familyTimes h1 fs = familyTimes h fs).
  { apply familyTimes_ext. intros q Hq. by apply Hkeys, Hvalid. }
  assert (Hid : fieldType fs1 = fieldType fs /\ fieldID fs1 = fieldID fs).
  { destruct (getSStore h fs (familyTime c)) as [p'|] eqn:Hg.
    - rewrite (write_Sum_existing h fs name v c p' Hg) in Hw. by injection Hw as _ <-.
    - rewrite (write_Sum_new h fs name v c Hg) in Hw. by injection Hw as _ <-. }
  destruct Hid as [Htype Hfid].
  split; [done|]. split; [|split].
  - destruct Hcase as [(Hg & Hs0 & _)|(Habs & _ & -> & _)]; [right; eauto|].
    left. split; [by apply getSStore_absent|done].
  - pose proof (flushFieldTo_found h1 fs1 tf i p _ Hs1 Hi Hh1) as Hflush.
    assert (Hgt : getFamilyTime (writeFloat v c s0) = familyTime c).
    { unfold familyTimeAt in Hft. by rewrite Hh1 in Hft. }
    rewrite Hgt, Htype, Hfid in Hflush. rewrite Hflush.
    by destruct (bytes (writeFloat v c s0)) as [[[d a] b]|e].
  - destruct Hcase as [(_ & _ & ->)|(Habs & _ & _ & Hperm)].
    + rewrite familyTimes_delete, Hext. symmetry. apply filter_ne_delete.
      * by apply sort_Sort_facts.StronglySorted_lt_NoDup.
      * by rewrite <- Hext, familyTimes_lookup, Hi, <- Hft.
    + rewrite (filter_ne_absent (familyTimes h fs)) by done.
      assert (Hnodes : delete i (sStoreNodes fs1) = sStoreNodes fs).
      { apply (sorted_nodes_unique h1).
        - pose proof (sort_Sort_facts.StronglySorted_delete _ _ i Hs1) as Hd.
          by rewrite <- familyTimes_delete in Hd.
        - fold (familyTimes h1 fs). by rewrite Hext.
        - apply (Permutation_cons_inv (a := p)).
          rewrite <- (delete_Permutation _ _ _ Hi), Hperm.
          by rewrite Permutation_app_comm. }
      unfold familyTimes at 1. cbn [sStoreNodes set_sStoreNodes]. rewrite Hnodes.
      exact Hext.
Qed.

End FieldStore.

End memdb_laws.

(** ** The tag search: cache and metadata calls *)
Module query_laws.
Import query query_spec query_trace query_facts.

Lemma looked_up_snoc (cs : list MetadataCall) (c : MetadataCall) :
  looked_up (cs ++ [c]) =
  looked_up cs ++ match c with
                  | CallGetTagKeyID _ _ key => [key]
                  | CallFindTagValueDsByExpr _ _ => []
                  end.
Proof. unfold looked_up. rewrite omap_app. by destruct c. Qed.

Lemma index_lookups_snoc (cs : list MetadataCall) (c : MetadataCall) :
  index_lookups (cs ++ [c]) =
  index_lookups cs ++ match c with
                      | CallGetTagKeyID _ _ _ => []
                      | CallFindTagValueDsByExpr id f => [(id, f)]
                      end.
Proof. unfold index_lookups. rewrite omap_app. by destruct c. Qed.

(** [getTagKeyID] asks the metadata store only for a key that is not
    cached, caches the identifier it gets, and caches nothing when the
    lookup fails: asking again for a key that was resolved returns the same
    identifier and leaves the resolver, its recorded calls included, as it
    is; the other cached keys are kept. *)
Theorem getTagKeyID_caches (s : tagSearch) (key : string) :
  (forall id, (getTagKeyID s key).2 = Ok id ->
     tags (getTagKeyID s key).1 !! key = Some id /\
     getTagKeyID (getTagKeyID s key).1 key = ((getTagKeyID s key).1, Ok id)) /\
  (forall e, (getTagKeyID s key).2 = Err e ->
     tags (getTagKeyID s key).1 = tags s /\
     calls (getTagKeyID s key).1 =
       calls s ++ [CallGetTagKeyID (namespace s) (metricName s) key]) /\
  (forall id, tags s !! key = Some id -> getTagKeyID s key = (s, Ok id)) /\
  (forall other id, tags s !! other = Some id -> other <> key ->
     tags (getTagKeyID s key).1 !! other = Some id).
Proof.
  assert (Hhit : forall s' id, tags s' !! key = Some id -> getTagKeyID s' key = (s', Ok id)).
  { intros s' id Hk. unfold getTagKeyID. by rewrite Hk. }
  destruct (tags s !! key) as [id0|] eqn:Hk.
  - rewrite (Hhit s id0 Hk). cbn. split; [|split; [|split]].
    + intros id [= <-]. split; [done|]. by apply Hhit.
    + intros e [=].
    + intros id [= <-]. reflexivity.
    + intros other id Ho _. exact Ho.
  - assert (Hmiss : getTagKeyID s key =
      let s1 := record_call s (CallGetTagKeyID (namespace s) (metricName s) key) in
      match GetTagKeyID (metadata s) (namespace s) (metricName s) key with
      | Err e => (s1, Err e)
      | Ok tagKeyID => (set_tags s1 (<[key := tagKeyID]> (tags s1)), Ok tagKeyID)
      end) by (unfold getTagKeyID; by rewrite Hk).
    rewrite Hmiss. cbn zeta.
    destruct (GetTagKeyID (metadata s) (namespace s) (metricName s) key) as [id0|e0];
      cbn [fst snd]; (split; [|split; [|split]]).
    + intros id [= <-]. split; [cbn; by rewrite lookup_insert_eq|].
      apply Hhit. cbn. by rewrite lookup_insert_eq.
    + intros e [=].
    + intros id [=].
    + intros other id Ho Hne. cbn. by rewrite lookup_insert_ne.
    + intros id [=].
    + intros e [= <-]. done.
    + intros id [=].
    + intros other id Ho _. exact Ho.
Qed.

Lemma getTagKeyID_asked_once (s : tagSearch) (key : string) :
  err s = None -> asked_once s ->
  err (getTagKeyID s key).1 = None /\
  NoDup (looked_up (calls (getTagKeyID s key).1)) /\
  (forall k, k ∈ looked_up (calls (getTagKeyID s key).1) -> k = key \/ k ∈ looked_up (calls s)) /\
  (forall id, (getTagKeyID s key).2 = Ok id ->
     forall k, k ∈ looked_up (calls (getTagKeyID s key).1) ->
               is_Some (tags (getTagKeyID s key).1 !! k)).
Proof.
  intros He [Hnd Hcached]. unfold getTagKeyID.
  destruct (tags s !! key) as [id0|] eqn:Hk.
  - cbn. repeat split; try done; [by right | intros; by apply Hcached].
  - assert (Hfresh : key ∉ looked_up (calls s)).
    { intros Hin. destruct (Hcached He key Hin) as [? ?]. congruence. }
    assert (Hnd' : NoDup (looked_up (calls s) ++ [key])).
    { apply NoDup_app. split; [done|]. split; [|apply NoDup_singleton].
      intros x Hx ->%list_elem_of_singleton. done. }
    destruct (GetTagKeyID (metadata s) (namespace s) (metricName s) key) as [id0|e0];
      cbn; rewrite looked_up_snoc; repeat split; try done.
    + intros k [Hin|Hin%list_elem_of_singleton]%elem_of_app; [by right|by left].
    + intros id _ k [Hin|Hin%list_elem_of_singleton]%elem_of_app.
      * destruct (decide (key = k)) as [->|Hne]; [rewrite lookup_insert_eq; eauto|].
        rewrite lookup_insert_ne by done. by apply Hcached.
      * subst k. rewrite lookup_insert_eq. eauto.
    + intros k [Hin|Hin%list_elem_of_singleton]%elem_of_app; [by right|by left].
Qed.

Lemma findTagValueIDsByTagFilter_asked_once (s : tagSearch) (f : TagFilter) :
  err s = None -> asked_once s ->
  asked_once (findTagValueIDsByTagFilter s f) /\
  (forall k, k ∈ looked_up (calls (findTagValueIDsByTagFilter s f)) ->
             k = TagKey f \/ k ∈ looked_up (calls s)).
Proof.
  intros He Hinv.
  destruct (getTagKeyID_asked_once s (TagKey f) He Hinv) as (He1 & Hnd & Hsub & Hcached).
  unfold findTagValueIDsByTagFilter, asked_once.
  destruct (getTagKeyID s (TagKey f)) as [s1 [id|e]]; cbn in He1, Hnd, Hsub, Hcached |- *.
  - assert (Hc : forall k, k ∈ looked_up (calls s1) -> is_Some (tags s1 !! k))
      by (by apply (Hcached id)).
    destruct (FindTagValueDsByExpr (metadata s) id f) as [[ids|]|e];
      [destruct (negb (IsEmpty ids))| |]; cbn; rewrite looked_up_snoc, app_nil_r;
      (split; [split; [done|]|done]); try done; intros _; exact Hc.
  - split; [split; [done|done]|done].
Qed.

Lemma findTagValueIDsByExpr_asked_once (expr : Expr) (s : tagSearch) :
  asked_once s ->
  asked_once (findTagValueIDsByExpr s expr) /\
  (forall k, k ∈ looked_up (calls (findTagValueIDsByExpr s expr)) ->
             k ∈ map TagKey (leaves expr) \/ k ∈ looked_up (calls s)).
Proof.
  revert s. induction expr as [|f|e IH|e IH|l IHl op r IHr|text]; intros s Hinv.
  - cbn. split; [done|]. intros; by right.
  - destruct (err s) as [x|] eqn:He.
    { rewrite (findTagValueIDsByExpr_latched s _ x He). split; [done|]. intros; by right. }
    rewrite findTagValueIDsByExpr_leaf by done.
    destruct (findTagValueIDsByTagFilter_asked_once s f He Hinv) as [Hinv' Hsub].
    split; [done|]. intros k [->|Hk]%Hsub; [left; cbn; by left | by right].
  - cbn. destruct (err s); [split; [done|]; intros; by right|]. by apply IH.
  - cbn. destruct (err s); [split; [done|]; intros; by right|]. by apply IH.
  - destruct (err s) as [x|] eqn:He.
    { rewrite (findTagValueIDsByExpr_latched s _ x He). split; [done|]. intros; by right. }
    destruct op as [| |name].
    + rewrite findTagValueIDsByExpr_binary by auto.
      destruct (IHl s Hinv) as [Hl Hsubl].
      destruct (IHr _ Hl) as [Hr Hsubr]. split; [done|].
      intros k [Hk|Hk]%Hsubr; [left; cbn; rewrite map_app; apply elem_of_app; by right|].
      apply Hsubl in Hk as [Hk|Hk]; [|by right].
      left. cbn. rewrite map_app. apply elem_of_app. by left.
    + rewrite findTagValueIDsByExpr_binary by auto.
      destruct (IHl s Hinv) as [Hl Hsubl].
      destruct (IHr _ Hl) as [Hr Hsubr]. split; [done|].
      intros k [Hk|Hk]%Hsubr; [left; cbn; rewrite map_app; apply elem_of_app; by right|].
      apply Hsubl in Hk as [Hk|Hk]; [|by right].
      left. cbn. rewrite map_app. apply elem_of_app. by left.
    + rewrite findTagValueIDsByExpr_wrong_operator by done.
      destruct Hinv as [Hnd _]. split; [split; [done|done]|]. intros; by right.
  - cbn. destruct (err s); (split; [done|]; intros; by right).
Qed.

(** During one [Filter], whatever its outcome, the metadata store is
    asked for the identifier of a tag key at most once per key, and only
    for tag keys of leaves of the condition. *)
Theorem Filter_asks_each_key_once (ns mt : string) (cond : Expr) (md : Metadata) :
  NoDup (looked_up (calls (Filter (newTagSearch ns mt cond md)).1)) /\
  (forall key, key ∈ looked_up (calls (Filter (newTagSearch ns mt cond md)).1) ->
               key ∈ map TagKey (leaves cond)).
Proof.
  assert (Hinit : asked_once (newTagSearch ns mt cond md)).
  { split; [constructor|]. intros _ key Hkey. by apply elem_of_nil in Hkey. }
  destruct (findTagValueIDsByExpr_asked_once cond _ Hinit) as [[Hnd _] Hsub].
  assert (Hs : (Filter (newTagSearch ns mt cond md)).1 =
               findTagValueIDsByExpr (newTagSearch ns mt cond md) cond).
  { unfold Filter. cbn [condition newTagSearch]. by destruct (err _). }
  rewrite Hs. split; [done|].
  intros key [Hk|Hk]%Hsub; [done|]. by apply elem_of_nil in Hk.
Qed.

Lemma findTagValueIDsByTagFilter_index_lookup (s : tagSearch) (f : TagFilter) :
  cache_sound s ->
  err (findTagValueIDsByTagFilter s f) = None ->
  exists id,
    GetTagKeyID (metadata s) (namespace s) (metricName s) (TagKey f) = Ok id /\
    index_lookups (calls (findTagValueIDsByTagFilter s f)) =
      index_lookups (calls s) ++ [(id, f)].
Proof.
  intros Hc. unfold findTagValueIDsByTagFilter, getTagKeyID.
  destruct (tags s !! TagKey f) as [id|] eqn:Hk.
  - exists id. split; [by apply Hc|].
    destruct (FindTagValueDsByExpr (metadata s) id f) as [[ids|]|e];
      [destruct (negb (IsEmpty ids))| |done]; cbn; by rewrite index_lookups_snoc.
  - destruct (GetTagKeyID (metadata s) (namespace s) (metricName s) (TagKey f))
      as [id|e]; [|done].
    exists id. split; [done|].
    destruct (FindTagValueDsByExpr (metadata s) id f) as [[ids|]|e'];
      [destruct (negb (IsEmpty ids))| |done]; cbn;
      by rewrite !index_lookups_snoc, app_nil_r.
Qed.

Lemma findTagValueIDsByExpr_index_lookups (expr : Expr) (s : tagSearch) :
  cache_sound s -> err s = None ->
  err (findTagValueIDsByExpr s expr) = None ->
  exists added,
    index_lookups (calls (findTagValueIDsByExpr s expr)) = index_lookups (calls s) ++ added /\
    added = omap (index_lookup_of (metadata s) (namespace s) (metricName s)) (leaves expr) /\
    map snd added = leaves expr.
Proof.
  revert s. induction expr as [|f|e IH|e IH|l IHl op r IHr|text]; intros s Hc He.
  - intros _. exists []. cbn. by rewrite app_nil_r.
  - rewrite findTagValueIDsByExpr_leaf by done. intros Hok.
    destruct (findTagValueIDsByTagFilter_index_lookup s f Hc Hok) as (id & Hid & Hcalls).
    exists [(id, f)]. split; [done|]. cbn. unfold index_lookup_of. by rewrite Hid.
  - cbn. rewrite He. by apply IH.
  - cbn. rewrite He. by apply IH.
  - assert (Hbin : forall Hop : op = AND \/ op = OR,
      err (findTagValueIDsByExpr s (BinaryExpr l op r)) = None ->
      exists added,
        index_lookups (calls (findTagValueIDsByExpr s (BinaryExpr l op r))) =
          index_lookups (calls s) ++ added /\
        added = omap (index_lookup_of (metadata s) (namespace s) (metricName s))
                  (leaves (BinaryExpr l op r)) /\
        map snd added = leaves (BinaryExpr l op r)).
    { intros Hop. rewrite findTagValueIDsByExpr_binary by done. intros Hok.
      destruct (err (findTagValueIDsByExpr s l)) as [x|] eqn:Hl.
      { rewrite (findTagValueIDsByExpr_latched _ r x) in Hok by done. congruence. }
      destruct (IHl s Hc He Hl) as (al & Hcl & Hal & Hsl).
      destruct (findTagValueIDsByExpr_harvest l s Hc He Hl) as [_ Hcl'].
      destruct (IHr _ Hcl' Hl Hok) as (ar & Hcr & Har & Hsr).
      destruct (findTagValueIDsByExpr_same_target l s) as (Hn & Hm & Hmd).
      rewrite Hn, Hm, Hmd in Har.
      exists (al ++ ar). split; [by rewrite Hcr, Hcl, app_assoc|].
      cbn [leaves]. rewrite omap_app, map_app, Hsl, Hsr, <- Hal, <- Har. done. }
    destruct op as [| |name]; [apply Hbin; by left | apply Hbin; by right |].
    rewrite findTagValueIDsByExpr_wrong_operator by done. done.
  - intros _. exists []. cbn. rewrite He. by rewrite app_nil_r.
Qed.

(** A [Filter] that succeeds has asked the tag index once per leaf of
    the condition, in traversal order, each time with the leaf itself and
    the identifier the metadata store gives for the leaf's tag key; a
    condition without a leaf costs no index lookup. *)
Theorem Filter_index_lookups (ns mt : string) (cond : Expr) (md : Metadata)
    (res : gmap string tagFilterResult) :
  (Filter (newTagSearch ns mt cond md)).2 = (Some res, None) ->
  index_lookups (calls (Filter (newTagSearch ns mt cond md)).1) =
    omap (index_lookup_of md ns mt) (leaves cond) /\
  map snd (index_lookups (calls (Filter (newTagSearch ns mt cond md)).1)) = leaves cond.
Proof.
  unfold Filter. cbn [condition newTagSearch].
  destruct (err (findTagValueIDsByExpr (newTagSearch ns mt cond md) cond)) as [e|] eqn:He;
    [done|]. intros _. cbn [fst].
  assert (Hc : cache_sound (newTagSearch ns mt cond md)) by (intros k id Hk; done).
  destruct (findTagValueIDsByExpr_index_lookups cond _ Hc eq_refl He)
    as (added & Hcalls & Hadded & Hsnd).
  cbn in Hcalls, Hadded. rewrite Hcalls. cbn. by rewrite <- Hadded.
Qed.

(** A traversal only adds: every result key, every cached tag key with
    its identifier and every recorded call of before is still there after,
    and an error that was latched is still the error. *)
Theorem findTagValueIDsByExpr_only_adds (expr : Expr) (s : tagSearch) :
  (forall k, is_Some (result_ s !! k) ->
             is_Some (result_ (findTagValueIDsByExpr s expr) !! k)) /\
  tags s ⊆ tags (findTagValueIDsByExpr s expr) /\
  calls s `prefix_of` calls (findTagValueIDsByExpr s expr) /\
  (forall e, err s = Some e -> err (findTagValueIDsByExpr s expr) = Some e).
Proof.
  assert (Hleaf : forall s f,
    (forall k, is_Some (result_ s !! k) ->
               is_Some (result_ (findTagValueIDsByTagFilter s f) !! k)) /\
    tags s ⊆ tags (findTagValueIDsByTagFilter s f) /\
    calls s `prefix_of` calls (findTagValueIDsByTagFilter s f)).
  { intros s0 f. unfold findTagValueIDsByTagFilter, getTagKeyID.
    assert (Hins : forall (m : gmap string tagFilterResult) k0 r k,
              is_Some (m !! k) -> is_Some (<[k0 := r]> m !! k)).
    { intros m k0 r k Hk. destruct (decide (k0 = k)) as [->|Hne].
      - rewrite lookup_insert_eq. eauto.
      - by rewrite lookup_insert_ne. }
    destruct (tags s0 !! TagKey f) as [id|] eqn:Hk.
    - destruct (FindTagValueDsByExpr (metadata s0) id f) as [[ids|]|e];
        [destruct (negb (IsEmpty ids))| |]; cbn;
        (split; [auto|split; [done|by apply prefix_app_r]]).
    - destruct (GetTagKeyID (metadata s0) (namespace s0) (metricName s0) (TagKey f))
        as [id|e]; cbn.
      + destruct (FindTagValueDsByExpr (metadata s0) id f) as [[ids|]|e];
          [destruct (negb (IsEmpty ids))| |]; cbn;
          (split; [auto|split; [by apply insert_subseteq|]]);
          rewrite <- app_assoc; by apply prefix_app_r.
      + split; [auto|split; [done|by apply prefix_app_r]]. }
  revert s. induction expr as [|f|e IH|e IH|l IHl op r IHr|text]; intros s.
  - cbn. done.
  - destruct (err s) as [x|] eqn:He.
    { rewrite (findTagValueIDsByExpr_latched s _ x He). repeat split; try done.
      intros e' [= <-]. done. }
    rewrite findTagValueIDsByExpr_leaf by done.
    destruct (Hleaf s f) as (? & ? & ?). repeat split; done.
  - destruct (err s) as [x|] eqn:He.
    { rewrite (findTagValueIDsByExpr_latched s _ x He). repeat split; try done.
      intros e' [= <-]. done. }
    cbn. rewrite He. rewrite <- He. apply IH.
  - destruct (err s) as [x|] eqn:He.
    { rewrite (findTagValueIDsByExpr_latched s _ x He). repeat split; try done.
      intros e' [= <-]. done. }
    cbn. rewrite He. rewrite <- He. apply IH.
  - destruct (err s) as [x|] eqn:He.
    { rewrite (findTagValueIDsByExpr_latched s _ x He). repeat split; try done.
      intros e' [= <-]. done. }
    assert (Hbin : op = AND \/ op = OR ->
      (forall k, is_Some (result_ s !! k) ->
                 is_Some (result_ (findTagValueIDsByExpr s (BinaryExpr l op r)) !! k)) /\
      tags s ⊆ tags (findTagValueIDsByExpr s (BinaryExpr l op r)) /\
      calls s `prefix_of` calls (findTagValueIDsByExpr s (BinaryExpr l op r)) /\
      (forall e, None = Some e ->
                 err (findTagValueIDsByExpr s (BinaryExpr l op r)) = Some e)).
    { intros Hop. rewrite findTagValueIDsByExpr_binary by done.
      destruct (IHl s) as (Hrl & Htl & Hcl & _).
      destruct (IHr (findTagValueIDsByExpr s l)) as (Hrr & Htr & Hcr & _).
      repeat split; [auto | by etrans | by etrans | done]. }
    destruct op as [| |name]; [apply Hbin; by left | apply Hbin; by right |].
    rewrite findTagValueIDsByExpr_wrong_operator by done. cbn. repeat split; done.
  - cbn. destruct (err s) eqn:He; by rewrite ?He.
Qed.

End query_laws.

(** ** The job manager: metadata jobs, the registry over runs, the task manager's calls *)
Module parallel_laws.
Import parallel parallel_spec parallel_loops parallel_trace parallel_facts.

Section JobManager.
Context {TM : Type} `{TaskManager TM}.

(** [SubmitMetadataJob] through the names of its intermediate values. *)
Lemma SubmitMetadataJob_unfold (j : jobManager) (ctx : context_Context)
    (plan : PhysicalPlan) (suggest : stmt_Metadata) (resultSet : chan) :
  SubmitMetadataJob j ctx plan suggest resultSet =
  let r := sendRequests (SubmitMetadataJob_fanout j plan resultSet)
             (map Leaf_Indicator (Leafs plan)) (SubmitMetadataJob_request j plan suggest) in
  ({| taskManager := r.1.2; seq := seq_Inc j;
      jobs := deferred_Store j r.1.1 (seq_Inc j) (any_Context ctx) |}, r.1.1, r.2).
Proof.
  unfold SubmitMetadataJob, SubmitMetadataJob_fanout, SubmitMetadataJob_request.
  destruct (AllocTaskID (taskManager j)) as [taskID tm1]. cbn [fst snd].
  destruct (Leafs plan) as [|l ls]; cbn [length Nat.ltb Nat.leb].
  - reflexivity.
  - by destruct (sendRequests _ _ _) as [[e tm3] sent].
Qed.

(** A fan-out that returns an error has made at least one call. *)
Lemma sendRequests_error (indicators : list string) (req : TaskRequest) (tm : TM) (e : error) :
  (sendRequests tm indicators req).1.1 = Some e ->
  exists k indicator,
    indicators !! k = Some indicator /\
    (sendRequests tm indicators req).2 = map (fun i => (i, req)) (take (S k) indicators).
Proof.
  revert tm. induction indicators as [|i rest IH]; intros tm; [done|].
  cbn. destruct (SendRequest i req tm) as [[e'|] tm1].
  - intros _. exists 0%nat, i. cbn. by rewrite take_0.
  - specialize (IH tm1). destruct (sendRequests tm1 rest req) as [[e' tm2] sent]. cbn in *.
    intros He. destruct (IH He) as (k & ind & Hk & Hsent).
    exists (S k), ind. split; [done|]. by rewrite Hsent.
Qed.


(** When [SubmitMetadataJob] returns an error, it has stopped at the
    leaf whose send failed: the calls made are the leaves up to some leaf
    [k] and no later one, the job identifier is used up, and the registry
    is as it was, so [GetJob] answers as before the call. *)
Theorem SubmitMetadataJob_dispatch_failure (j : jobManager) (ctx : context_Context)
    (plan : PhysicalPlan) (suggest : stmt_Metadata) (resultSet : chan) (e : error) :
  (SubmitMetadataJob j ctx plan suggest resultSet).1.2 = Some e ->
  (exists k leaf,
     Leafs plan !! k = Some leaf /\
     (SubmitMetadataJob j ctx plan suggest resultSet).2 =
       map (fun node => (Leaf_Indicator node, SubmitMetadataJob_request j plan suggest))
         (take (S k) (Leafs plan))) /\
  seq (SubmitMetadataJob j ctx plan suggest resultSet).1.1 = seq_Inc j /\
  jobs (SubmitMetadataJob j ctx plan suggest resultSet).1.1 = jobs j /\
  (forall id, GetJob (SubmitMetadataJob j ctx plan suggest resultSet).1.1 id = GetJob j id).
Proof.
  rewrite SubmitMetadataJob_unfold. cbn [fst snd seq jobs]. intros He.
  destruct (sendRequests_error _ _ _ _ He) as (k & ind & Hk & Hsent).
  apply list_lookup_fmap_Some in Hk as (leaf & -> & Hleaf).
  split; [|split; [done|]].
  - exists k, leaf. split; [done|]. rewrite Hsent, <- fmap_take.
    by rewrite <- list_fmap_compose.
  - rewrite He. done.
Qed.

Lemma jobs_submit_stored (j : @jobManager TM) (c : submission) :
  jobs (submit j c).1.1 =
    match (submit j c).1.2 with
    | None => <[seq_Inc j := stored c]> (jobs j)
    | Some _ => jobs j
    end.
Proof.
  destruct c as [ctx|ctx plan suggest rs]; cbn [submit].
  - rewrite SubmitJob_unfold. cbn. by destruct (sendRequests _ _ _).1.1.
  - rewrite SubmitMetadataJob_unfold. cbn. by destruct (sendRequests _ _ _).1.1.
Qed.

Lemma submit_all_cons (j : @jobManager TM) (c : submission) (cs : list submission) :
  submit_all j (c :: cs) =
    ((submit_all (submit j c).1.1 cs).1,
     (seq_Inc j, (submit j c).1.2) :: (submit_all (submit j c).1.1 cs).2).
Proof.
  cbn. pose proof (seq_submit j c) as Hseq.
  destruct (submit j c) as [[j1 e] sent]. cbn in Hseq |- *.
  destruct (submit_all j1 cs) as [j2 log]. cbn. by rewrite Hseq.
Qed.

Lemma submit_all_jobs (cs : list submission) (j : @jobManager TM) :
  registry_below_counter j ->
  seq j + Z.of_nat (length cs) < Int64.max_int ->
  (forall i c, cs !! i = Some c ->
     exists err,
       (submit_all j cs).2 !! i = Some (seq j + Z.of_nat i + 1, err) /\
       jobs (submit_all j cs).1 !! (seq j + Z.of_nat i + 1) =
         match err with None => Some (stored c) | Some _ => None end) /\
  (forall id, id <= seq j \/ seq j + Z.of_nat (length cs) < id ->
     jobs (submit_all j cs).1 !! id = jobs j !! id).
Proof.
  revert j. induction cs as [|c cs IH]; intros j Hinv Hroom.
  { split; [done|]. intros id _. done. }
  cbn [length] in Hroom. rewrite submit_all_cons. cbn [fst snd].
  destruct (seq_Inc_fresh j Hinv) as [Hinc Hfresh].
  assert (Hinv1 : registry_below_counter (submit j c).1.1).
  { apply submit_registry; [done|lia]. }
  assert (Hseq1 : seq (submit j c).1.1 = seq j + 1) by (by rewrite seq_submit).
  destruct (IH (submit j c).1.1 Hinv1) as [Hlog Hframe]; [rewrite Hseq1; lia|].
  rewrite Hseq1 in Hlog, Hframe.
  assert (Hother : forall id, id <> seq j + 1 ->
            jobs (submit j c).1.1 !! id = jobs j !! id).
  { intros id Hne. rewrite jobs_submit_stored.
    destruct ((submit j c).1.2); [done|]. rewrite Hinc. by rewrite lookup_insert_ne. }
  split.
  - intros [|i] c' Hc'.
    + cbn in Hc'. injection Hc' as <-. exists (submit j c).1.2. cbn [lookup list_lookup].
      split; [rewrite Hinc; do 2 f_equal; lia|].
      replace (seq j + Z.of_nat 0 + 1) with (seq j + 1) by lia.
      rewrite Hframe by lia. rewrite jobs_submit_stored.
      destruct ((submit j c).1.2).
      * by rewrite <- Hinc.
      * rewrite Hinc. by rewrite lookup_insert_eq.
    + cbn in Hc'. destruct (Hlog i c' Hc') as (err & Hi & Hjob).
      exists err. cbn [lookup list_lookup].
      replace (seq j + Z.of_nat (S i) + 1) with (seq j + 1 + Z.of_nat i + 1) by lia.
      done.
  - intros id Hid. cbn [length] in Hid. rewrite Nat2Z.inj_succ in Hid.
    rewrite Hframe by lia. apply Hother. lia.
Qed.

(** On a job manager made by [NewJobManager], after fewer than 2^63 - 1
    calls of [SubmitJob] and [SubmitMetadataJob]: call number [i] (from 0)
    was given the identifier [i + 1]; [GetJob] of that identifier returns
    the job context exactly when the call was a [SubmitJob] that returned
    nil, whatever calls came after it, and nil for a call that failed and
    for a metadata job; and [GetJob] of an identifier no call was given
    returns nil. *)
Theorem registry_after_submissions (tm : TM) (cs : list submission) :
  Z.of_nat (length cs) < Int64.max_int ->
  (forall i c, cs !! i = Some c ->
     exists err,
       (submit_all (NewJobManager tm) cs).2 !! i = Some (Z.of_nat i + 1, err) /\
       GetJob (submit_all (NewJobManager tm) cs).1 (Z.of_nat i + 1) =
         match c, err with
         | call_SubmitJob ctx, None => Some ctx
         | _, _ => None
         end) /\
  (forall id, id < 1 \/ Z.of_nat (length cs) < id ->
     GetJob (submit_all (NewJobManager tm) cs).1 id = None).
Proof.
  intros Hroom.
  destruct (submit_all_jobs cs (NewJobManager tm) (NewJobManager_registry tm))
    as [Hlog Hframe]; [cbn; lia|].
  cbn [seq NewJobManager] in Hlog, Hframe. split.
  - intros i c Hc. destruct (Hlog i c Hc) as (err & Hi & Hjob).
    exists err. replace (0 + Z.of_nat i + 1) with (Z.of_nat i + 1) in Hi, Hjob by lia.
    split; [done|]. unfold GetJob. rewrite Hjob.
    destruct err; [by destruct c|]. by destruct c.
  - intros id Hid. unfold GetJob. rewrite Hframe by lia. cbn. by rewrite lookup_empty.
Qed.

End JobManager.

(** On the recording task manager, a fan-out appends one [SendRequest]
    event per call it made. *)
Lemma sendRequests_events (indicators : list string) (req : TaskRequest) (tm : recorder) :
  events (sendRequests tm indicators req).1.2 =
    events tm ++ sends_of (sendRequests tm indicators req).2
                   (sendRequests tm indicators req).1.1 /\
  ((sendRequests tm indicators req).2 = [] -> (sendRequests tm indicators req).1.1 = None).
Proof.
  revert tm. induction indicators as [|i rest IH]; intros tm.
  { cbn. by rewrite app_nil_r. }
  cbn [sendRequests SendRequest recorder_TaskManager].
  destruct (reply tm (events tm) i req) as [e|] eqn:Hreply.
  - cbn. done.
  - destruct (IH (record (ev_SendRequest i req None) tm)) as [Hev Hnil].
    destruct (sendRequests (record (ev_SendRequest i req None) tm) rest req)
      as [[e tm2] sent]. cbn in Hev, Hnil |- *.
    split; [|done]. rewrite Hev, <- app_assoc. cbn.
    destruct sent as [|call sent]; [|done].
    cbn. by rewrite Hnil.
Qed.

(** What the task manager sees of a submission, of either kind: one
    [AllocTaskID], then one [Submit] of a root task under the identifier
    just allocated, without parent, expecting as many results as the plan's
    root has tasks, and only then the [SendRequest] calls, each carrying
    that task identifier as parent, the job identifier just allocated and
    the plan; every send but the last was answered nil and the last one's
    answer is what the submission returns. *)
Theorem submit_task_manager_calls (j : @jobManager recorder) (c : submission) :
  exists taskCtx,
    events (taskManager (submit j c).1.1) =
      events (taskManager j) ++
      [ev_AllocTaskID (next_taskID (taskManager j) (events (taskManager j)));
       ev_Submit taskCtx] ++
      sends_of (submit j c).2 (submit j c).1.2 /\
    taskID taskCtx = next_taskID (taskManager j) (events (taskManager j)) /\
    taskType taskCtx = RootTask /\
    parentTaskID taskCtx = EmptyString /\
    parentNode taskCtx = EmptyString /\
    expectResults taskCtx = Root_NumOfTask (Root_ (plan_of c)) /\
    Forall (fun call =>
              ParentTaskID call.2 = taskID taskCtx /\
              JobID call.2 = seq_Inc j /\
              PhysicalPlan_ call.2 = JSON_PhysicalPlan (plan_of c))
      (submit j c).2.
Proof.
  destruct c as [ctx|ctx plan suggest rs]; cbn [submit plan_of].
  - rewrite SubmitJob_unfold. cbn [fst snd taskManager].
    destruct (sendRequests_events (selected_tier (Plan ctx)) (SubmitJob_request j ctx)
                (SubmitJob_fanout j ctx)) as [Hev _].
    destruct (sendRequests_sent (selected_tier (Plan ctx)) (SubmitJob_request j ctx)
                (SubmitJob_fanout j ctx)) as (n & Hsent & _).
    eexists. split.
    { rewrite Hev. unfold SubmitJob_fanout. cbn. rewrite <- !app_assoc. reflexivity. }
    repeat split. rewrite Hsent. apply Forall_forall. intros call Hcall.
      apply list_elem_of_fmap in Hcall as (i & -> & _). done.
  - rewrite SubmitMetadataJob_unfold. cbn [fst snd taskManager].
    destruct (sendRequests_events (map Leaf_Indicator (Leafs plan))
                (SubmitMetadataJob_request j plan suggest)
                (SubmitMetadataJob_fanout j plan rs)) as [Hev _].
    destruct (sendRequests_sent (map Leaf_Indicator (Leafs plan))
                (SubmitMetadataJob_request j plan suggest)
                (SubmitMetadataJob_fanout j plan rs)) as (n & Hsent & _).
    eexists. split.
    { rewrite Hev. unfold SubmitMetadataJob_fanout. cbn. rewrite <- !app_assoc. reflexivity. }
    repeat split. rewrite Hsent. apply Forall_forall. intros call Hcall.
      apply list_elem_of_fmap in Hcall as (i & -> & _). done.
Qed.

Lemma buildAggregatorSpecs_loop_from (todo : list string) (done_ : list AggregatorSpec) :
  foldl (fun aggSpecs '(idx, fieldName) =>
           <[idx := Some (NewAggregatorSpec fieldName)]> aggSpecs)
    (map Some done_ ++ replicate (length todo) None)
    (imap (fun idx fieldName => ((length done_ + idx)%nat, fieldName)) todo) =
  map Some (done_ ++ map NewAggregatorSpec todo).
Proof.
  revert done_. induction todo as [|x todo IH]; intros done_.
  { cbn. by rewrite !app_nil_r. }
  cbn [imap length replicate foldl].
  rewrite insert_app_r_alt by (rewrite length_map; lia).
  rewrite length_map. replace (length done_ + 0 - length done_)%nat with 0%nat by lia.
  cbn [insert list_insert].
  specialize (IH (done_ ++ [NewAggregatorSpec x])).
  rewrite map_app, <- app_assoc in IH. cbn [map app] in IH.
  rewrite <- (app_assoc done_) in IH. cbn [map app] in IH |- *.
  rewrite <- IH. f_equal. apply imap_ext. intros i y _. cbn.
  rewrite length_app. cbn. f_equal. lia.
Qed.

(** The loop of [buildAggregatorSpecs], which allocates [len(fieldNames)]
    nil specs and assigns the element at each index, leaves no nil: the
    slice it returns holds, for each field name in order, the spec of that
    name, and is as long as the list of names. *)
Theorem buildAggregatorSpecs_fills (fieldNames : list string) :
  buildAggregatorSpecs_loop fieldNames = map Some (buildAggregatorSpecs fieldNames) /\
  length (buildAggregatorSpecs_loop fieldNames) = length fieldNames /\
  (forall idx fieldName, fieldNames !! idx = Some fieldName ->
     buildAggregatorSpecs_loop fieldNames !! idx = Some (Some (NewAggregatorSpec fieldName))).
Proof.
  assert (Heq : buildAggregatorSpecs_loop fieldNames =
                map Some (buildAggregatorSpecs fieldNames)).
  { unfold buildAggregatorSpecs_loop, buildAggregatorSpecs.
    exact (buildAggregatorSpecs_loop_from fieldNames []). }
  split; [done|]. rewrite Heq. unfold buildAggregatorSpecs. split.
  - by rewrite !length_map.
  - intros idx fieldName Hidx. rewrite !list_lookup_fmap, Hidx. done.
Qed.

End parallel_laws.

(** ** The further properties on the sample inputs *)
Module memdb_laws_examples.
Import memdb memdb_spec memdb_runs memdb_facts memdb_examples memdb_laws.

Lemma getSStore_finds_witness :
  getSStore with_empty_segment.1 with_empty_segment.2 20 = Some 1%nat /\
  (forall p, getSStore with_empty_segment.1 with_empty_segment.2 20 = Some p ->
             p ∈ sStoreNodes with_empty_segment.2 /\
             familyTimeAt with_empty_segment.1 p = 20) /\
  30 ∉ familyTimes with_empty_segment.1 with_empty_segment.2.
Proof.
  split; [|split].
  - apply (proj1 (proj2 (getSStore_finds with_empty_segment.1 with_empty_segment.2
                           20 1%nat))).
    + exact (proj2 with_empty_segment_sorted_unique).
    + cbn. repeat constructor.
    + reflexivity.
  - intros p. apply (proj1 (getSStore_finds with_empty_segment.1 with_empty_segment.2 20 p)).
  - apply (proj2 (proj2 (getSStore_finds with_empty_segment.1 with_empty_segment.2
                           30 0%nat))).
    + exact (proj2 with_empty_segment_sorted_unique).
    + reflexivity.
Defined.

Lemma removeSStore_removes_witness :
  familyTimes with_empty_segment.1
    (removeSStore with_empty_segment.1 with_empty_segment.2 10) = [20] /\
  familyTimes with_empty_segment.1
    (removeSStore with_empty_segment.1 with_empty_segment.2 15) = [10; 20].
Proof.
  split.
  - exact (proj2 (removeSStore_removes with_empty_segment.1 with_empty_segment.2 10)
             (proj2 with_empty_segment_sorted_unique)).
  - exact (proj2 (removeSStore_removes with_empty_segment.1 with_empty_segment.2 15)
             (proj2 with_empty_segment_sorted_unique)).
Defined.

Lemma flushFieldTo_other_families_witness :
  getSStore with_empty_segment.1
    (flushFieldTo with_empty_segment.1 with_empty_segment.2 [] 10).1.1.1 20 = Some 1%nat.
Proof.
  rewrite (flushFieldTo_other_families with_empty_segment.1 with_empty_segment.2 [] 10 20).
  - reflexivity.
  - exact with_empty_segment_sorted_unique.
  - lia.
Defined.

Lemma flushFieldTo_calls_witness :
  (exists data startSlot endSlot,
     (flushFieldTo with_empty_segment.1 with_empty_segment.2 [] 10).1.1.2 =
       [ {| ff_fieldID := 7; ff_fieldType := field_Sum; ff_data := data;
            ff_startSlot := startSlot; ff_endSlot := endSlot |} ]) /\
  (flushFieldTo with_empty_segment.1 with_empty_segment.2 [] 20).1.1.2 = [].
Proof.
  split.
  - destruct (flushFieldTo_calls with_empty_segment.1 with_empty_segment.2 [] 10)
      as (Htrue & _).
    destruct Htrue as (p & s & data & a & b & _ & _ & _ & _ & Hcall); [reflexivity|].
    exists data, a, b. exact Hcall.
  - apply (proj1 (proj2 (flushFieldTo_calls with_empty_segment.1 with_empty_segment.2
                           [] 20))).
    reflexivity.
Defined.

Lemma insertSStore_then_removeSStore_witness :
  getSStore
    (with_empty_segment.1 ++ [newSimpleFieldStore 15 (field_GetAggFunc field_Sum)])
    (insertSStore
       (with_empty_segment.1 ++ [newSimpleFieldStore 15 (field_GetAggFunc field_Sum)])
       with_empty_segment.2 2%nat) 15 = Some 2%nat /\
  removeSStore
    (with_empty_segment.1 ++ [newSimpleFieldStore 15 (field_GetAggFunc field_Sum)])
    (insertSStore
       (with_empty_segment.1 ++ [newSimpleFieldStore 15 (field_GetAggFunc field_Sum)])
       with_empty_segment.2 2%nat) 15 = with_empty_segment.2.
Proof.
  destruct (insertSStore_then_removeSStore
              (with_empty_segment.1 ++ [newSimpleFieldStore 15 (field_GetAggFunc field_Sum)])
              with_empty_segment.2 2%nat) as (_ & _ & Hget & Hrem).
  - unfold familyTimes. cbn. repeat constructor; lia.
  - apply (bool_decide_unpack _). vm_compute. exact I.
  - split; [exact Hget | exact Hrem].
Defined.

Lemma timeRange_endpoints_witness :
  Start (timeRange two_hours.1.1 two_hours.1.2 10).1
    ∈ map fst [(3600000, 3600050); (7200020, 7200030)] /\
  End (timeRange two_hours.1.1 two_hours.1.2 10).1
    ∈ map snd [(3600000, 3600050); (7200020, 7200030)] /\
  Start (timeRange two_hours.1.1 two_hours.1.2 10).1 <= 7200020 /\
  7200030 <= End (timeRange two_hours.1.1 two_hours.1.2 10).1.
Proof.
  exact (timeRange_endpoints two_hours.1.1 two_hours.1.2 10
           [(3600000, 3600050)] (7200020, 7200030) two_hours_contributions).
Defined.

Lemma write_other_families_witness :
  getSStore (write with_empty_segment.1 with_empty_segment.2 (sum 9) (at_slot 10 4)).1.1
    (write with_empty_segment.1 with_empty_segment.2 (sum 9) (at_slot 10 4)).1.2 20
  = Some 1%nat /\
  (write with_empty_segment.1 with_empty_segment.2 (sum 9) (at_slot 10 4)).1.1 !! 1%nat
  = with_empty_segment.1 !! 1%nat.
Proof.
  destruct (write_other_families with_empty_segment.1 with_empty_segment.2 (sum 9)
              (at_slot 10 4) 20) as (Hget & Hheap & _).
  - exact with_empty_segment_sorted_unique.
  - cbn. lia.
  - split; [rewrite Hget; reflexivity|]. apply Hheap. reflexivity.
Defined.

Lemma write_then_flushFieldTo_witness :
  exists (h1 : list pointsStore) fs1 s0 fs2,
    write with_empty_segment.1 with_empty_segment.2
      {| Name := "f1"; Field := pb_Field_Sum 9 |} (at_slot 20 4) = (h1, fs1, []) /\
    ((getSStore with_empty_segment.1 with_empty_segment.2 20 = None /\
      s0 = newSimpleFieldStore 20 (field_GetAggFunc field_Sum)) \/
     (exists p, getSStore with_empty_segment.1 with_empty_segment.2 20 = Some p /\
                with_empty_segment.1 !! p = Some s0)) /\
    flushFieldTo h1 fs1 [] 20 =
      match bytes (writeFloat 9 (at_slot 20 4) s0) with
      | Ok (data, startSlot, endSlot) =>
          (fs2, [] ++ [ {| ff_fieldID := 7; ff_fieldType := field_Sum;
                           ff_data := data; ff_startSlot := startSlot;
                           ff_endSlot := endSlot |} ], true, [])
      | Err e => (fs2, [], false, [("read segment data error:" +:+ e)%string])
      end /\
    familyTimes h1 fs2 = [10].
Proof.
  exact (write_then_flushFieldTo with_empty_segment.1 with_empty_segment.2 []
           "f1"%string 9 (at_slot 20 4) with_empty_segment_sorted_unique).
Defined.

End memdb_laws_examples.

Module query_laws_examples.
Import query query_spec query_trace query_facts query_laws.

Lemma getTagKeyID_caches_witness :
  tags (getTagKeyID (newTagSearch "ns" "cpu" NilExpr sample_metadata) "host").1
    !! "host"%string = Some 1%N /\
  getTagKeyID (getTagKeyID (newTagSearch "ns" "cpu" NilExpr sample_metadata) "host").1 "host"
  = ((getTagKeyID (newTagSearch "ns" "cpu" NilExpr sample_metadata) "host").1, Ok 1%N) /\
  tags (getTagKeyID (newTagSearch "ns" "cpu" NilExpr sample_metadata) "rack").1 = ∅.
Proof.
  destruct (getTagKeyID_caches (newTagSearch "ns" "cpu" NilExpr sample_metadata) "host")
    as (Hok & _).
  destruct (getTagKeyID_caches (newTagSearch "ns" "cpu" NilExpr sample_metadata) "rack")
    as (_ & Herr & _).
  destruct (Hok 1%N) as [Hcached Hagain]; [reflexivity|].
  destruct (Herr "tag key not found"%string) as [Htags _]; [reflexivity|].
  split; [exact Hcached|]. split; [exact Hagain | exact Htags].
Defined.

Lemma Filter_index_lookups_witness :
  index_lookups (calls (Filter (newTagSearch "ns" "cpu" sample_condition sample_metadata)).1) =
    [ (1%N, {| TagKey := "host"; Rewrite := "host=a" |});
      (1%N, {| TagKey := "host"; Rewrite := "host=b" |});
      (2%N, {| TagKey := "zone"; Rewrite := "zone=z" |}) ] /\
  map snd (index_lookups
             (calls (Filter (newTagSearch "ns" "cpu" sample_condition sample_metadata)).1)) =
    leaves sample_condition.
Proof.
  assert (Hres : (Filter (newTagSearch "ns" "cpu" sample_condition sample_metadata)).2 =
            (Some (result_ (Filter (newTagSearch "ns" "cpu" sample_condition
                                      sample_metadata)).1), None))
    by (vm_compute; reflexivity).
  exact (Filter_index_lookups "ns" "cpu" sample_condition sample_metadata _ Hres).
Defined.

End query_laws_examples.

Module parallel_laws_examples.
Import parallel parallel_spec parallel_loops parallel_trace parallel_facts parallel_laws.


Lemma SubmitMetadataJob_dispatch_failure_witness :
  (exists k leaf,
     Leafs leaf_plan !! k = Some leaf /\
     (SubmitMetadataJob (NewJobManager (stub ["leaf-1"%string])) context_Background
        leaf_plan suggest_hosts 2%nat).2 =
       map (fun node =>
              (Leaf_Indicator node,
               SubmitMetadataJob_request (NewJobManager (stub ["leaf-1"%string]))
                 leaf_plan suggest_hosts))
         (take (S k) (Leafs leaf_plan))) /\
  seq (SubmitMetadataJob (NewJobManager (stub ["leaf-1"%string])) context_Background
         leaf_plan suggest_hosts 2%nat).1.1 = 1 /\
  jobs (SubmitMetadataJob (NewJobManager (stub ["leaf-1"%string])) context_Background
          leaf_plan suggest_hosts 2%nat).1.1 = ∅ /\
  (forall id,
     GetJob (SubmitMetadataJob (NewJobManager (stub ["leaf-1"%string])) context_Background
               leaf_plan suggest_hosts 2%nat).1.1 id =
     GetJob (NewJobManager (stub ["leaf-1"%string])) id).
Proof.
  apply (SubmitMetadataJob_dispatch_failure (NewJobManager (stub ["leaf-1"%string]))
           context_Background leaf_plan suggest_hosts 2%nat "no route to leaf-1"%string).
  reflexivity.
Defined.

Lemma registry_after_submissions_witness :
  GetJob (submit_all (NewJobManager (stub ["mid-2"%string]))
            [ call_SubmitJob (job_of leaf_plan);
              call_SubmitJob (job_of tiered_plan);
              call_SubmitMetadataJob context_Background leaf_plan suggest_hosts 2%nat;
              call_SubmitJob (job_of empty_plan) ]).1 1 = Some (job_of leaf_plan) /\
  GetJob (submit_all (NewJobManager (stub ["mid-2"%string]))
            [ call_SubmitJob (job_of leaf_plan);
              call_SubmitJob (job_of tiered_plan);
              call_SubmitMetadataJob context_Background leaf_plan suggest_hosts 2%nat;
              call_SubmitJob (job_of empty_plan) ]).1 2 = None /\
  GetJob (submit_all (NewJobManager (stub ["mid-2"%string]))
            [ call_SubmitJob (job_of leaf_plan);
              call_SubmitJob (job_of tiered_plan);
              call_SubmitMetadataJob context_Background leaf_plan suggest_hosts 2%nat;
              call_SubmitJob (job_of empty_plan) ]).1 5 = None.
Proof.
  destruct (registry_after_submissions (stub ["mid-2"%string])
              [ call_SubmitJob (job_of leaf_plan);
                call_SubmitJob (job_of tiered_plan);
                call_SubmitMetadataJob context_Background leaf_plan suggest_hosts 2%nat;
                call_SubmitJob (job_of empty_plan) ]) as [Hlog Hframe].
  { cbn. unfold Int64.max_int. lia. }
  split; [|split].
  - destruct (Hlog 0%nat (call_SubmitJob (job_of leaf_plan))) as (err & Hi & Hget);
      [reflexivity|].
    vm_compute in Hi. injection Hi as <-. exact Hget.
  - destruct (Hlog 1%nat (call_SubmitJob (job_of tiered_plan))) as (err & Hi & Hget);
      [reflexivity|].
    vm_compute in Hi. injection Hi as <-. exact Hget.
  - apply Hframe. right. cbn. lia.
Defined.

Lemma buildAggregatorSpecs_fills_witness :
  buildAggregatorSpecs_loop ["f1"; "f2"]%string !! 1%nat =
    Some (Some (NewAggregatorSpec "f2")).
Proof.
  apply (proj2 (proj2 (buildAggregatorSpecs_fills ["f1"; "f2"]%string)) 1%nat "f2"%string).
  reflexivity.
Defined.

End parallel_laws_examples.
